(** * A shallow embedding of the BadgerDB buffer manager (buffer.cpp)

    The manager mediates between a bounded pool of frames and the pages of
    disk files.  The embedding follows buffer.cpp function by function:
    the private state of [BufMgr] is a record, every method is a
    computation in a small state-and-exception monad, and the calls made to
    the [File] collaborator are recorded in a log whose replies come from an
    oracle.  The frame index ([BufHashTbl]), the descriptor mutators
    ([BufDesc::Set], [BufDesc::Clear]), [File] and [Page] live in files that
    are not part of buffer.cpp; they are modelled from the specification.

    Conventions.  A [File*] argument is a file object: a null pointer is not
    a file.  The one exception is the argument of [flushFile], which is
    compared with the owning file of a frame before anything is done with
    it: it is an [option File], [None] being the null pointer.  Frame and
    page numbers are 32-bit unsigned, written as [Z] with the wrap-around of
    the hand spelled out; [pinCnt] is an [int] written as [Z], and a pin
    count beyond 2^31 is outside the model.  Behaviour that C++ leaves
    undefined is an outcome of its own, and so is running out of fuel in the
    one unbounded loop. *)

From stdpp Require Import base gmap list strings.
From Stdlib Require Import ZArith Lia.

Local Open Scope Z_scope.

(** ** Identifiers and pages *)

(** A [File*] is modelled by the identity of the file object it points to;
    [PageId] and [FrameId] are 32-bit unsigned integers. *)
Abbreviation File := nat.
Abbreviation PageId := Z.
Abbreviation FrameId := Z.

Definition UINT32_MOD : Z := 2 ^ 32.
Definition INT32_MAX1 : Z := 2 ^ 31.

(** Modelled from the spec: [Page] (page.h) is an opaque content unit that
    carries the page id the file assigned to it. *)
Record Page := mkPage { page_number : PageId; content : string }.

(** ** The File collaborator

    Calls issued to files, most recent first. *)
Inductive FileCall :=
| FReadPage (f : File) (p : PageId)
| FWritePage (f : File) (pg : Page)
| FAllocatePage (f : File)
| FDeletePage (f : File) (p : PageId).

(** Modelled from the spec: the File collaborator (file.h) and the constants
    of the missing headers.  What a file answers is a function of the calls
    made so far: [readPage_reply] is [None] when the page does not exist;
    [allocatePage_reply] is the freshly allocated page.  [INVALID_NUMBER] is
    the page number a cleared descriptor holds and [Page_default] the
    content of a pool slot that was never loaded. *)
Class FileCollab := {
  filename : File → string;
  readPage_reply : list FileCall → File → PageId → option Page;
  allocatePage_reply : list FileCall → File → Page;
  INVALID_NUMBER : PageId;
  Page_default : Page
}.

(** ** Frame descriptors *)

Record BufDesc := mkBufDesc {
  file : option File;
  pageNo : PageId;
  frameNo : FrameId;
  pinCnt : Z;
  dirty : bool;
  valid : bool;
  refbit : bool
}.

Definition with_pinCnt (n : Z) (d : BufDesc) : BufDesc :=
  mkBufDesc (file d) (pageNo d) (frameNo d) n (dirty d) (valid d) (refbit d).
Definition with_dirty (b : bool) (d : BufDesc) : BufDesc :=
  mkBufDesc (file d) (pageNo d) (frameNo d) (pinCnt d) b (valid d) (refbit d).
Definition with_valid (b : bool) (d : BufDesc) : BufDesc :=
  mkBufDesc (file d) (pageNo d) (frameNo d) (pinCnt d) (dirty d) b (refbit d).
Definition with_refbit (b : bool) (d : BufDesc) : BufDesc :=
  mkBufDesc (file d) (pageNo d) (frameNo d) (pinCnt d) (dirty d) (valid d) b.
Definition with_frameNo (i : FrameId) (d : BufDesc) : BufDesc :=
  mkBufDesc (file d) (pageNo d) i (pinCnt d) (dirty d) (valid d) (refbit d).

(** Modelled from the spec: [BufDesc::Clear] (buffer.h) resets the
    descriptor to the invalid state: no owning file, pin count 0, not dirty,
    not valid.  The spec leaves the page number and the reference bit of a
    cleared descriptor open; they are reset too, and the frame keeps its
    number. *)
Definition BufDesc_Clear `{FileCollab} (d : BufDesc) : BufDesc :=
  mkBufDesc None INVALID_NUMBER (frameNo d) 0 false false false.

(** Modelled from the spec: [BufDesc::Set] (buffer.h) marks the descriptor
    valid, pin count 1, reference bit set, not dirty, and records the
    owner. *)
Definition BufDesc_Set (filePtr : File) (pageNum : PageId) (d : BufDesc) : BufDesc :=
  mkBufDesc (Some filePtr) pageNum (frameNo d) 1 false true true.

(** Modelled from the spec: a default-constructed [BufDesc] (buffer.h) is in
    the invalid state. *)
Definition BufDesc_new `{FileCollab} : BufDesc :=
  mkBufDesc None INVALID_NUMBER 0 0 false false false.

(** ** Manager state *)

Record BufMgr := mkBufMgr {
  numBufs : Z;
  bufDescTable : list BufDesc;
  bufPool : list Page;
  hashTable : gmap (nat * Z) Z;
  clockHand : FrameId
}.

Definition with_table (t : list BufDesc) (m : BufMgr) : BufMgr :=
  mkBufMgr (numBufs m) t (bufPool m) (hashTable m) (clockHand m).
Definition with_pool (p : list Page) (m : BufMgr) : BufMgr :=
  mkBufMgr (numBufs m) (bufDescTable m) p (hashTable m) (clockHand m).
Definition with_hash (h : gmap (nat * Z) Z) (m : BufMgr) : BufMgr :=
  mkBufMgr (numBufs m) (bufDescTable m) (bufPool m) h (clockHand m).
Definition with_clock (c : FrameId) (m : BufMgr) : BufMgr :=
  mkBufMgr (numBufs m) (bufDescTable m) (bufPool m) (hashTable m) c.

(** The manager together with the log of calls made to files. *)
Record World := mkWorld { mgr : BufMgr; io : list FileCall }.

(** ** Exceptions and the monad *)

Inductive exn :=
| BufferExceededException
| PageNotPinnedException (name : string) (page : PageId) (frame : FrameId)
| PagePinnedException (name : string) (page : PageId) (frame : FrameId)
| BadBufferException (frame : FrameId) (d v r : bool)
| HashNotFoundException
| HashAlreadyPresentException
| InvalidPageException.

(** [Undefined] stands for behaviour C++ leaves undefined (an array access
    out of bounds, a null file dereferenced, a division by zero);
    [OutOfFuel] is a loop cut off by the model's fuel. *)
Inductive outcome (A : Type) :=
| Ret (a : A)
| Throw (e : exn)
| Undefined
| OutOfFuel.
Arguments Ret {A} a.
Arguments Throw {A} e.
Arguments Undefined {A}.
Arguments OutOfFuel {A}.

Definition M (A : Type) : Type := World → outcome A * World.

Definition ret {A} (a : A) : M A := λ w, (Ret a, w).
Definition throw {A} (e : exn) : M A := λ w, (Throw e, w).
Definition undefined {A} : M A := λ w, (Undefined, w).
Definition out_of_fuel {A} : M A := λ w, (OutOfFuel, w).

Definition bind {A B} (m : M A) (k : A → M B) : M B := λ w,
  match m w with
  | (Ret a, w') => k a w'
  | (Throw e, w') => (Throw e, w')
  | (Undefined, w') => (Undefined, w')
  | (OutOfFuel, w') => (OutOfFuel, w')
  end.

(** [try { m } catch (HashNotFoundException) { h }] *)
Definition catch_HashNotFound {A} (m : M A) (h : M A) : M A := λ w,
  match m w with
  | (Throw HashNotFoundException, w') => h w'
  | r => r
  end.

Notation "x <- m ;; k" := (bind m (λ x, k))
  (at level 100, m at next level, right associativity, only parsing).
Notation "m ;;; k" := (bind m (λ _, k))
  (at level 100, right associativity, only parsing).

Definition gets {A} (f : BufMgr → A) : M A := λ w, (Ret (f (mgr w)), w).
Definition modify (f : BufMgr → BufMgr) : M unit :=
  λ w, (Ret tt, mkWorld (f (mgr w)) (io w)).
Definition emit (c : FileCall) : M unit :=
  λ w, (Ret tt, mkWorld (mgr w) (c :: io w)).

(** ** Arrays: [bufDescTable[i]] and [bufPool[i]] *)

Definition nth_Z {A} (l : list A) (i : Z) : option A :=
  if decide (0 ≤ i) then l !! Z.to_nat i else None.

Definition desc_at (i : FrameId) : M BufDesc := λ w,
  match nth_Z (bufDescTable (mgr w)) i with
  | Some d => (Ret d, w)
  | None => (Undefined, w)
  end.

(** [bufDescTable[i].field = ...] *)
Definition update_desc (i : FrameId) (f : BufDesc → BufDesc) : M unit :=
  d <- desc_at i ;;
  modify (λ m, with_table (<[Z.to_nat i := f d]> (bufDescTable m)) m).

Definition page_at (i : FrameId) : M Page := λ w,
  match nth_Z (bufPool (mgr w)) i with
  | Some p => (Ret p, w)
  | None => (Undefined, w)
  end.

(** [bufPool[i] = pg] *)
Definition set_page (i : FrameId) (pg : Page) : M unit :=
  _ <- page_at i ;;
  modify (λ m, with_pool (<[Z.to_nat i := pg]> (bufPool m)) m).

Section Manager.
Context `{FC : FileCollab}.

(** ** Calls to the File collaborator *)

Definition file_readPage (f : File) (p : PageId) : M Page := λ w,
  let w' := mkWorld (mgr w) (FReadPage f p :: io w) in
  match readPage_reply (io w) f p with
  | Some pg => (Ret pg, w')
  | None => (Throw InvalidPageException, w')
  end.

Definition file_writePage (f : File) (pg : Page) : M unit :=
  emit (FWritePage f pg).

Definition file_allocatePage (f : File) : M Page := λ w,
  (Ret (allocatePage_reply (io w) f), mkWorld (mgr w) (FAllocatePage f :: io w)).

Definition file_deletePage (f : File) (p : PageId) : M unit :=
  emit (FDeletePage f p).

(** ** The frame index

    Modelled from the spec: [BufHashTbl] (bufHashTbl.h) is a partial map
    from (file, pageId) to frame id.  [lookup] distinguishes found from
    not-found, [insert] fails if the key already exists, and not-found on
    [remove] is tolerated. *)
Definition ht_lookup (f : File) (p : PageId) : M FrameId :=
  h <- gets hashTable ;;
  match h !! (f, p) with
  | Some fr => ret fr
  | None => throw HashNotFoundException
  end.

Definition ht_insert (f : File) (p : PageId) (fr : FrameId) : M unit :=
  h <- gets hashTable ;;
  match h !! (f, p) with
  | Some _ => throw HashAlreadyPresentException
  | None => modify (with_hash (<[(f, p) := fr]> h))
  end.

Definition ht_remove (f : File) (p : PageId) : M unit :=
  modify (λ m, with_hash (delete (f, p) (hashTable m)) m).

(** ** BufMgr::BufMgr *)

Definition BufMgr_new (bufs : Z) : BufMgr :=
  mkBufMgr bufs
    ((λ i, with_valid false (with_frameNo i BufDesc_new)) <$> seqZ 0 bufs)
    (replicate (Z.to_nat bufs) Page_default)
    ∅
    ((bufs - 1) mod UINT32_MOD).

(** ** BufMgr::advanceClock *)

Definition advanceClock : M unit := λ w,
  let m := mgr w in
  if decide (numBufs m = 0) then (Undefined, w)
  else (Ret tt,
        mkWorld (with_clock (((clockHand m + 1) mod UINT32_MOD) mod numBufs m) m)
                (io w)).

(** ** BufMgr::allocBuf *)

(** The body of the inner [for] loop: advance the hand and examine the
    frame under it.  The result is [Some h] when the body returns frame [h]
    and [None] when it goes on to the next iteration. *)
Definition visit : M (option FrameId) :=
  advanceClock ;;;
  h <- gets clockHand ;;
  d <- desc_at h ;;
  if negb (valid d) then ret (Some h)
  else if refbit d then
    update_desc h (with_refbit false) ;;; ret None
  else if 0 <? pinCnt d then ret None
  else
    (if dirty d then
       match file d with
       | Some f => pg <- page_at h ;; file_writePage f pg
       | None => undefined
       end
     else ret tt) ;;;
    catch_HashNotFound
      (match file d with
       | Some f =>
           ht_remove f (pageNo d) ;;;
           update_desc h BufDesc_Clear
       | None => ret tt
       end)
      (ret tt) ;;;
    ret (Some h).

(** The inner [for] loop with [n] iterations remaining.  The result is the
    frame selected, or [None] when the loop ran to its end. *)
Fixpoint sweep (n : nat) : M (option FrameId) :=
  match n with
  | O => ret None
  | S n' =>
      r <- visit ;;
      match r with
      | Some frame => ret (Some frame)
      | None => sweep n'
      end
  end.

(** The second [for] loop: is there a frame among [i, i+n) whose pin count
    is zero? *)
Fixpoint scan_unpinned (n : nat) (i : FrameId) : M bool :=
  match n with
  | O => ret false
  | S n' =>
      d <- desc_at i ;;
      if decide (pinCnt d = 0) then ret true else scan_unpinned n' (i + 1)
  end.

(** The [while (true)] loop.  [(signed)numBufs] is negative from 2^31 on,
    where the loop counter would overflow before it meets the bound: the
    model gives up there. *)
Fixpoint allocBuf_loop (fuel : nat) : M FrameId :=
  match fuel with
  | O => out_of_fuel
  | S fuel' =>
      N <- gets numBufs ;;
      if decide (INT32_MAX1 ≤ N) then undefined
      else
        r <- sweep (Z.to_nat N) ;;
        match r with
        | Some frame => ret frame
        | None =>
            allPinned <- scan_unpinned (Z.to_nat N) 0 ;;
            if allPinned then allocBuf_loop fuel'
            else throw BufferExceededException
        end
  end.

(** Two rounds of the outer loop always suffice ([allocBuf_loop_fuel]). *)
Definition allocBuf : M FrameId := allocBuf_loop 2.

(** ** BufMgr::readPage

    The result is the frame whose buffer [page] is made to point to. *)
Definition readPage (f : File) (p : PageId) : M FrameId :=
  id <- catch_HashNotFound
          (id <- ht_lookup f p ;;
           update_desc id (λ d, with_pinCnt (pinCnt d + 1) d) ;;;
           ret id)
          (pageTemp <- file_readPage f p ;;
           id <- allocBuf ;;
           set_page id pageTemp ;;;
           ht_insert f p id ;;;
           update_desc id (BufDesc_Set f p) ;;;
           ret id) ;;
  update_desc id (with_refbit true) ;;;
  ret id.

(** ** BufMgr::unPinPage *)
Definition unPinPage (f : File) (p : PageId) (isDirty : bool) : M unit :=
  r <- catch_HashNotFound
         (frameId <- ht_lookup f p ;; ret (Some frameId))
         (ret None) ;;
  match r with
  | None => ret tt
  | Some frameId =>
      d <- desc_at frameId ;;
      if decide (pinCnt d = 0) then
        throw (PageNotPinnedException (filename f) p frameId)
      else
        update_desc frameId (λ d, with_pinCnt (pinCnt d - 1) d) ;;;
        if isDirty then update_desc frameId (with_dirty true) else ret tt
  end.

(** ** BufMgr::flushFile

    [file] is a pointer that the loop compares with the owning file of each
    frame; [None] is the null pointer, which equals the owning file of a
    frame that has none.  Calling a method through a null pointer is
    undefined.  No key of the index has a null file, so that [remove] with
    a null [file] finds nothing to remove. *)

(** The body of the loop at frame [k]. *)
Definition flush_frame (fileArg : option File) (k : FrameId) : M unit :=
  d <- desc_at k ;;
  if decide (file d = fileArg) then
    if 0 <? pinCnt d then
      match fileArg with
      | Some f => throw (PagePinnedException (filename f) (pageNo d) k)
      | None => undefined
      end
    else if negb (valid d) then
      throw (BadBufferException k (dirty d) (valid d) (refbit d))
    else
      (if dirty d then
         match file d with
         | Some g =>
             pg <- page_at k ;;
             file_writePage g pg ;;;
             update_desc k (with_dirty false)
         | None => undefined
         end
       else ret tt) ;;;
      match fileArg with
      | Some f => ht_remove f (pageNo d)
      | None => ret tt
      end ;;;
      update_desc k BufDesc_Clear
  else ret tt.

(** The loop from frame [k] on, [n] iterations remaining. *)
Fixpoint flushFile_from (fileArg : option File) (n : nat) (k : FrameId) : M unit :=
  match n with
  | O => ret tt
  | S n' => flush_frame fileArg k ;;; flushFile_from fileArg n' (k + 1)
  end.

Definition flushFile (fileArg : option File) : M unit :=
  N <- gets numBufs ;;
  flushFile_from fileArg (Z.to_nat N) 0.

(** ** BufMgr::allocPage

    The result is the new page number and the frame holding the page. *)
Definition allocPage (f : File) : M (PageId * FrameId) :=
  pg <- file_allocatePage f ;;
  let newPageId := page_number pg in
  frameId <- allocBuf ;;
  content <- file_readPage f newPageId ;;
  set_page frameId content ;;;
  ht_insert f newPageId frameId ;;;
  update_desc frameId (BufDesc_Set f newPageId) ;;;
  ret (newPageId, frameId).

(** ** BufMgr::disposePage *)
Definition disposePage (f : File) (p : PageId) : M unit :=
  catch_HashNotFound
    (frameId <- ht_lookup f p ;;
     update_desc frameId BufDesc_Clear ;;;
     ht_remove f p)
    (ret tt) ;;;
  file_deletePage f p.

(** ** The public operations as one transition system *)

Inductive Op :=
| OpReadPage (f : File) (p : PageId)
| OpUnPinPage (f : File) (p : PageId) (isDirty : bool)
| OpAllocPage (f : File)
| OpDisposePage (f : File) (p : PageId)
| OpFlushFile (fileArg : option File).

Definition run (o : Op) : M unit :=
  match o with
  | OpReadPage f p => readPage f p ;;; ret tt
  | OpUnPinPage f p b => unPinPage f p b
  | OpAllocPage f => allocPage f ;;; ret tt
  | OpDisposePage f p => disposePage f p
  | OpFlushFile fileArg => flushFile fileArg
  end.

(** An operation completes when it returns or throws. *)
Definition completes {A} (r : outcome A) : Prop :=
  match r with
  | Ret _ | Throw _ => True
  | Undefined | OutOfFuel => False
  end.

(** The states a client can bring a manager to: it constructs one and then
    calls public operations, each of which returns or throws. *)
Inductive reachable : World → Prop :=
| reachable_new (bufs : Z) (log : list FileCall) :
    0 ≤ bufs < UINT32_MOD →
    reachable (mkWorld (BufMgr_new bufs) log)
| reachable_run (o : Op) (w : World) :
    reachable w →
    completes (fst (run o w)) →
    reachable (snd (run o w)).

(** ** Invariants of the descriptor table and the index *)

(** An invalid frame is unpinned, clean and has no owning file. *)
Definition invalid_clean (d : BufDesc) : Prop :=
  valid d = false → pinCnt d = 0 ∧ dirty d = false ∧ file d = None.

Definition desc_inv (m : BufMgr) : Prop :=
  ∀ (i : nat) d, bufDescTable m !! i = Some d → invalid_clean d.

(** A valid frame has an owning file. *)
Definition owner_inv (m : BufMgr) : Prop :=
  ∀ (i : nat) d, bufDescTable m !! i = Some d → valid d = true → is_Some (file d).

(** An index entry points to a valid frame that holds the page of its key. *)
Definition index_inv (m : BufMgr) : Prop :=
  ∀ f p fr, hashTable m !! (f, p) = Some fr →
    ∃ d, nth_Z (bufDescTable m) fr = Some d ∧
         valid d = true ∧ file d = Some f ∧ pageNo d = p.

Definition Inv (m : BufMgr) : Prop := desc_inv m ∧ owner_inv m ∧ index_inv m.

(** The arrays have [numBufs] slots and the loop counters do not overflow. *)
Definition shape (m : BufMgr) : Prop :=
  0 < numBufs m < INT32_MAX1 ∧
  length (bufDescTable m) = Z.to_nat (numBufs m) ∧
  length (bufPool m) = Z.to_nat (numBufs m).

(** The arrays have [numBufs] slots. *)
Definition sized (m : BufMgr) : Prop :=
  0 ≤ numBufs m ∧
  length (bufDescTable m) = Z.to_nat (numBufs m) ∧
  length (bufPool m) = Z.to_nat (numBufs m).

(** Where one [advanceClock] takes a hand at [c] in a pool of [N] frames. *)
Definition hand_step (N c : Z) : Z := ((c + 1) mod UINT32_MOD) mod N.

(** The manager with the hand advanced once. *)
Definition advanced (w : World) : World :=
  mkWorld (with_clock (hand_step (numBufs (mgr w)) (clockHand (mgr w))) (mgr w)) (io w).

(** The pin count of the frame holding page [(f, p)], or 0 when the page is
    not resident. *)
Definition pins (m : BufMgr) (f : File) (p : PageId) : Z :=
  match hashTable m !! (f, p) with
  | Some fr => from_option pinCnt 0 (nth_Z (bufDescTable m) fr)
  | None => 0
  end.

(** Frame [k], holding page [pageNo d] of file [f], cleared and taken out of
    the index. *)
Definition release_frame (k : FrameId) (d : BufDesc) (f : File) (m : BufMgr) : BufMgr :=
  with_table (<[Z.to_nat k := BufDesc_Clear d]> (bufDescTable m))
    (with_hash (delete (f, pageNo d) (hashTable m)) m).

(** What one run of the body of the sweep does, path by path: [h] is the
    frame the advanced hand points to and [d] its descriptor. *)
Inductive visit_step (w : World) : outcome (option FrameId) → World → Prop :=
| visit_no_frames :
    numBufs (mgr w) = 0 →
    visit_step w Undefined w
| visit_out_of_bounds :
    numBufs (mgr w) ≠ 0 →
    nth_Z (bufDescTable (mgr w)) (clockHand (mgr (advanced w))) = None →
    visit_step w Undefined (advanced w)
| visit_invalid d :
    numBufs (mgr w) ≠ 0 →
    nth_Z (bufDescTable (mgr w)) (clockHand (mgr (advanced w))) = Some d →
    valid d = false →
    visit_step w (Ret (Some (clockHand (mgr (advanced w))))) (advanced w)
| visit_second_chance d :
    numBufs (mgr w) ≠ 0 →
    nth_Z (bufDescTable (mgr w)) (clockHand (mgr (advanced w))) = Some d →
    valid d = true → refbit d = true →
    visit_step w (Ret None)
      (mkWorld
         (with_table
            (<[Z.to_nat (clockHand (mgr (advanced w))) := with_refbit false d]>
               (bufDescTable (mgr w)))
            (mgr (advanced w)))
         (io w))
| visit_pinned d :
    numBufs (mgr w) ≠ 0 →
    nth_Z (bufDescTable (mgr w)) (clockHand (mgr (advanced w))) = Some d →
    valid d = true → refbit d = false → 0 < pinCnt d →
    visit_step w (Ret None) (advanced w)
| visit_evict_clean d f :
    numBufs (mgr w) ≠ 0 →
    nth_Z (bufDescTable (mgr w)) (clockHand (mgr (advanced w))) = Some d →
    valid d = true → refbit d = false → pinCnt d ≤ 0 →
    dirty d = false → file d = Some f →
    visit_step w (Ret (Some (clockHand (mgr (advanced w)))))
      (mkWorld (release_frame (clockHand (mgr (advanced w))) d f (mgr (advanced w)))
               (io w))
| visit_evict_dirty d f pg :
    numBufs (mgr w) ≠ 0 →
    nth_Z (bufDescTable (mgr w)) (clockHand (mgr (advanced w))) = Some d →
    valid d = true → refbit d = false → pinCnt d ≤ 0 →
    dirty d = true → file d = Some f →
    nth_Z (bufPool (mgr w)) (clockHand (mgr (advanced w))) = Some pg →
    visit_step w (Ret (Some (clockHand (mgr (advanced w)))))
      (mkWorld (release_frame (clockHand (mgr (advanced w))) d f (mgr (advanced w)))
               (FWritePage f pg :: io w))
| visit_evict_no_page d f :
    numBufs (mgr w) ≠ 0 →
    nth_Z (bufDescTable (mgr w)) (clockHand (mgr (advanced w))) = Some d →
    valid d = true → refbit d = false → pinCnt d ≤ 0 →
    dirty d = true → file d = Some f →
    nth_Z (bufPool (mgr w)) (clockHand (mgr (advanced w))) = None →
    visit_step w Undefined (advanced w)
| visit_ownerless d :
    numBufs (mgr w) ≠ 0 →
    nth_Z (bufDescTable (mgr w)) (clockHand (mgr (advanced w))) = Some d →
    valid d = true → refbit d = false → pinCnt d ≤ 0 →
    dirty d = false → file d = None →
    visit_step w (Ret (Some (clockHand (mgr (advanced w))))) (advanced w)
| visit_ownerless_dirty d :
    numBufs (mgr w) ≠ 0 →
    nth_Z (bufDescTable (mgr w)) (clockHand (mgr (advanced w))) = Some d →
    valid d = true → refbit d = false → pinCnt d ≤ 0 →
    dirty d = true → file d = None →
    visit_step w Undefined (advanced w).

(** What the body of the flush loop does at frame [k] for the file object
    [f], path by path. *)
Inductive flush_step (f : File) (k : FrameId) (w : World) : outcome unit → World → Prop :=
| flush_out_of_bounds :
    nth_Z (bufDescTable (mgr w)) k = None →
    flush_step f k w Undefined w
| flush_other d :
    nth_Z (bufDescTable (mgr w)) k = Some d →
    file d ≠ Some f →
    flush_step f k w (Ret tt) w
| flush_pinned d :
    nth_Z (bufDescTable (mgr w)) k = Some d →
    file d = Some f → 0 < pinCnt d →
    flush_step f k w (Throw (PagePinnedException (filename f) (pageNo d) k)) w
| flush_bad d :
    nth_Z (bufDescTable (mgr w)) k = Some d →
    file d = Some f → pinCnt d ≤ 0 → valid d = false →
    flush_step f k w
      (Throw (BadBufferException k (dirty d) (valid d) (refbit d))) w
| flush_clean d :
    nth_Z (bufDescTable (mgr w)) k = Some d →
    file d = Some f → pinCnt d ≤ 0 → valid d = true → dirty d = false →
    flush_step f k w (Ret tt) (mkWorld (release_frame k d f (mgr w)) (io w))
| flush_dirty d pg :
    nth_Z (bufDescTable (mgr w)) k = Some d →
    file d = Some f → pinCnt d ≤ 0 → valid d = true → dirty d = true →
    nth_Z (bufPool (mgr w)) k = Some pg →
    flush_step f k w (Ret tt)
      (mkWorld (release_frame k d f (mgr w)) (FWritePage f pg :: io w))
| flush_no_page d :
    nth_Z (bufDescTable (mgr w)) k = Some d →
    file d = Some f → pinCnt d ≤ 0 → valid d = true → dirty d = true →
    nth_Z (bufPool (mgr w)) k = None →
    flush_step f k w Undefined w.

(** What the body of the flush loop does at frame [k] for the null pointer,
    path by path: the frames it matches are those without owning file. *)
Inductive flush_null_step (k : FrameId) (w : World) : outcome unit → World → Prop :=
| flush_null_out_of_bounds :
    nth_Z (bufDescTable (mgr w)) k = None →
    flush_null_step k w Undefined w
| flush_null_other d :
    nth_Z (bufDescTable (mgr w)) k = Some d →
    file d ≠ None →
    flush_null_step k w (Ret tt) w
| flush_null_pinned d :
    nth_Z (bufDescTable (mgr w)) k = Some d →
    file d = None → 0 < pinCnt d →
    flush_null_step k w Undefined w
| flush_null_bad d :
    nth_Z (bufDescTable (mgr w)) k = Some d →
    file d = None → pinCnt d ≤ 0 → valid d = false →
    flush_null_step k w
      (Throw (BadBufferException k (dirty d) (valid d) (refbit d))) w
| flush_null_clean d :
    nth_Z (bufDescTable (mgr w)) k = Some d →
    file d = None → pinCnt d ≤ 0 → valid d = true → dirty d = false →
    flush_null_step k w (Ret tt)
      (mkWorld (with_table (<[Z.to_nat k := BufDesc_Clear d]> (bufDescTable (mgr w)))
                  (mgr w))
               (io w))
| flush_null_dirty d :
    nth_Z (bufDescTable (mgr w)) k = Some d →
    file d = None → pinCnt d ≤ 0 → valid d = true → dirty d = true →
    flush_null_step k w Undefined w.

(** What victim selection may do to a descriptor: leave it, drop its
    reference bit, or clear it when the frame is valid and unpinned. *)
Definition swept (d d' : BufDesc) : Prop :=
  d' = d ∨ d' = with_refbit false d ∨
  (valid d = true ∧ pinCnt d ≤ 0 ∧ d' = BufDesc_Clear d).

(** What victim selection may do to the manager: the pool keeps its
    content, the index only loses entries. *)
Definition sweeps_to (m m' : BufMgr) : Prop :=
  numBufs m' = numBufs m ∧
  bufPool m' = bufPool m ∧
  hashTable m' ⊆ hashTable m ∧
  Forall2 swept (bufDescTable m) (bufDescTable m').

(** A sweep that selects nothing only drops reference bits. *)
Definition second_chance (d d' : BufDesc) : Prop :=
  d' = d ∨ d' = with_refbit false d.

(** The manager once page [(f, p)] with content [pg] sits in frame [fr],
    whose descriptor was [d]. *)
Definition install_page (fr : FrameId) (f : File) (p : PageId) (pg : Page)
    (d : BufDesc) (m : BufMgr) : BufMgr :=
  with_table (<[Z.to_nat fr := BufDesc_Set f p d]> (bufDescTable m))
    (with_hash (<[(f, p) := fr]> (hashTable m))
       (with_pool (<[Z.to_nat fr := pg]> (bufPool m)) m)).

(** Frame [i] holds the same page with the same content in [m'] as in [m]. *)
Definition kept (m m' : BufMgr) (i : FrameId) : Prop :=
  ∃ d d', nth_Z (bufDescTable m) i = Some d ∧
          nth_Z (bufDescTable m') i = Some d' ∧
          file d' = file d ∧ pageNo d' = pageNo d ∧ valid d' = valid d ∧
          nth_Z (bufPool m') i = nth_Z (bufPool m) i.

(** ** The fetch in the order the specification words it

    Section 4.3 has the index miss obtain the victim frame first and read the
    page from the file into it afterwards. *)
Definition readPage_victim_first (f : File) (p : PageId) : M FrameId :=
  id <- catch_HashNotFound
          (id <- ht_lookup f p ;;
           update_desc id (λ d, with_pinCnt (pinCnt d + 1) d) ;;;
           ret id)
          (id <- allocBuf ;;
           pg <- file_readPage f p ;;
           set_page id pg ;;;
           ht_insert f p id ;;;
           update_desc id (BufDesc_Set f p) ;;;
           ret id) ;;
  update_desc id (with_refbit true) ;;;
  ret id.

(** ** BufMgr::~BufMgr

    The loop that writes the dirty frames back.  The hash table, the
    descriptor table and the pool are released after it; the model stops at
    the state the loop leaves. *)

(** The body of the loop at frame [i]. *)
Definition destroy_frame (i : FrameId) : M unit :=
  d <- desc_at i ;;
  if dirty d then
    match file d with
    | Some f =>
        pg <- page_at i ;;
        file_writePage f pg ;;;
        update_desc i (with_dirty false)
    | None => undefined
    end
  else ret tt.

(** The loop from frame [i] on, [n] iterations remaining. *)
Fixpoint destroy_from (n : nat) (i : FrameId) : M unit :=
  match n with
  | O => ret tt
  | S n' => destroy_frame i ;;; destroy_from n' (i + 1)
  end.

Definition BufMgr_destroy : M unit :=
  N <- gets numBufs ;;
  destroy_from (Z.to_nat N) 0.

(** ** BufMgr::printSelf

    The result is the total the function prints last.  What [BufDesc::Print]
    (buffer.h) writes for each frame is not modelled. *)

(** The loop from frame [i] on, [n] iterations remaining, [validFrames]
    counted so far.  [validFrames] is an [int]: the model gives up where
    [validFrames++] would overflow. *)
Fixpoint count_valid (n : nat) (i : FrameId) (validFrames : Z) : M Z :=
  match n with
  | O => ret validFrames
  | S n' =>
      tmpbuf <- desc_at i ;;
      if valid tmpbuf then
        if decide (validFrames + 1 < INT32_MAX1)
        then count_valid n' (i + 1) (validFrames + 1)
        else undefined
      else count_valid n' (i + 1) validFrames
  end.

Definition printSelf : M Z :=
  N <- gets numBufs ;;
  count_valid (Z.to_nat N) 0 0.

(** ** Further invariants *)

(** A valid frame is in the index under the page it holds. *)
Definition mirror (m : BufMgr) : Prop :=
  ∀ (i : nat) d f,
    bufDescTable m !! i = Some d → valid d = true → file d = Some f →
    hashTable m !! (f, pageNo d) = Some (Z.of_nat i).

(** No pin count is negative. *)
Definition pins_nonneg (m : BufMgr) : Prop :=
  ∀ (i : nat) d, bufDescTable m !! i = Some d → 0 ≤ pinCnt d.

(** The hand points into the pool. *)
Definition hand_in_range (m : BufMgr) : Prop :=
  0 < numBufs m → 0 ≤ clockHand m < numBufs m.

Definition Good (m : BufMgr) : Prop := mirror m ∧ pins_nonneg m ∧ hand_in_range m.

(** The write the destructor issues for a frame, if any. *)
Definition writeback (d : BufDesc) (pg : Page) : option FileCall :=
  if dirty d then (λ f, FWritePage f pg) <$> file d else None.

(** The writes of the dirty frames of a table, first frame first. *)
Definition dirty_writes (t : list BufDesc) (pool : list Page) : list FileCall :=
  omap (λ x, writeback x.1 x.2) (zip t pool).

(** Frames [0, k) have been handed out on a fresh pool: the hand is on the
    last of them and the frames from [k] on are still invalid. *)
Definition filled (k : Z) (m : BufMgr) : Prop :=
  0 ≤ k ≤ numBufs m ∧
  clockHand m = (k - 1) mod numBufs m ∧
  ∀ j d, k ≤ j → nth_Z (bufDescTable m) j = Some d → valid d = false.

(** Between [w] and [w'] the page in frame [fr] was evicted and nothing else
    happened to the index or the files: the frame was valid and not pinned,
    it is cleared, its key is out of the index and, if it was dirty, its
    content was written to its file. *)
Definition evicted (w w' : World) (fr : FrameId) : Prop :=
  ∃ d f,
    nth_Z (bufDescTable (mgr w)) fr = Some d ∧
    valid d = true ∧ pinCnt d ≤ 0 ∧ file d = Some f ∧
    nth_Z (bufDescTable (mgr w')) fr = Some (BufDesc_Clear d) ∧
    hashTable (mgr w') = delete (f, pageNo d) (hashTable (mgr w)) ∧
    if dirty d
    then ∃ pg, nth_Z (bufPool (mgr w)) fr = Some pg ∧ io w' = FWritePage f pg :: io w
    else io w' = io w.

(** The number of valid frames of a table. *)
Definition valid_count (t : list BufDesc) : nat :=
  length (filter (λ d, valid d = true) t).

End Manager.

(** ** A small file system to run the manager on

    Every file holds pages 1 to 8; a read returns what was last written to
    the page, or a blank page.  Allocation hands out page 9, 10, ... *)
Module Toy.

Fixpoint last_write (log : list FileCall) (f : File) (p : PageId) : option Page :=
  match log with
  | [] => None
  | FWritePage g pg :: log' =>
      if decide (g = f ∧ page_number pg = p) then Some pg
      else last_write log' f p
  | _ :: log' => last_write log' f p
  end.

Fixpoint allocated (log : list FileCall) (f : File) : Z :=
  match log with
  | [] => 0
  | FAllocatePage g :: log' =>
      if decide (g = f) then 1 + allocated log' f else allocated log' f
  | _ :: log' => allocated log' f
  end.

#[export] Instance files : FileCollab := {|
  filename := λ f, if decide (f = O) then "a.db" else "b.db";
  readPage_reply := λ log f p,
    if decide (1 ≤ p < 9 + allocated log f) then
      Some (default (mkPage p "blank") (last_write log f p))
    else None;
  allocatePage_reply := λ log f, mkPage (9 + allocated log f) "blank";
  INVALID_NUMBER := 0;
  Page_default := mkPage 0 "blank"
|}.

(** A fresh manager over [bufs] frames, with no file call made yet. *)
Definition fresh (bufs : Z) : World := mkWorld (BufMgr_new bufs) [].

(** The world an operation leaves behind. *)
Definition after {A} (m : M A) (w : World) : World := snd (m w).

(** Two frames; page 1 of file 0 was fetched once and is still pinned. *)
Definition pinned : World := after (readPage 0%nat 1) (fresh 2).

(** The same page after its only pin was released. *)
Definition idle : World := after (unPinPage 0%nat 1 false) pinned.

(** Pages 1 and 2 of file 0 fetched: both frames are pinned and have their
    reference bits set. *)
Definition full : World := after (readPage 0%nat 2) pinned.

(** A third fetch has failed on [full]: both frames are still pinned. *)
Definition stale : World := after (readPage 0%nat 3) full.

(** Page 1 released dirty after that: frame 0 is valid, unpinned, dirty and
    has its reference bit down; the hand is on frame 1. *)
Definition ripe : World := after (unPinPage 0%nat 1 true) stale.

(** Page 1 released dirty while page 2 stays pinned. *)
Definition half : World := after (unPinPage 0%nat 1 true) full.

(** One frame, holding page 1 of file 0, released dirty. *)
Definition single : World :=
  after (unPinPage 0%nat 1 true) (after (readPage 0%nat 1) (fresh 1)).

End Toy.

(** * Properties *)

(** Unfolding the monad in a goal. *)
Ltac mred :=
  repeat progress
    unfold bind, catch_HashNotFound, ret, throw, undefined, gets, modify, emit,
      desc_at, update_desc, page_at, set_page, ht_lookup, ht_insert, ht_remove,
      file_readPage, file_writePage, file_allocatePage, file_deletePage;
  cbv beta iota;
  cbn [mgr io bufDescTable bufPool hashTable clockHand numBufs
       with_table with_pool with_hash with_clock].

Ltac mnext :=
  cbv beta iota;
  cbn [mgr io bufDescTable bufPool hashTable clockHand numBufs
       with_table with_pool with_hash with_clock].

(** Reducing the result of a run in the goal and the hypotheses. *)
Ltac rsimpl :=
  cbv beta iota zeta in *; cbn [fst snd mgr io completes] in *.

Section Properties.
Context `{FC : FileCollab}.

Implicit Types (w : World) (m : BufMgr) (d : BufDesc) (f : File)
  (p : PageId) (i h fr : FrameId).

(** ** Array access *)

Lemma nth_Z_Some {A} (l : list A) (i : Z) (x : A) :
  nth_Z l i = Some x ↔ 0 ≤ i ∧ l !! Z.to_nat i = Some x.
Proof. unfold nth_Z. case_decide; intuition (try lia; try done). Qed.

Lemma nth_Z_of_nat {A} (l : list A) (n : nat) : nth_Z l (Z.of_nat n) = l !! n.
Proof.
  unfold nth_Z. case_decide; [|lia]. by rewrite Nat2Z.id.
Qed.

Lemma nth_Z_insert_eq {A} (l : list A) (i : Z) (x y : A) :
  nth_Z l i = Some x → nth_Z (<[Z.to_nat i := y]> l) i = Some y.
Proof.
  rewrite !nth_Z_Some. intros [Hi Hl]. split; [done|].
  apply list_lookup_insert_eq. by eapply lookup_lt_Some.
Qed.

Lemma nth_Z_insert_ne {A} (l : list A) (i j : Z) (y : A) :
  0 ≤ i → i ≠ j → nth_Z (<[Z.to_nat i := y]> l) j = nth_Z l j.
Proof.
  intros Hi Hne. unfold nth_Z. case_decide; [|done].
  apply list_lookup_insert_ne. lia.
Qed.

Lemma nth_Z_is_Some {A} (l : list A) (i : Z) :
  0 ≤ i < Z.of_nat (length l) → is_Some (nth_Z l i).
Proof.
  intros Hi. unfold nth_Z. case_decide; [|lia].
  apply lookup_lt_is_Some. lia.
Qed.

(** ** Running the primitive steps *)

Lemma desc_at_run w i d :
  nth_Z (bufDescTable (mgr w)) i = Some d → desc_at i w = (Ret d, w).
Proof. unfold desc_at. by intros ->. Qed.

Lemma update_desc_run w i d (g : BufDesc → BufDesc) :
  nth_Z (bufDescTable (mgr w)) i = Some d →
  update_desc i g w =
    (Ret tt, mkWorld (with_table (<[Z.to_nat i := g d]> (bufDescTable (mgr w))) (mgr w)) (io w)).
Proof. unfold update_desc, bind, desc_at, modify. by intros ->. Qed.

Lemma update_desc_undef w i (g : BufDesc → BufDesc) :
  nth_Z (bufDescTable (mgr w)) i = None → update_desc i g w = (Undefined, w).
Proof. unfold update_desc, bind, desc_at. by intros ->. Qed.

Lemma ht_lookup_hit w f p fr :
  hashTable (mgr w) !! (f, p) = Some fr → ht_lookup f p w = (Ret fr, w).
Proof. unfold ht_lookup, bind, gets, ret. simpl. by intros ->. Qed.

Lemma ht_lookup_miss w f p :
  hashTable (mgr w) !! (f, p) = None →
  ht_lookup f p w = (Throw HashNotFoundException, w).
Proof. unfold ht_lookup, bind, gets, throw. simpl. by intros ->. Qed.

Lemma with_refbit_id d : with_refbit (refbit d) d = d.
Proof. by destruct d. Qed.

(** ** unPinPage *)

Lemma unPinPage_miss w f p b :
  hashTable (mgr w) !! (f, p) = None → unPinPage f p b w = (Ret tt, w).
Proof.
  intros Hm. unfold unPinPage, bind, catch_HashNotFound.
  by rewrite (ht_lookup_miss _ _ _ Hm).
Qed.

Lemma unPinPage_not_pinned w f p b fr d :
  hashTable (mgr w) !! (f, p) = Some fr →
  nth_Z (bufDescTable (mgr w)) fr = Some d →
  pinCnt d = 0 →
  unPinPage f p b w = (Throw (PageNotPinnedException (filename f) p fr), w).
Proof.
  intros Hh Hd Hpin. unfold unPinPage, bind, catch_HashNotFound.
  rewrite (ht_lookup_hit _ _ _ _ Hh). simpl.
  rewrite (desc_at_run _ _ _ Hd). by rewrite decide_True.
Qed.

Lemma unPinPage_pinned w f p b fr d :
  hashTable (mgr w) !! (f, p) = Some fr →
  nth_Z (bufDescTable (mgr w)) fr = Some d →
  pinCnt d ≠ 0 →
  unPinPage f p b w =
    (Ret tt,
     mkWorld (with_table
                (<[Z.to_nat fr :=
                     mkBufDesc (file d) (pageNo d) (frameNo d) (pinCnt d - 1)
                       (b || dirty d) (valid d) (refbit d)]>
                   (bufDescTable (mgr w))) (mgr w)) (io w)).
Proof.
  intros Hh Hd Hpin. unfold unPinPage, bind, catch_HashNotFound.
  rewrite (ht_lookup_hit _ _ _ _ Hh). simpl.
  rewrite (desc_at_run _ _ _ Hd). rewrite decide_False by done.
  rewrite (update_desc_run _ _ _ _ Hd).
  destruct b; simpl.
  - erewrite update_desc_run by (simpl; by eapply nth_Z_insert_eq).
    simpl. unfold with_table; simpl. by rewrite list_insert_insert_eq.
  - unfold ret. by destruct d.
Qed.

(** ** Running binds and handlers *)

Lemma bind_Ret {A B} (c : M A) (k : A → M B) w a w1 :
  c w = (Ret a, w1) → bind c k w = k a w1.
Proof. unfold bind. by intros ->. Qed.

Lemma bind_Throw {A B} (c : M A) (k : A → M B) w e w1 :
  c w = (Throw e, w1) → bind c k w = (Throw e, w1).
Proof. unfold bind. by intros ->. Qed.

Lemma bind_Undefined {A B} (c : M A) (k : A → M B) w w1 :
  c w = (Undefined, w1) → bind c k w = (Undefined, w1).
Proof. unfold bind. by intros ->. Qed.

Lemma catch_Ret {A} (c h : M A) w a w1 :
  c w = (Ret a, w1) → catch_HashNotFound c h w = (Ret a, w1).
Proof. unfold catch_HashNotFound. by intros ->. Qed.

Lemma catch_caught {A} (c h : M A) w w1 :
  c w = (Throw HashNotFoundException, w1) → catch_HashNotFound c h w = h w1.
Proof. unfold catch_HashNotFound. by intros ->. Qed.

Lemma advanceClock_run w :
  numBufs (mgr w) ≠ 0 → advanceClock w = (Ret tt, advanced w).
Proof. intros HN. unfold advanceClock. by rewrite decide_False. Qed.

Lemma page_at_run w i pg :
  nth_Z (bufPool (mgr w)) i = Some pg → page_at i w = (Ret pg, w).
Proof. unfold page_at. by intros ->. Qed.

Lemma visit_step_run w r w' : visit_step w r w' → visit w = (r, w').
Proof.
  intros Hs. unfold visit.
  destruct Hs as [HN|HN Hd|d HN Hd Hv|d HN Hd Hv Hr|d HN Hd Hv Hr Hp
                 |d f HN Hd Hv Hr Hp Hdi Hf|d f pg HN Hd Hv Hr Hp Hdi Hf Hpg
                 |d f HN Hd Hv Hr Hp Hdi Hf Hpg|d HN Hd Hv Hr Hp Hdi Hf
                 |d HN Hd Hv Hr Hp Hdi Hf].
  { apply bind_Undefined. unfold advanceClock. by rewrite decide_True. }
  all: rewrite (bind_Ret _ _ w tt (advanced w)) by (by apply advanceClock_run).
  all: rewrite (bind_Ret _ _ _ (clockHand (mgr (advanced w))) (advanced w))
    by reflexivity.
  { apply bind_Undefined. unfold desc_at. simpl bufDescTable. by rewrite Hd. }
  all: rewrite (bind_Ret _ _ _ d (advanced w)) by (by apply desc_at_run).
  all: rewrite Hv; cbn [negb]; try done.
  all: rewrite Hr.
  { by rewrite (bind_Ret _ _ _ tt _ (update_desc_run (advanced w) _ d _ Hd)). }
  all: try (apply Z.ltb_lt in Hp; rewrite Hp; done).
  all: apply Z.ltb_ge in Hp; rewrite Hp, Hdi, Hf.
  - rewrite (bind_Ret _ _ _ tt (advanced w)) by done.
    erewrite bind_Ret; [reflexivity|]. apply catch_Ret.
    erewrite bind_Ret by reflexivity.
    by rewrite (update_desc_run _ _ d) by exact Hd.
  - erewrite (bind_Ret _ _ (advanced w) tt).
    2:{ erewrite bind_Ret by (by apply page_at_run). reflexivity. }
    erewrite bind_Ret; [reflexivity|]. apply catch_Ret.
    erewrite bind_Ret by reflexivity.
    by rewrite (update_desc_run _ _ d) by exact Hd.
  - apply bind_Undefined. apply bind_Undefined. unfold page_at.
    simpl bufPool. by rewrite Hpg.
  - rewrite (bind_Ret _ _ _ tt (advanced w)) by done.
    by rewrite (bind_Ret _ _ _ tt (advanced w)) by done.
  - by apply bind_Undefined.
Qed.

Lemma visit_step_total w : ∃ r w', visit_step w r w'.
Proof.
  destruct (decide (numBufs (mgr w) = 0)) as [HN|HN].
  { eexists _, _. by apply visit_no_frames. }
  destruct (nth_Z (bufDescTable (mgr w)) (clockHand (mgr (advanced w))))
    as [d|] eqn:Hd.
  2:{ eexists _, _. by apply visit_out_of_bounds. }
  destruct (valid d) eqn:Hv.
  2:{ eexists _, _. by eapply visit_invalid. }
  destruct (refbit d) eqn:Hr.
  { eexists _, _. by eapply visit_second_chance. }
  destruct (decide (0 < pinCnt d)) as [Hp|Hp].
  { eexists _, _. by eapply visit_pinned. }
  assert (pinCnt d ≤ 0) by lia.
  destruct (file d) as [f|] eqn:Hf, (dirty d) eqn:Hdi.
  - destruct (nth_Z (bufPool (mgr w)) (clockHand (mgr (advanced w))))
      as [pg|] eqn:Hpg.
    + eexists _, _. by eapply visit_evict_dirty.
    + eexists _, _. by eapply visit_evict_no_page.
  - eexists _, _. by eapply visit_evict_clean.
  - eexists _, _. by eapply visit_ownerless_dirty.
  - eexists _, _. by eapply visit_ownerless.
Qed.

Lemma visit_inv w r w' : visit w = (r, w') → visit_step w r w'.
Proof.
  intros Hrun. destruct (visit_step_total w) as (r0 & w0 & Hs).
  pose proof (visit_step_run _ _ _ Hs) as Hrun0.
  rewrite Hrun in Hrun0. by injection Hrun0 as -> ->.
Qed.

(** ** The body of the flush loop *)

Lemma flush_step_run f k w r w' :
  flush_step f k w r w' → flush_frame (Some f) k w = (r, w').
Proof.
  intros Hs. unfold flush_frame.
  destruct Hs as [Hd|d Hd Hf|d Hd Hf Hp|d Hd Hf Hp Hv|d Hd Hf Hp Hv Hdi
                 |d pg Hd Hf Hp Hv Hdi Hpg|d Hd Hf Hp Hv Hdi Hpg].
  { apply bind_Undefined. unfold desc_at. by rewrite Hd. }
  all: rewrite (bind_Ret _ _ _ d w) by (by apply desc_at_run).
  { by rewrite decide_False. }
  all: rewrite decide_True by done.
  { apply Z.ltb_lt in Hp. by rewrite Hp. }
  all: apply Z.ltb_ge in Hp; rewrite Hp, Hv; cbn [negb]; try done.
  all: rewrite Hdi, ?Hf.
  - rewrite (bind_Ret _ _ _ tt w) by done.
    erewrite bind_Ret by reflexivity.
    by rewrite (update_desc_run _ _ d) by exact Hd.
  - erewrite (bind_Ret _ _ w tt).
    2:{ erewrite bind_Ret by (by apply page_at_run).
        erewrite bind_Ret by reflexivity.
        by rewrite (update_desc_run _ _ d) by exact Hd. }
    erewrite bind_Ret by reflexivity.
    erewrite update_desc_run.
    2:{ cbn [mgr bufDescTable with_hash with_table]. by eapply nth_Z_insert_eq. }
    unfold release_frame, with_table, with_hash; cbn.
    by rewrite list_insert_insert_eq.
  - apply bind_Undefined. apply bind_Undefined. unfold page_at. by rewrite Hpg.
Qed.

Lemma flush_step_total f k w : ∃ r w', flush_step f k w r w'.
Proof.
  destruct (nth_Z (bufDescTable (mgr w)) k) as [d|] eqn:Hd.
  2:{ eexists _, _. by apply flush_out_of_bounds. }
  destruct (decide (file d = Some f)) as [Hf|Hf].
  2:{ eexists _, _. by eapply flush_other. }
  destruct (decide (0 < pinCnt d)) as [Hp|Hp].
  { eexists _, _. by eapply flush_pinned. }
  assert (pinCnt d ≤ 0) by lia.
  destruct (valid d) eqn:Hv.
  2:{ eexists _, _. by eapply flush_bad. }
  destruct (dirty d) eqn:Hdi.
  2:{ eexists _, _. by eapply flush_clean. }
  destruct (nth_Z (bufPool (mgr w)) k) as [pg|] eqn:Hpg.
  - eexists _, _. by eapply flush_dirty.
  - eexists _, _. by eapply flush_no_page.
Qed.

Lemma flush_frame_inv f k w r w' :
  flush_frame (Some f) k w = (r, w') → flush_step f k w r w'.
Proof.
  intros Hrun. destruct (flush_step_total f k w) as (r0 & w0 & Hs).
  pose proof (flush_step_run _ _ _ _ _ Hs) as Hrun0.
  rewrite Hrun in Hrun0. by injection Hrun0 as -> ->.
Qed.

Lemma flush_null_step_run k w r w' :
  flush_null_step k w r w' → flush_frame None k w = (r, w').
Proof.
  intros Hs. unfold flush_frame.
  destruct Hs as [Hd|d Hd Hf|d Hd Hf Hp|d Hd Hf Hp Hv|d Hd Hf Hp Hv Hdi
                 |d Hd Hf Hp Hv Hdi].
  { apply bind_Undefined. unfold desc_at. by rewrite Hd. }
  all: rewrite (bind_Ret _ _ _ d w) by (by apply desc_at_run).
  { by rewrite decide_False. }
  all: rewrite decide_True by done.
  { apply Z.ltb_lt in Hp. by rewrite Hp. }
  all: apply Z.ltb_ge in Hp; rewrite Hp, Hv; cbn [negb]; try done.
  all: rewrite Hdi.
  - rewrite (bind_Ret _ _ _ tt w) by done.
    erewrite bind_Ret by reflexivity.
    by rewrite (update_desc_run _ _ d) by exact Hd.
  - rewrite Hf. by apply bind_Undefined.
Qed.

Lemma flush_null_step_total k w : ∃ r w', flush_null_step k w r w'.
Proof.
  destruct (nth_Z (bufDescTable (mgr w)) k) as [d|] eqn:Hd.
  2:{ eexists _, _. by apply flush_null_out_of_bounds. }
  destruct (decide (file d = None)) as [Hf|Hf].
  2:{ eexists _, _. by eapply flush_null_other. }
  destruct (decide (0 < pinCnt d)) as [Hp|Hp].
  { eexists _, _. by eapply flush_null_pinned. }
  assert (pinCnt d ≤ 0) by lia.
  destruct (valid d) eqn:Hv.
  2:{ eexists _, _. by eapply flush_null_bad. }
  destruct (dirty d) eqn:Hdi.
  - eexists _, _. by eapply flush_null_dirty.
  - eexists _, _. by eapply flush_null_clean.
Qed.

Lemma flush_frame_null_inv k w r w' :
  flush_frame None k w = (r, w') → flush_null_step k w r w'.
Proof.
  intros Hrun. destruct (flush_null_step_total k w) as (r0 & w0 & Hs).
  pose proof (flush_null_step_run _ _ _ _ Hs) as Hrun0.
  rewrite Hrun in Hrun0. by injection Hrun0 as -> ->.
Qed.

(** ** Induction over the sweep *)

Lemma sweep_ind_step (P : World → outcome (option FrameId) → World → Prop) :
  (∀ w, P w (Ret None) w) →
  (∀ w fr w1, visit_step w (Ret (Some fr)) w1 → P w (Ret (Some fr)) w1) →
  (∀ w w1, visit_step w Undefined w1 → P w Undefined w1) →
  (∀ w w1 r w2, visit_step w (Ret None) w1 → P w1 r w2 → P w r w2) →
  ∀ n w r w', sweep n w = (r, w') → P w r w'.
Proof.
  intros Hret Hsel Hundef Hnext n.
  induction n as [|n IH]; intros w r w' Hrun.
  - injection Hrun as <- <-. apply Hret.
  - cbn [sweep] in Hrun. unfold bind in Hrun.
    destruct (visit w) as [r1 w1] eqn:Hv. apply visit_inv in Hv.
    destruct r1 as [[fr|]|e| |].
    + injection Hrun as <- <-. by apply Hsel.
    + eapply Hnext; [done|]. by apply IH.
    + inversion Hv.
    + injection Hrun as <- <-. by apply Hundef.
    + inversion Hv.
Qed.

(** ** Pointwise relations between descriptor tables *)

Lemma Forall2_same {A} (R : A → A → Prop) (l : list A) :
  (∀ x, R x x) → Forall2 R l l.
Proof.
  intros HR. apply Forall2_same_length_lookup_2; [done|].
  intros j x y Hx Hy. rewrite Hx in Hy. injection Hy as <-. apply HR.
Qed.

Lemma Forall2_compose {A} (R : A → A → Prop) (l k q : list A) :
  (∀ x y z, R x y → R y z → R x z) →
  Forall2 R l k → Forall2 R k q → Forall2 R l q.
Proof.
  intros HR [Hlen1 H1]%Forall2_same_length_lookup
    [Hlen2 H2]%Forall2_same_length_lookup.
  apply Forall2_same_length_lookup_2; [congruence|].
  intros j x z Hx Hz.
  destruct (lookup_lt_is_Some_2 k j) as [y Hy].
  { rewrite <-Hlen1. by eapply lookup_lt_Some. }
  eauto.
Qed.

Lemma Forall2_update {A} (R : A → A → Prop) (l : list A) (j : nat) (x y : A) :
  (∀ x, R x x) → l !! j = Some x → R x y → Forall2 R l (<[j := y]> l).
Proof.
  intros HR Hx Hxy.
  rewrite <-(list_insert_id l j x) at 1 by done.
  apply Forall2_insert; [by apply Forall2_same|done].
Qed.

Lemma nth_Z_Forall2 {A} (R : A → A → Prop) (l k : list A) (i : Z) (x : A) :
  Forall2 R l k → nth_Z l i = Some x → ∃ y, nth_Z k i = Some y ∧ R x y.
Proof.
  intros HF [Hi Hx]%nth_Z_Some.
  destruct (Forall2_lookup_l _ _ _ _ _ HF Hx) as (y & Hy & Hxy).
  exists y. split; [|done]. by apply nth_Z_Some.
Qed.

Lemma swept_refl d : swept d d.
Proof. by left. Qed.

Lemma swept_trans d1 d2 d3 : swept d1 d2 → swept d2 d3 → swept d1 d3.
Proof.
  unfold swept.
  intros [-> |[-> |(Hv & Hp & ->)]] [-> |[-> |(Hv' & Hp' & ->)]]; auto.
  all: try discriminate Hv'.
  all: right; right; by destruct d1.
Qed.

Lemma second_chance_trans d1 d2 d3 :
  second_chance d1 d2 → second_chance d2 d3 → second_chance d1 d3.
Proof.
  unfold second_chance. intros [-> | ->] [-> | ->]; auto.
Qed.

Lemma sweeps_to_refl m : sweeps_to m m.
Proof.
  repeat split; [done|]. apply Forall2_same, swept_refl.
Qed.

Lemma sweeps_to_trans m1 m2 m3 :
  sweeps_to m1 m2 → sweeps_to m2 m3 → sweeps_to m1 m3.
Proof.
  intros (HN1 & Hp1 & Hh1 & Ht1) (HN2 & Hp2 & Hh2 & Ht2).
  repeat split; [congruence|congruence|by etrans|].
  eapply Forall2_compose; [apply swept_trans|done..].
Qed.

(** ** Keeping the invariant *)

Lemma Inv_ext m m' :
  bufDescTable m' = bufDescTable m → hashTable m' = hashTable m →
  Inv m → Inv m'.
Proof.
  intros Ht Hh (Hd & Ho & Hi).
  unfold Inv, desc_inv, owner_inv, index_inv. rewrite Ht, Hh. done.
Qed.

Lemma Inv_update m i d d' :
  Inv m →
  nth_Z (bufDescTable m) i = Some d →
  valid d' = valid d → file d' = file d → pageNo d' = pageNo d →
  (valid d = false → pinCnt d' = 0 ∧ dirty d' = false) →
  Inv (with_table (<[Z.to_nat i := d']> (bufDescTable m)) m).
Proof.
  intros (Hd & Ho & Hi) [Hi0 Hlk]%nth_Z_Some Hv Hf Hp Hc.
  split; [|split].
  - intros j x [(<- & <- & _)|[_ Hx]]%list_lookup_insert_Some; [|by eapply Hd].
    intros Hx. rewrite Hv in Hx. destruct (Hd _ _ Hlk Hx) as (_ & _ & Hnone).
    destruct (Hc Hx). by rewrite Hf.
  - intros j x [(<- & <- & _)|[_ Hx]]%list_lookup_insert_Some; [|by eapply Ho].
    rewrite Hv, Hf. by eapply Ho.
  - intros f p fr Hfr. destruct (Hi _ _ _ Hfr) as (x & Hx & Hxv & Hxf & Hxp).
    cbn [bufDescTable with_table].
    destruct (decide (i = fr)) as [->|Hne].
    + exists d'. rewrite (nth_Z_insert_eq _ _ _ _ Hx).
      apply nth_Z_Some in Hx as [_ Hx]. rewrite Hlk in Hx. injection Hx as ->.
      split; [done|]. split; [congruence|]. split; congruence.
    + exists x. by rewrite nth_Z_insert_ne.
Qed.

Lemma Inv_release m k d f :
  Inv m →
  nth_Z (bufDescTable m) k = Some d → file d = Some f →
  Inv (release_frame k d f m).
Proof.
  intros (Hd & Ho & Hi) [Hk0 Hlk]%nth_Z_Some Hf.
  split; [|split].
  - intros j x [(<- & <- & _)|[_ Hx]]%list_lookup_insert_Some; [|by eapply Hd].
    by intros _.
  - intros j x [(<- & <- & _)|[_ Hx]]%list_lookup_insert_Some; [|by eapply Ho].
    discriminate.
  - intros f' p' fr Hfr. cbn [release_frame hashTable with_table with_hash] in Hfr.
    apply lookup_delete_Some in Hfr as [Hne Hfr].
    destruct (Hi _ _ _ Hfr) as (x & Hx & Hxv & Hxf & Hxp).
    exists x. cbn [release_frame bufDescTable with_table].
    rewrite nth_Z_insert_ne; [done..|].
    intros <-. apply nth_Z_Some in Hx as [_ Hx].
    rewrite Hlk in Hx. injection Hx as ->. congruence.
Qed.

Lemma Inv_install m k d f p :
  Inv m →
  nth_Z (bufDescTable m) k = Some d → valid d = false →
  hashTable m !! (f, p) = None →
  Inv (with_table (<[Z.to_nat k := BufDesc_Set f p d]> (bufDescTable m))
         (with_hash (<[(f, p) := k]> (hashTable m)) m)).
Proof.
  intros (Hd & Ho & Hi) Hk Hv Hnone.
  pose proof Hk as [Hk0 Hlk]%nth_Z_Some.
  split; [|split].
  - intros j x [(<- & <- & _)|[_ Hx]]%list_lookup_insert_Some; [|by eapply Hd].
    discriminate.
  - intros j x [(<- & <- & _)|[_ Hx]]%list_lookup_insert_Some; [|by eapply Ho].
    by intros _.
  - intros f' p' fr Hfr. cbn [hashTable with_table with_hash] in Hfr.
    apply lookup_insert_Some in Hfr as [[[= <- <-] <-]|[Hne Hfr]].
    + exists (BufDesc_Set f p d). cbn [bufDescTable with_table with_hash].
      by rewrite (nth_Z_insert_eq _ _ _ _ Hk).
    + destruct (Hi _ _ _ Hfr) as (x & Hx & Hxv & Hxf & Hxp).
      exists x. cbn [bufDescTable with_table with_hash].
      rewrite nth_Z_insert_ne; [done..|].
      intros <-. rewrite Hk in Hx. injection Hx as ->. congruence.
Qed.

(** ** What a sweep keeps *)

Lemma visit_step_sweeps_to w r w' :
  visit_step w r w' → sweeps_to (mgr w) (mgr w').
Proof.
  destruct 1 as [HN|HN Hd|d HN Hd Hv|d HN Hd Hv Hr|d HN Hd Hv Hr Hp
                |d f HN Hd Hv Hr Hp Hdi Hf|d f pg HN Hd Hv Hr Hp Hdi Hf Hpg
                |d f HN Hd Hv Hr Hp Hdi Hf Hpg|d HN Hd Hv Hr Hp Hdi Hf
                |d HN Hd Hv Hr Hp Hdi Hf];
    try apply sweeps_to_refl.
  all: repeat split; try done; cbn.
  all: try apply delete_subseteq.
  all: try (apply Forall2_same, swept_refl).
  all: apply nth_Z_Some in Hd as [_ Hd];
    eapply Forall2_update; [apply swept_refl|exact Hd|].
  - right. by left.
  - right. by right.
  - right. by right.
Qed.

Lemma visit_step_Inv w r w' :
  visit_step w r w' → Inv (mgr w) → Inv (mgr w').
Proof.
  destruct 1 as [HN|HN Hd|d HN Hd Hv|d HN Hd Hv Hr|d HN Hd Hv Hr Hp
                |d f HN Hd Hv Hr Hp Hdi Hf|d f pg HN Hd Hv Hr Hp Hdi Hf Hpg
                |d f HN Hd Hv Hr Hp Hdi Hf Hpg|d HN Hd Hv Hr Hp Hdi Hf
                |d HN Hd Hv Hr Hp Hdi Hf];
    intros HI; try done.
  - eapply (Inv_ext (with_table _ (mgr w))); [done..|].
    eapply Inv_update; [done..|]. intros; congruence.
  - eapply (Inv_ext (release_frame _ d f (mgr w))); [done..|].
    by apply Inv_release.
  - eapply (Inv_ext (release_frame _ d f (mgr w))); [done..|].
    by apply Inv_release.
Qed.

Lemma visit_step_victim w fr w' :
  visit_step w (Ret (Some fr)) w' → owner_inv (mgr w) →
  ∃ d', nth_Z (bufDescTable (mgr w')) fr = Some d' ∧ valid d' = false.
Proof.
  inversion 1 as [| |d HN Hd Hv| | |d f HN Hd Hv Hr Hp Hdi Hf
                 |d f pg HN Hd Hv Hr Hp Hdi Hf Hpg| |d HN Hd Hv Hr Hp Hdi Hf|];
    intros Ho; subst.
  - by exists d.
  - exists (BufDesc_Clear d). split; [|done].
    cbn. by eapply nth_Z_insert_eq.
  - exists (BufDesc_Clear d). split; [|done].
    cbn. by eapply nth_Z_insert_eq.
  - apply nth_Z_Some in Hd as [_ Hd].
    destruct (Ho _ _ Hd Hv) as [f Hf']. congruence.
Qed.

Lemma sweep_Inv n w r w' :
  sweep n w = (r, w') → Inv (mgr w) →
  Inv (mgr w') ∧ sweeps_to (mgr w) (mgr w') ∧
  ∀ fr, r = Ret (Some fr) →
    ∃ d', nth_Z (bufDescTable (mgr w')) fr = Some d' ∧ valid d' = false.
Proof.
  revert n w r w'.
  apply (sweep_ind_step (λ w r w',
    Inv (mgr w) →
    Inv (mgr w') ∧ sweeps_to (mgr w) (mgr w') ∧
    ∀ fr, r = Ret (Some fr) →
      ∃ d', nth_Z (bufDescTable (mgr w')) fr = Some d' ∧ valid d' = false)).
  - intros w HI. split; [done|]. split; [apply sweeps_to_refl|done].
  - intros w fr w1 Hs HI. split; [by eapply visit_step_Inv|].
    split; [by eapply visit_step_sweeps_to|].
    intros ? [= <-]. eapply visit_step_victim; [done|]. apply HI.
  - intros w w1 Hs HI. split; [by eapply visit_step_Inv|].
    split; [by eapply visit_step_sweeps_to|done].
  - intros w w1 r w2 Hs IH HI.
    destruct IH as (HI2 & Hsw & Hvic); [by eapply visit_step_Inv|].
    split; [done|]. split; [|done].
    eapply sweeps_to_trans; [by eapply visit_step_sweeps_to|done].
Qed.

(** ** Victim selection keeps the invariant *)

Lemma scan_unpinned_inv n i w r w' :
  scan_unpinned n i w = (r, w') →
  w' = w ∧ (r = Undefined ∨ ∃ b, r = Ret b).
Proof.
  revert i. induction n as [|n IH]; intros i; cbn [scan_unpinned].
  - intros [= <- <-]. split; [done|]. right. by exists false.
  - unfold bind, desc_at. destruct (nth_Z _ i) as [d|].
    + case_decide.
      * intros [= <- <-]. split; [done|]. right. by exists true.
      * apply IH.
    + intros [= <- <-]. split; [done|]. by left.
Qed.

Lemma sweep_no_throw n w r w' :
  sweep n w = (r, w') → (∀ e, r ≠ Throw e) ∧ r ≠ OutOfFuel.
Proof.
  revert n w r w'.
  apply (sweep_ind_step (λ _ r _, (∀ e, r ≠ Throw e) ∧ r ≠ OutOfFuel)); try done.
Qed.

Lemma allocBuf_loop_Inv fuel w r w' :
  allocBuf_loop fuel w = (r, w') → Inv (mgr w) →
  Inv (mgr w') ∧ sweeps_to (mgr w) (mgr w') ∧
  (∀ fr, r = Ret fr →
     ∃ d', nth_Z (bufDescTable (mgr w')) fr = Some d' ∧ valid d' = false) ∧
  (∀ e, r = Throw e → e = BufferExceededException).
Proof.
  revert w r w'. induction fuel as [|fuel IH]; intros w r w'; cbn [allocBuf_loop].
  { intros [= <- <-] HI. split; [done|]. split; [apply sweeps_to_refl|done]. }
  unfold bind at 1, gets at 1. case_decide.
  { intros [= <- <-] HI. split; [done|]. split; [apply sweeps_to_refl|done]. }
  unfold bind at 1.
  destruct (sweep _ w) as [r1 w1] eqn:Hsw. intros Hrun HI.
  destruct (sweep_Inv _ _ _ _ Hsw HI) as (HI1 & Hto1 & Hvic).
  destruct (sweep_no_throw _ _ _ _ Hsw) as [Hnt Hnf].
  destruct r1 as [[fr|]|e| |]; [| |by destruct (Hnt e)| |done].
  - injection Hrun as <- <-. split; [done|]. split; [done|]. split; [|done].
    intros ? [= <-]. by apply Hvic.
  - unfold bind in Hrun.
    destruct (scan_unpinned _ 0 w1) as [r2 w2] eqn:Hsc.
    destruct (scan_unpinned_inv _ _ _ _ _ Hsc) as [-> [-> |[b ->]]].
    { injection Hrun as <- <-. by split; [|split]. }
    destruct b.
    + destruct (IH _ _ _ Hrun HI1) as (HI' & Hto' & Hrest).
      split; [done|]. split; [by eapply sweeps_to_trans|done].
    + injection Hrun as <- <-. split; [done|]. split; [done|]. split; [done|].
      by intros ? [= <-].
  - injection Hrun as <- <-. by split; [|split].
Qed.

Lemma sweep_sweeps_to n w r w' :
  sweep n w = (r, w') → sweeps_to (mgr w) (mgr w').
Proof.
  revert n w r w'.
  apply (sweep_ind_step (λ w _ w', sweeps_to (mgr w) (mgr w'))).
  - intros w. apply sweeps_to_refl.
  - intros w fr w1 Hs. by eapply visit_step_sweeps_to.
  - intros w w1 Hs. by eapply visit_step_sweeps_to.
  - intros w w1 r w2 Hs IH.
    eapply sweeps_to_trans; [by eapply visit_step_sweeps_to|done].
Qed.

Lemma allocBuf_loop_sweeps_to fuel w r w' :
  allocBuf_loop fuel w = (r, w') → sweeps_to (mgr w) (mgr w').
Proof.
  revert w r w'. induction fuel as [|fuel IH]; intros w r w'; cbn [allocBuf_loop].
  { intros [= <- <-]. apply sweeps_to_refl. }
  unfold bind at 1, gets at 1. case_decide.
  { intros [= <- <-]. apply sweeps_to_refl. }
  unfold bind at 1.
  destruct (sweep _ w) as [r1 w1] eqn:Hsw. intros Hrun.
  pose proof (sweep_sweeps_to _ _ _ _ Hsw) as Hto1.
  destruct r1 as [[fr|]|e| |]; try by injection Hrun as <- <-.
  unfold bind in Hrun.
  destruct (scan_unpinned _ 0 w1) as [r2 w2] eqn:Hsc.
  destruct (scan_unpinned_inv _ _ _ _ _ Hsc) as [-> [-> |[b ->]]].
  { by injection Hrun as <- <-. }
  destruct b.
  - eapply sweeps_to_trans; [done|]. by eapply IH.
  - by injection Hrun as <- <-.
Qed.

(** ** The operations in closed form *)

Lemma readPage_unfold f p w :
  readPage f p w =
  match hashTable (mgr w) !! (f, p) with
  | Some fr =>
      match nth_Z (bufDescTable (mgr w)) fr with
      | Some d =>
          (Ret fr,
           mkWorld
             (with_table
                (<[Z.to_nat fr := with_refbit true (with_pinCnt (pinCnt d + 1) d)]>
                   (bufDescTable (mgr w))) (mgr w))
             (io w))
      | None => (Undefined, w)
      end
  | None =>
      match readPage_reply (io w) f p with
      | None => (Throw InvalidPageException, mkWorld (mgr w) (FReadPage f p :: io w))
      | Some pg =>
          match allocBuf (mkWorld (mgr w) (FReadPage f p :: io w)) with
          | (Ret fr, w2) =>
              match nth_Z (bufPool (mgr w2)) fr with
              | None => (Undefined, w2)
              | Some _ =>
                  let w3 := mkWorld (with_pool (<[Z.to_nat fr := pg]> (bufPool (mgr w2)))
                                       (mgr w2)) (io w2) in
                  match hashTable (mgr w2) !! (f, p) with
                  | Some _ => (Throw HashAlreadyPresentException, w3)
                  | None =>
                      match nth_Z (bufDescTable (mgr w2)) fr with
                      | None =>
                          (Undefined,
                           mkWorld (with_hash (<[(f, p) := fr]> (hashTable (mgr w2)))
                                      (mgr w3)) (io w2))
                      | Some d2 =>
                          (Ret fr, mkWorld (install_page fr f p pg d2 (mgr w2)) (io w2))
                      end
                  end
              end
          | (Throw e, w2) => (Throw e, w2)
          | (Undefined, w2) => (Undefined, w2)
          | (OutOfFuel, w2) => (OutOfFuel, w2)
          end
      end
  end.
Proof.
  unfold readPage. mred.
  destruct (hashTable (mgr w) !! (f, p)) as [fr|] eqn:Hh; mnext.
  - destruct (nth_Z (bufDescTable (mgr w)) fr) as [d|] eqn:Hd; mnext; [|done].
    rewrite (nth_Z_insert_eq _ _ _ _ Hd). mnext.
    by rewrite list_insert_insert_eq.
  - destruct (readPage_reply (io w) f p) as [pg|]; mnext; [|done].
    destruct (allocBuf _) as [[fr|e| |] w2]; mnext; try done.
    destruct (nth_Z (bufPool (mgr w2)) fr) as [pg0|]; mnext; [|done].
    destruct (hashTable (mgr w2) !! (f, p)) as [fr0|]; mnext; [done|].
    destruct (nth_Z (bufDescTable (mgr w2)) fr) as [d2|] eqn:Hd2; mnext; [|done].
    rewrite (nth_Z_insert_eq _ _ _ _ Hd2). mnext.
    unfold install_page. mnext. by rewrite list_insert_insert_eq.
Qed.

Lemma allocPage_unfold f w :
  allocPage f w =
  let newPageId := page_number (allocatePage_reply (io w) f) in
  match allocBuf (mkWorld (mgr w) (FAllocatePage f :: io w)) with
  | (Ret fr, w2) =>
      let log := FReadPage f newPageId :: io w2 in
      match readPage_reply (io w2) f newPageId with
      | None => (Throw InvalidPageException, mkWorld (mgr w2) log)
      | Some pg =>
          match nth_Z (bufPool (mgr w2)) fr with
          | None => (Undefined, mkWorld (mgr w2) log)
          | Some _ =>
              let m3 := with_pool (<[Z.to_nat fr := pg]> (bufPool (mgr w2))) (mgr w2) in
              match hashTable (mgr w2) !! (f, newPageId) with
              | Some _ => (Throw HashAlreadyPresentException, mkWorld m3 log)
              | None =>
                  match nth_Z (bufDescTable (mgr w2)) fr with
                  | None =>
                      (Undefined,
                       mkWorld (with_hash (<[(f, newPageId) := fr]> (hashTable (mgr w2))) m3)
                               log)
                  | Some d2 =>
                      (Ret (newPageId, fr),
                       mkWorld (install_page fr f newPageId pg d2 (mgr w2)) log)
                  end
              end
          end
      end
  | (Throw e, w2) => (Throw e, w2)
  | (Undefined, w2) => (Undefined, w2)
  | (OutOfFuel, w2) => (OutOfFuel, w2)
  end.
Proof.
  unfold allocPage. mred.
  destruct (allocBuf _) as [[fr|e| |] w2]; mnext; try done.
  destruct (readPage_reply (io w2) f _) as [pg|]; mnext; [|done].
  destruct (nth_Z (bufPool (mgr w2)) fr) as [pg0|]; mnext; [|done].
  destruct (hashTable (mgr w2) !! (f, _)) as [fr0|]; mnext; [done|].
  by destruct (nth_Z (bufDescTable (mgr w2)) fr) as [d2|] eqn:Hd2; mnext.
Qed.

Lemma disposePage_unfold f p w :
  disposePage f p w =
  match hashTable (mgr w) !! (f, p) with
  | Some fr =>
      match nth_Z (bufDescTable (mgr w)) fr with
      | Some d =>
          (Ret tt,
           mkWorld
             (with_hash (delete (f, p) (hashTable (mgr w)))
                (with_table (<[Z.to_nat fr := BufDesc_Clear d]> (bufDescTable (mgr w)))
                   (mgr w)))
             (FDeletePage f p :: io w))
      | None => (Undefined, w)
      end
  | None => (Ret tt, mkWorld (mgr w) (FDeletePage f p :: io w))
  end.
Proof.
  unfold disposePage. mred.
  destruct (hashTable (mgr w) !! (f, p)) as [fr|] eqn:Hh; mnext; [|done].
  by destruct (nth_Z (bufDescTable (mgr w)) fr) as [d|] eqn:Hd; mnext.
Qed.

Lemma unPinPage_unfold f p b w :
  unPinPage f p b w =
  match hashTable (mgr w) !! (f, p) with
  | Some fr =>
      match nth_Z (bufDescTable (mgr w)) fr with
      | Some d =>
          if decide (pinCnt d = 0) then
            (Throw (PageNotPinnedException (filename f) p fr), w)
          else
            (Ret tt,
             mkWorld (with_table
                        (<[Z.to_nat fr :=
                             mkBufDesc (file d) (pageNo d) (frameNo d) (pinCnt d - 1)
                               (b || dirty d) (valid d) (refbit d)]>
                           (bufDescTable (mgr w))) (mgr w)) (io w))
      | None => (Undefined, w)
      end
  | None => (Ret tt, w)
  end.
Proof.
  destruct (hashTable (mgr w) !! (f, p)) as [fr|] eqn:Hh.
  2:{ by apply unPinPage_miss. }
  destruct (nth_Z (bufDescTable (mgr w)) fr) as [d|] eqn:Hd.
  - case_decide.
    + by eapply unPinPage_not_pinned.
    + by eapply unPinPage_pinned.
  - unfold unPinPage. mred. rewrite Hh. mnext. by rewrite Hd.
Qed.

(** ** Every operation keeps the invariant *)

Lemma Inv_install_page m fr d f p pg :
  Inv m →
  nth_Z (bufDescTable m) fr = Some d → valid d = false →
  hashTable m !! (f, p) = None →
  Inv (install_page fr f p pg d m).
Proof.
  intros HI Hd Hv Hh.
  eapply Inv_ext; [| |by eapply (Inv_install m fr d f p)]; done.
Qed.

Lemma readPage_Inv f p w r w' :
  readPage f p w = (r, w') → completes r → Inv (mgr w) → Inv (mgr w').
Proof.
  rewrite readPage_unfold. intros Hrun Hc HI.
  destruct (hashTable (mgr w) !! (f, p)) as [fr|] eqn:Hh.
  - destruct (proj2 (proj2 HI) _ _ _ Hh) as (d & Hd & Hv & _).
    rewrite Hd in Hrun. injection Hrun as <- <-.
    eapply Inv_update; [done..|]. intros; congruence.
  - destruct (readPage_reply (io w) f p) as [pg|].
    2:{ by injection Hrun as <- <-. }
    destruct (allocBuf _) as [r1 w2] eqn:Ha.
    destruct (allocBuf_loop_Inv _ _ _ _ Ha HI) as (HI2 & Hto & Hvic & _).
    destruct r1 as [fr|e| |]; try by injection Hrun as <- <-.
    destruct (Hvic _ eq_refl) as (d2 & Hd2 & Hv2).
    destruct (nth_Z (bufPool (mgr w2)) fr); [|by injection Hrun as <- <-].
    cbv zeta in Hrun.
    destruct (hashTable (mgr w2) !! (f, p)) eqn:Hh2.
    { injection Hrun as <- <-. by eapply Inv_ext. }
    rewrite Hd2 in Hrun. injection Hrun as <- <-.
    by apply Inv_install_page.
Qed.

Lemma allocPage_Inv f w r w' :
  allocPage f w = (r, w') → completes r → Inv (mgr w) → Inv (mgr w').
Proof.
  rewrite allocPage_unfold. cbv zeta. intros Hrun Hc HI.
  destruct (allocBuf _) as [r1 w2] eqn:Ha.
  destruct (allocBuf_loop_Inv _ _ _ _ Ha HI) as (HI2 & Hto & Hvic & _).
  destruct r1 as [fr|e| |]; try by injection Hrun as <- <-.
  destruct (Hvic _ eq_refl) as (d2 & Hd2 & Hv2).
  destruct (readPage_reply (io w2) f _) as [pg|]; [|by injection Hrun as <- <-].
  destruct (nth_Z (bufPool (mgr w2)) fr); [|by injection Hrun as <- <-].
  destruct (hashTable (mgr w2) !! (f, _)) eqn:Hh2.
  { injection Hrun as <- <-. by eapply Inv_ext. }
  rewrite Hd2 in Hrun. injection Hrun as <- <-.
  by apply Inv_install_page.
Qed.

Lemma unPinPage_Inv f p b w r w' :
  unPinPage f p b w = (r, w') → completes r → Inv (mgr w) → Inv (mgr w').
Proof.
  rewrite unPinPage_unfold. intros Hrun Hc HI.
  destruct (hashTable (mgr w) !! (f, p)) as [fr|] eqn:Hh.
  2:{ by injection Hrun as <- <-. }
  destruct (proj2 (proj2 HI) _ _ _ Hh) as (d & Hd & Hv & _).
  rewrite Hd in Hrun. case_decide; injection Hrun as <- <-; [done|].
  eapply Inv_update; [done..|]. intros; congruence.
Qed.

Lemma disposePage_Inv f p w r w' :
  disposePage f p w = (r, w') → completes r → Inv (mgr w) → Inv (mgr w').
Proof.
  rewrite disposePage_unfold. intros Hrun Hc HI.
  destruct (hashTable (mgr w) !! (f, p)) as [fr|] eqn:Hh.
  2:{ by injection Hrun as <- <-. }
  destruct (proj2 (proj2 HI) _ _ _ Hh) as (d & Hd & Hv & Hf & Hp).
  rewrite Hd in Hrun. injection Hrun as <- <-.
  eapply (Inv_ext (release_frame fr d f (mgr w))); [done| |by apply Inv_release].
  cbn. by rewrite Hp.
Qed.

(** ** flushFile with a null pointer *)

(** The null pointer matches the frames without owning file.  Where every
    valid frame has an owning file and every invalid frame is unpinned and
    clean the loop changes nothing: it passes the owned frames and throws at
    the first invalid one. *)
Lemma flushFile_from_null_inert (n : nat) k w r w' :
  flushFile_from None n k w = (r, w') →
  desc_inv (mgr w) → owner_inv (mgr w) →
  w' = w ∧ r ≠ OutOfFuel ∧
  (r = Undefined → ∃ j, k ≤ j < k + Z.of_nat n ∧ nth_Z (bufDescTable (mgr w)) j = None).
Proof.
  revert k. induction n as [|n IH]; intros k; cbn [flushFile_from].
  { intros [= <- <-] _ _. by split; [|split]. }
  unfold bind. destruct (flush_frame None k w) as [r1 w1] eqn:Hf.
  apply flush_frame_null_inv in Hf. intros Hrun Hdi Ho.
  destruct Hf as [Hd|d Hd Hf|d Hd Hf Hp|d Hd Hf Hp Hv|d Hd Hf Hp Hv Hdy
                 |d Hd Hf Hp Hv Hdy].
  - injection Hrun as <- <-. split; [done|]. split; [done|].
    intros _. exists k. split; [lia|done].
  - destruct (IH _ Hrun Hdi Ho) as (-> & Hnf & Hu). split; [done|]. split; [done|].
    intros Hr. destruct (Hu Hr) as (j & Hj & Hnone). exists j. split; [lia|done].
  - apply nth_Z_Some in Hd as [_ Hd]. destruct (valid d) eqn:Hv.
    + destruct (Ho _ _ Hd Hv) as [g Hg]. congruence.
    + destruct (Hdi _ _ Hd Hv) as (Hz & _). lia.
  - injection Hrun as <- <-. by split; [|split].
  - apply nth_Z_Some in Hd as [_ Hd]. destruct (Ho _ _ Hd Hv) as [g Hg]. congruence.
  - apply nth_Z_Some in Hd as [_ Hd]. destruct (Ho _ _ Hd Hv) as [g Hg]. congruence.
Qed.

(** In any state at all, the loop with a null pointer makes no file call,
    leaves the index alone and clears at most frames that are valid and not
    pinned. *)
Lemma flushFile_from_null_sweeps_to (n : nat) k w r w' :
  flushFile_from None n k w = (r, w') →
  sweeps_to (mgr w) (mgr w') ∧ io w' = io w.
Proof.
  revert k w. induction n as [|n IH]; intros k w; cbn [flushFile_from].
  { intros [= <- <-]. split; [apply sweeps_to_refl|done]. }
  unfold bind. destruct (flush_frame None k w) as [r1 w1] eqn:Hf.
  apply flush_frame_null_inv in Hf. intros Hrun.
  assert (sweeps_to (mgr w) (mgr w1) ∧ io w1 = io w) as [Hto Hio].
  { destruct Hf as [Hd|d Hd Hf|d Hd Hf Hp|d Hd Hf Hp Hv|d Hd Hf Hp Hv Hdy
                   |d Hd Hf Hp Hv Hdy];
      try (split; [apply sweeps_to_refl|done]).
    split; [|done]. repeat split; try done. cbn.
    apply nth_Z_Some in Hd as [_ Hd].
    eapply Forall2_update; [apply swept_refl|exact Hd|]. right. by right. }
  destruct r1 as [[]|e| |]; try (injection Hrun as <- <-; by split).
  destruct (IH _ _ Hrun) as [Hto2 Hio2]. split; [|congruence].
  by eapply sweeps_to_trans.
Qed.

(** With a null pointer, flushFile throws BadBufferException at the first
    invalid frame, and returns when there is none. *)
Lemma flushFile_from_null_bad (n : nat) i w k d :
  desc_inv (mgr w) → owner_inv (mgr w) →
  i ≤ k < i + Z.of_nat n →
  nth_Z (bufDescTable (mgr w)) k = Some d → valid d = false →
  (∀ j, i ≤ j < k → ∃ x, nth_Z (bufDescTable (mgr w)) j = Some x ∧ valid x = true) →
  flushFile_from None n i w =
    (Throw (BadBufferException k (dirty d) (valid d) (refbit d)), w).
Proof.
  intros Hdi Ho. revert i. induction n as [|n IH]; intros i Hk Hd Hv Hbefore; [lia|].
  cbn [flushFile_from]. destruct (decide (i = k)) as [->|Hne].
  - erewrite bind_Throw; [done|]. apply flush_null_step_run.
    pose proof Hd as [_ Hd']%nth_Z_Some.
    destruct (Hdi _ _ Hd' Hv) as (Hp & _ & Hnone).
    eapply flush_null_bad; [done..|lia|done].
  - destruct (Hbefore i ltac:(lia)) as (x & Hx & Hxv).
    pose proof Hx as [_ Hx']%nth_Z_Some. destruct (Ho _ _ Hx' Hxv) as [g Hg].
    rewrite (bind_Ret _ _ _ tt w).
    2:{ apply flush_null_step_run. eapply flush_null_other; [done|congruence]. }
    apply IH; [lia|done..|]. intros j Hj. apply Hbefore. lia.
Qed.

Lemma flushFile_from_null_valid (n : nat) i w :
  owner_inv (mgr w) →
  (∀ j, i ≤ j < i + Z.of_nat n →
     ∃ x, nth_Z (bufDescTable (mgr w)) j = Some x ∧ valid x = true) →
  flushFile_from None n i w = (Ret tt, w).
Proof.
  intros Ho. revert i. induction n as [|n IH]; intros i Hall; [done|].
  cbn [flushFile_from]. destruct (Hall i ltac:(lia)) as (x & Hx & Hxv).
  pose proof Hx as [_ Hx']%nth_Z_Some. destruct (Ho _ _ Hx' Hxv) as [g Hg].
  rewrite (bind_Ret _ _ _ tt w).
  2:{ apply flush_null_step_run. eapply flush_null_other; [done|congruence]. }
  apply IH. intros j Hj. apply Hall. lia.
Qed.

Lemma flush_step_Inv f k w r w' :
  flush_step f k w r w' → Inv (mgr w) → Inv (mgr w').
Proof.
  destruct 1; intros HI; try done; by apply Inv_release.
Qed.

Lemma flushFile_from_Inv f n k w r w' :
  flushFile_from (Some f) n k w = (r, w') → Inv (mgr w) → Inv (mgr w').
Proof.
  revert k w. induction n as [|n IH]; intros k w; cbn [flushFile_from].
  { by intros [= <- <-]. }
  unfold bind. destruct (flush_frame (Some f) k w) as [r1 w1] eqn:Hf.
  apply flush_frame_inv in Hf. intros Hrun HI.
  pose proof (flush_step_Inv _ _ _ _ _ Hf HI) as HI1.
  destruct r1; try by injection Hrun as <- <-.
  by eapply IH.
Qed.

Lemma flushFile_Inv (fileArg : option File) w r w' :
  flushFile fileArg w = (r, w') → Inv (mgr w) → Inv (mgr w').
Proof.
  unfold flushFile, bind, gets. destruct fileArg as [f|].
  - apply flushFile_from_Inv.
  - intros Hrun HI.
    by destruct (flushFile_from_null_inert _ _ _ _ _ Hrun (proj1 HI) (proj1 (proj2 HI)))
      as (-> & _).
Qed.

Lemma run_Inv o w :
  completes (fst (run o w)) → Inv (mgr w) → Inv (mgr (snd (run o w))).
Proof.
  destruct o as [f p|f p b|f|f p|f]; cbn [run]; unfold bind.
  - destruct (readPage f p w) as [r w'] eqn:Hrun.
    intros Hc HI. assert (Inv (mgr w')).
    { eapply readPage_Inv; [done| |done]. by destruct r. }
    by destruct r.
  - destruct (unPinPage f p b w) as [r w'] eqn:Hrun.
    intros Hc HI. by eapply unPinPage_Inv.
  - destruct (allocPage f w) as [r w'] eqn:Hrun.
    intros Hc HI. assert (Inv (mgr w')).
    { eapply allocPage_Inv; [done| |done]. by destruct r. }
    by destruct r.
  - destruct (disposePage f p w) as [r w'] eqn:Hrun.
    intros Hc HI. by eapply disposePage_Inv.
  - destruct (flushFile f w) as [r w'] eqn:Hrun.
    intros Hc HI. by eapply flushFile_Inv.
Qed.

Lemma BufMgr_new_Inv bufs : Inv (BufMgr_new bufs).
Proof.
  split; [|split].
  - intros j d Hd. cbn [BufMgr_new bufDescTable] in Hd.
    apply list_lookup_fmap_Some in Hd as (z & -> & _). by intros _.
  - intros j d Hd. cbn [BufMgr_new bufDescTable] in Hd.
    apply list_lookup_fmap_Some in Hd as (z & -> & _). discriminate.
  - intros f p fr Hfr. cbn in Hfr. by rewrite lookup_empty in Hfr.
Qed.

Lemma reachable_Inv w : reachable w → Inv (mgr w).
Proof.
  induction 1 as [bufs log _|o w _ IH Hc].
  - apply BufMgr_new_Inv.
  - by apply run_Inv.
Qed.

(** ** flushFile and the bad-buffer branch *)

Lemma desc_inv_release m k d f :
  desc_inv m → desc_inv (release_frame k d f m).
Proof.
  intros Hd j x [(<- & <- & _)|[_ Hx]]%list_lookup_insert_Some; [|by eapply Hd].
  by intros _.
Qed.

Lemma flushFile_from_no_bad_buffer f n k w r w' :
  flushFile_from (Some f) n k w = (r, w') → desc_inv (mgr w) →
  ∀ fr b1 b2 b3, r ≠ Throw (BadBufferException fr b1 b2 b3).
Proof.
  revert k w. induction n as [|n IH]; intros k w; cbn [flushFile_from].
  { by intros [= <- <-]. }
  unfold bind. destruct (flush_frame (Some f) k w) as [r1 w1] eqn:Hf.
  apply flush_frame_inv in Hf. intros Hrun HI.
  destruct Hf as [Hd|d Hd Hf|d Hd Hf Hp|d Hd Hf Hp Hv|d Hd Hf Hp Hv Hdi
                 |d pg Hd Hf Hp Hv Hdi Hpg|d Hd Hf Hp Hv Hdi Hpg];
    try by injection Hrun as <- <-.
  - by eapply IH.
  - apply nth_Z_Some in Hd as [_ Hd].
    destruct (HI _ _ Hd Hv) as (_ & _ & Hnone). congruence.
  - eapply IH; [done|]. by apply desc_inv_release.
  - eapply IH; [done|]. by apply desc_inv_release.
Qed.

(** ** The claims about single operations *)

(** C5. unPinPage: an index miss is a successful no-op; a hit on a frame
    whose pin count is 0 throws PageNotPinnedException naming the file, the
    page and the frame, and leaves the state as it was; otherwise the pin
    count drops by one and the dirty bit becomes [b || dirty]: set when the
    flag is true, never cleared. *)
Theorem unPinPage_spec f p b w :
  (hashTable (mgr w) !! (f, p) = None → unPinPage f p b w = (Ret tt, w)) ∧
  (∀ fr d,
     hashTable (mgr w) !! (f, p) = Some fr →
     nth_Z (bufDescTable (mgr w)) fr = Some d →
     (pinCnt d = 0 →
        unPinPage f p b w = (Throw (PageNotPinnedException (filename f) p fr), w)) ∧
     (pinCnt d ≠ 0 →
        unPinPage f p b w =
          (Ret tt,
           mkWorld (with_table
                      (<[Z.to_nat fr :=
                           mkBufDesc (file d) (pageNo d) (frameNo d) (pinCnt d - 1)
                             (b || dirty d) (valid d) (refbit d)]>
                         (bufDescTable (mgr w))) (mgr w)) (io w)))).
Proof.
  split; [apply unPinPage_miss|].
  intros fr d Hh Hd. split; intros Hp.
  - by eapply unPinPage_not_pinned.
  - by eapply unPinPage_pinned.
Qed.

(** C3. readPage of a resident page returns the mapped frame, adds one to
    its pin count, sets its reference bit and issues no file call.  Fetching
    the same page a second time right after a successful fetch returns the
    same frame, again without a file call, and leaves the frame with two
    pins more than the page had before the first fetch: 2 for a page that
    was not pinned. *)
Theorem readPage_resident f p w :
  (∀ fr d,
     hashTable (mgr w) !! (f, p) = Some fr →
     nth_Z (bufDescTable (mgr w)) fr = Some d →
     readPage f p w =
       (Ret fr,
        mkWorld
          (with_table
             (<[Z.to_nat fr :=
                  mkBufDesc (file d) (pageNo d) (frameNo d) (pinCnt d + 1)
                    (dirty d) (valid d) true]>
                (bufDescTable (mgr w))) (mgr w))
          (io w))) ∧
  (∀ fr w1,
     readPage f p w = (Ret fr, w1) →
     ∃ w2 d2,
       readPage f p w1 = (Ret fr, w2) ∧
       io w2 = io w1 ∧
       nth_Z (bufDescTable (mgr w2)) fr = Some d2 ∧
       pinCnt d2 = pins (mgr w) f p + 2).
Proof.
  split.
  - intros fr d Hh Hd. rewrite readPage_unfold, Hh, Hd. done.
  - intros fr w1 Hrun. rewrite readPage_unfold in Hrun. unfold pins.
    destruct (hashTable (mgr w) !! (f, p)) as [fr0|] eqn:Hh.
    + destruct (nth_Z (bufDescTable (mgr w)) fr0) as [d|] eqn:Hd; [|done].
      injection Hrun as <- <-. rewrite readPage_unfold. mnext.
      rewrite Hh, (nth_Z_insert_eq _ _ _ _ Hd).
      eexists _, _. split; [done|]. split; [done|]. mnext.
      split; [by eapply nth_Z_insert_eq, nth_Z_insert_eq|]. cbn. lia.
    + destruct (readPage_reply (io w) f p) as [pg|]; [|done].
      destruct (allocBuf _) as [[fr1|e| |] wa]; try done.
      destruct (nth_Z (bufPool (mgr wa)) fr1); [|done]. cbv zeta in Hrun.
      destruct (hashTable (mgr wa) !! (f, p)); [done|].
      destruct (nth_Z (bufDescTable (mgr wa)) fr1) as [da|] eqn:Hda; [|done].
      injection Hrun as <- <-. rewrite readPage_unfold.
      unfold install_page. mnext.
      rewrite lookup_insert_eq, (nth_Z_insert_eq _ _ _ _ Hda).
      eexists _, _. split; [done|]. split; [done|]. mnext.
      split; [by eapply nth_Z_insert_eq, nth_Z_insert_eq|]. done.
Qed.

(** C10. readPage of a page that is not resident and that the file cannot
    read throws the file's exception and leaves the manager as it was: no
    victim is selected, the hand does not move, the index is not touched.
    Only the log of file calls records the read. *)
Theorem readPage_missing_page f p w :
  hashTable (mgr w) !! (f, p) = None →
  readPage_reply (io w) f p = None →
  readPage f p w =
    (Throw InvalidPageException, mkWorld (mgr w) (FReadPage f p :: io w)).
Proof. intros Hh Hr. by rewrite readPage_unfold, Hh, Hr. Qed.

(** C7. Every invalid frame has pin count 0, is not dirty and has no owning
    file: this holds of the manager the constructor builds, and of the state
    before and after every public operation a client runs on a manager it
    reached. *)
Theorem invalid_frames_clean :
  (∀ bufs, desc_inv (BufMgr_new bufs)) ∧
  (∀ w o,
     reachable w → completes (fst (run o w)) →
     desc_inv (mgr w) ∧ desc_inv (mgr (snd (run o w)))).
Proof.
  split.
  - intros bufs. apply BufMgr_new_Inv.
  - intros w o Hr Hc. pose proof (reachable_Inv _ Hr) as HI.
    split; [apply HI|]. by apply run_Inv.
Qed.

(** ** The path of the clock hand *)

Lemma hand_step_range N c : 0 < N → 0 ≤ hand_step N c < N.
Proof. intros HN. unfold hand_step. by apply Z.mod_pos_bound. Qed.

Lemma hand_step_small N c :
  0 < N < INT32_MAX1 → 0 ≤ c < N → hand_step N c = (c + 1) mod N.
Proof.
  intros HN Hc. unfold hand_step. f_equal. apply Z.mod_small.
  unfold INT32_MAX1, UINT32_MOD in *. lia.
Qed.

Lemma hand_iter N c (j : nat) :
  0 < N < INT32_MAX1 → 0 ≤ c < N →
  Nat.iter j (hand_step N) c = (c + Z.of_nat j) mod N.
Proof.
  intros HN Hc. induction j as [|j IH].
  - cbn. rewrite Z.add_0_r. symmetry. by apply Z.mod_small.
  - rewrite Nat.iter_succ, IH.
    rewrite hand_step_small by (try done; apply Z.mod_pos_bound; lia).
    rewrite Z.add_mod_idemp_l by lia. f_equal. lia.
Qed.

Lemma hand_cover N c i :
  0 < N < INT32_MAX1 → 0 ≤ i < N →
  ∃ j : nat, (j < Z.to_nat N)%nat ∧ Nat.iter (S j) (hand_step N) c = i.
Proof.
  intros HN Hi.
  pose proof (hand_step_range N c ltac:(lia)) as Hc1.
  exists (Z.to_nat ((i - hand_step N c) mod N)).
  pose proof (Z.mod_pos_bound (i - hand_step N c) N ltac:(lia)) as Hb.
  split; [lia|].
  rewrite Nat.iter_succ_r, hand_iter by done.
  rewrite Z2Nat.id by lia. rewrite Z.add_mod_idemp_r by lia.
  replace (hand_step N c + (i - hand_step N c)) with i by lia.
  by apply Z.mod_small.
Qed.

Lemma hand_full_turn N c :
  0 < N < INT32_MAX1 → 0 ≤ c < N →
  Nat.iter (Z.to_nat N) (hand_step N) c = c.
Proof.
  intros HN Hc. rewrite hand_iter by done. rewrite Z2Nat.id by lia.
  rewrite <-(Z.mul_1_l N) at 1. rewrite Z.mod_add by lia. by apply Z.mod_small.
Qed.

(** ** A sweep that selects nothing *)

Lemma second_chance_fields d d' :
  second_chance d d' →
  file d' = file d ∧ pageNo d' = pageNo d ∧ frameNo d' = frameNo d ∧
  pinCnt d' = pinCnt d ∧ dirty d' = dirty d ∧ valid d' = valid d ∧
  (refbit d = false → refbit d' = false).
Proof. by intros [-> | ->]. Qed.

Lemma sweep_None n w w' :
  sweep n w = (Ret None, w') →
  numBufs (mgr w') = numBufs (mgr w) ∧
  bufPool (mgr w') = bufPool (mgr w) ∧
  hashTable (mgr w') = hashTable (mgr w) ∧
  io w' = io w ∧
  clockHand (mgr w') = Nat.iter n (hand_step (numBufs (mgr w))) (clockHand (mgr w)) ∧
  Forall2 second_chance (bufDescTable (mgr w)) (bufDescTable (mgr w')) ∧
  ∀ j : nat, (j < n)%nat →
    ∃ d d',
      nth_Z (bufDescTable (mgr w))
        (Nat.iter (S j) (hand_step (numBufs (mgr w))) (clockHand (mgr w))) = Some d ∧
      nth_Z (bufDescTable (mgr w'))
        (Nat.iter (S j) (hand_step (numBufs (mgr w))) (clockHand (mgr w))) = Some d' ∧
      valid d = true ∧ (refbit d = false → 0 < pinCnt d) ∧ refbit d' = false.
Proof.
  revert w. induction n as [|n IH]; intros w Hrun.
  { injection Hrun as <-. repeat split; try done; [|lia].
    apply Forall2_same. by left. }
  cbn [sweep] in Hrun. unfold bind in Hrun.
  destruct (visit w) as [r1 w1] eqn:Hv. apply visit_inv in Hv.
  destruct r1 as [[fr|]|e| |]; try discriminate Hrun.
  destruct (IH _ Hrun) as (HN & Hp & Hh & Hio & Hc & Ht & Hvis). clear IH Hrun.
  assert (numBufs (mgr w1) = numBufs (mgr w) ∧
          bufPool (mgr w1) = bufPool (mgr w) ∧
          hashTable (mgr w1) = hashTable (mgr w) ∧
          io w1 = io w ∧
          clockHand (mgr w1) = hand_step (numBufs (mgr w)) (clockHand (mgr w)) ∧
          Forall2 second_chance (bufDescTable (mgr w)) (bufDescTable (mgr w1)) ∧
          ∃ d d1,
            nth_Z (bufDescTable (mgr w)) (clockHand (mgr w1)) = Some d ∧
            nth_Z (bufDescTable (mgr w1)) (clockHand (mgr w1)) = Some d1 ∧
            valid d = true ∧ (refbit d = false → 0 < pinCnt d) ∧ refbit d1 = false)
    as (HN1 & Hp1 & Hh1 & Hio1 & Hc1 & Ht1 & d0 & d1 & Hd0 & Hd1 & Hv0 & Hr0 & Hr1).
  { inversion Hv as [| | |d HN0 Hd Hvd Hr|d HN0 Hd Hvd Hr Hpin| | | | |]; subst.
    - repeat split; try done.
      + cbn. apply nth_Z_Some in Hd as [_ Hd].
        eapply Forall2_update; [by left|done|by right].
      + exists d, (with_refbit false d). cbn.
        split; [done|]. split; [by eapply nth_Z_insert_eq|].
        split; [done|]. split; [congruence|done].
    - repeat split; try done.
      + apply Forall2_same. by left.
      + by exists d, d. }
  rewrite HN1, Hc1 in *.
  split; [congruence|]. split; [congruence|]. split; [congruence|].
  split; [congruence|]. split; [by rewrite Hc, Nat.iter_succ_r|].
  split.
  { eapply Forall2_compose; [apply second_chance_trans|done..]. }
  intros [|j] Hj.
  - change (Nat.iter 1 ?g ?x) with (g x).
    destruct (nth_Z_Forall2 _ _ _ _ _ Ht Hd1) as (d' & Hd' & Hsc).
    exists d0, d'. split; [done|]. split; [done|]. split; [done|]. split; [done|].
    by apply second_chance_fields in Hsc as (_ & _ & _ & _ & _ & _ & ->).
  - destruct (Hvis j ltac:(lia)) as (dj & dj' & Hdj & Hdj' & Hvj & Hrj & Hrj').
    rewrite <-Nat.iter_succ_r in Hdj, Hdj'.
    pose proof Hdj as [Hpos Hlk]%nth_Z_Some.
    destruct (Forall2_lookup_r _ _ _ _ _ Ht1 Hlk) as (dw & Hdw & Hsc).
    exists dw, dj'. split; [by apply nth_Z_Some|]. split; [done|].
    apply second_chance_fields in Hsc as (_ & _ & _ & Hpin & _ & Hval & Href).
    split; [congruence|]. split; [|done].
    intros Hr. rewrite <-Hpin. by apply Hrj, Href.
Qed.

(** ** The scan for an unpinned frame *)

Lemma scan_unpinned_true n i w w' :
  scan_unpinned n i w = (Ret true, w') →
  ∃ j d, i ≤ j < i + Z.of_nat n ∧
         nth_Z (bufDescTable (mgr w)) j = Some d ∧ pinCnt d = 0.
Proof.
  revert i. induction n as [|n IH]; intros i; cbn [scan_unpinned]; [done|].
  unfold bind, desc_at. destruct (nth_Z _ i) as [d|] eqn:Hd; [|done].
  case_decide as Hp.
  - intros _. exists i, d. split; [lia|done].
  - intros (j & dj & Hj & Hdj)%IH. exists j, dj. split; [lia|done].
Qed.

Lemma scan_unpinned_finds n i w j d :
  (∀ k, i ≤ k < i + Z.of_nat n → is_Some (nth_Z (bufDescTable (mgr w)) k)) →
  i ≤ j < i + Z.of_nat n →
  nth_Z (bufDescTable (mgr w)) j = Some d → pinCnt d = 0 →
  scan_unpinned n i w = (Ret true, w).
Proof.
  revert i. induction n as [|n IH]; intros i Hdef Hj Hd Hp; [lia|].
  cbn [scan_unpinned]. unfold bind, desc_at.
  destruct (Hdef i ltac:(lia)) as [di Hdi]. rewrite Hdi.
  case_decide as Hpi; [done|].
  apply IH; [intros k Hk; apply Hdef; lia| |done..].
  destruct (decide (j = i)) as [->|]; [|lia]. congruence.
Qed.

Lemma scan_unpinned_none n i w :
  (∀ k, i ≤ k < i + Z.of_nat n →
        ∃ d, nth_Z (bufDescTable (mgr w)) k = Some d ∧ pinCnt d ≠ 0) →
  scan_unpinned n i w = (Ret false, w).
Proof.
  revert i. induction n as [|n IH]; intros i Hall; [done|].
  cbn [scan_unpinned]. unfold bind, desc_at.
  destruct (Hall i ltac:(lia)) as (di & Hdi & Hpi). rewrite Hdi.
  rewrite decide_False by done. apply IH. intros k Hk. apply Hall. lia.
Qed.

(** ** Sweeps over a well-shaped pool *)

Lemma shape_hand_defined m c :
  shape m → is_Some (nth_Z (bufDescTable m) (hand_step (numBufs m) c)).
Proof.
  intros (HN & Ht & _). apply nth_Z_is_Some.
  pose proof (hand_step_range (numBufs m) c ltac:(lia)). lia.
Qed.

Lemma shape_hand_page m c :
  shape m → is_Some (nth_Z (bufPool m) (hand_step (numBufs m) c)).
Proof.
  intros (HN & _ & Hp). apply nth_Z_is_Some.
  pose proof (hand_step_range (numBufs m) c ltac:(lia)). lia.
Qed.

Lemma shape_second_chance m m' :
  numBufs m' = numBufs m → bufPool m' = bufPool m →
  Forall2 second_chance (bufDescTable m) (bufDescTable m') →
  shape m → shape m'.
Proof.
  intros HN Hp Ht (? & Hlen & ?). apply Forall2_length in Ht.
  unfold shape. rewrite HN, Hp, <-Ht. done.
Qed.

Lemma owner_inv_second_chance m m' :
  Forall2 second_chance (bufDescTable m) (bufDescTable m') →
  owner_inv m → owner_inv m'.
Proof.
  intros Ht Ho j d' Hd' Hv.
  destruct (Forall2_lookup_r _ _ _ _ _ Ht Hd') as (d & Hd & Hsc).
  apply second_chance_fields in Hsc as (Hf & _ & _ & _ & _ & Hval & _).
  rewrite Hf. eapply Ho; [done|congruence].
Qed.

Lemma visit_step_None_facts w w1 :
  visit_step w (Ret None) w1 →
  numBufs (mgr w1) = numBufs (mgr w) ∧ bufPool (mgr w1) = bufPool (mgr w) ∧
  Forall2 second_chance (bufDescTable (mgr w)) (bufDescTable (mgr w1)).
Proof.
  intros Hs. apply visit_step_run in Hs.
  assert (sweep 1 w = (Ret None, w1)) as Hsw.
  { cbn [sweep]. unfold bind. by rewrite Hs. }
  apply sweep_None in Hsw. tauto.
Qed.

Lemma sweep_defined n w r w' :
  sweep n w = (r, w') → shape (mgr w) → owner_inv (mgr w) → r ≠ Undefined.
Proof.
  revert n w r w'.
  apply (sweep_ind_step (λ w r _, shape (mgr w) → owner_inv (mgr w) → r ≠ Undefined));
    try done.
  - intros w w1 Hs Hsh Ho _.
    inversion Hs as [HN|HN Hd| | | | | |d f HN Hd Hv Hr Hp Hdi Hf Hpg|
                     |d HN Hd Hv Hr Hp Hdi Hf]; subst.
    + destruct Hsh as (? & _). lia.
    + destruct (shape_hand_defined _ (clockHand (mgr w)) Hsh) as [d Hd'].
      cbn in Hd. congruence.
    + destruct (shape_hand_page _ (clockHand (mgr w)) Hsh) as [pg Hpg'].
      cbn in Hpg. congruence.
    + apply nth_Z_Some in Hd as [_ Hd].
      destruct (Ho _ _ Hd Hv) as [f Hf']. congruence.
  - intros w w1 r w2 Hs IH Hsh Ho.
    destruct (visit_step_None_facts _ _ Hs) as (HN & Hp & Ht).
    apply IH.
    + by eapply shape_second_chance.
    + by eapply owner_inv_second_chance.
Qed.

Lemma sweep_all_pinned n w :
  shape (mgr w) →
  (∀ (j : nat) d, bufDescTable (mgr w) !! j = Some d → valid d = true ∧ 0 < pinCnt d) →
  ∃ w', sweep n w = (Ret None, w').
Proof.
  revert w. induction n as [|n IH]; intros w Hsh Hall; [by eexists|].
  destruct (shape_hand_defined _ (clockHand (mgr w)) Hsh) as [d Hd].
  pose proof Hd as [_ Hlk]%nth_Z_Some. destruct (Hall _ _ Hlk) as [Hv Hp].
  assert (numBufs (mgr w) ≠ 0) as HN by (destruct Hsh; lia).
  cbn [sweep]. destruct (refbit d) eqn:Hr.
  - erewrite bind_Ret by (apply visit_step_run; by eapply visit_second_chance).
    apply IH.
    + destruct Hsh as (? & Hlen & ?). split; [done|]. split; [|done].
      cbn. by rewrite length_insert.
    + intros j x [(_ & <- & _)|[_ Hx]]%list_lookup_insert_Some; [done|by eapply Hall].
  - erewrite bind_Ret by (apply visit_step_run; by eapply visit_pinned).
    by apply IH.
Qed.

Lemma sweep_finds n w :
  shape (mgr w) →
  (∀ (j : nat) d, bufDescTable (mgr w) !! j = Some d →
     valid d = true → refbit d = false ∧ is_Some (file d)) →
  (∃ (j : nat) d, (j < n)%nat ∧
     nth_Z (bufDescTable (mgr w))
       (Nat.iter (S j) (hand_step (numBufs (mgr w))) (clockHand (mgr w))) = Some d ∧
     pinCnt d ≤ 0) →
  ∃ fr w', sweep n w = (Ret (Some fr), w').
Proof.
  revert w. induction n as [|n IH]; intros w Hsh Hall (j & dj & Hj & Hdj & Hpj); [lia|].
  destruct (shape_hand_defined _ (clockHand (mgr w)) Hsh) as [d Hd].
  destruct (shape_hand_page _ (clockHand (mgr w)) Hsh) as [pg Hpg].
  pose proof Hd as [_ Hlk]%nth_Z_Some.
  assert (numBufs (mgr w) ≠ 0) as HN by (destruct Hsh; lia).
  cbn [sweep]. destruct (valid d) eqn:Hv.
  2:{ erewrite bind_Ret by (apply visit_step_run; by eapply visit_invalid).
      by eexists _, _. }
  destruct (Hall _ _ Hlk Hv) as [Hr [f Hf]].
  destruct (decide (0 < pinCnt d)) as [Hp|Hp].
  - erewrite bind_Ret by (apply visit_step_run; by eapply visit_pinned).
    apply IH; [done..|].
    destruct j as [|j].
    { change (Nat.iter 1 ?g ?x) with (g x) in Hdj. rewrite Hd in Hdj.
      injection Hdj as ->. lia. }
    exists j, dj. split; [lia|]. split; [|done].
    rewrite Nat.iter_succ_r in Hdj. exact Hdj.
  - destruct (dirty d) eqn:Hdi.
    + erewrite bind_Ret
        by (apply visit_step_run; eapply visit_evict_dirty; try done; lia).
      by eexists _, _.
    + erewrite bind_Ret
        by (apply visit_step_run; eapply visit_evict_clean; try done; lia).
      by eexists _, _.
Qed.

(** After a sweep of the whole pool that selected nothing, every frame is
    valid with its reference bit down, and was pinned if the bit was down
    before. *)
Lemma sweep_None_all w w' :
  0 < numBufs (mgr w) < INT32_MAX1 →
  sweep (Z.to_nat (numBufs (mgr w))) w = (Ret None, w') →
  ∀ i, 0 ≤ i < numBufs (mgr w) →
    ∃ d d', nth_Z (bufDescTable (mgr w)) i = Some d ∧
            nth_Z (bufDescTable (mgr w')) i = Some d' ∧
            second_chance d d' ∧
            valid d = true ∧ (refbit d = false → 0 < pinCnt d) ∧ refbit d' = false.
Proof.
  intros HN Hsw i Hi.
  destruct (sweep_None _ _ _ Hsw) as (_ & _ & _ & _ & _ & Ht & Hvis).
  destruct (hand_cover _ (clockHand (mgr w)) i HN Hi) as (j & Hj & <-).
  destruct (Hvis j Hj) as (d & d' & Hd & Hd' & Hv & Hr & Hr').
  exists d, d'. split; [done|]. split; [done|]. split; [|done].
  destruct (nth_Z_Forall2 _ _ _ _ _ Ht Hd) as (d'' & Hd'' & Hsc). congruence.
Qed.

(** ** The outer loop of allocBuf *)

Lemma allocBuf_loop_S fuel w :
  allocBuf_loop (S fuel) w =
  if decide (INT32_MAX1 ≤ numBufs (mgr w)) then (Undefined, w)
  else
    match sweep (Z.to_nat (numBufs (mgr w))) w with
    | (Ret (Some fr), w1) => (Ret fr, w1)
    | (Ret None, w1) =>
        match scan_unpinned (Z.to_nat (numBufs (mgr w))) 0 w1 with
        | (Ret true, w2) => allocBuf_loop fuel w2
        | (Ret false, w2) => (Throw BufferExceededException, w2)
        | (Throw e, w2) => (Throw e, w2)
        | (Undefined, w2) => (Undefined, w2)
        | (OutOfFuel, w2) => (OutOfFuel, w2)
        end
    | (Throw e, w1) => (Throw e, w1)
    | (Undefined, w1) => (Undefined, w1)
    | (OutOfFuel, w1) => (OutOfFuel, w1)
    end.
Proof.
  cbn [allocBuf_loop]. unfold bind, gets, undefined, throw, ret.
  case_decide; [done|].
  destruct (sweep _ w) as [[[fr|]|e| |] w1]; try done.
  by destruct (scan_unpinned _ 0 w1) as [[[]|e| |] w2].
Qed.

(** Two sweeps of the whole pool that both select nothing leave every frame
    pinned: the scan after the second one finds no unpinned frame. *)
Lemma no_third_round w w1 w3 w4 :
  sweep (Z.to_nat (numBufs (mgr w))) w = (Ret None, w1) →
  sweep (Z.to_nat (numBufs (mgr w1))) w1 = (Ret None, w3) →
  ¬ INT32_MAX1 ≤ numBufs (mgr w) →
  scan_unpinned (Z.to_nat (numBufs (mgr w1))) 0 w3 ≠ (Ret true, w4).
Proof.
  intros Hsw1 Hsw2 HN Hsc2.
  apply scan_unpinned_true in Hsc2 as (j & dj & Hj & Hdj & Hpj).
  assert (numBufs (mgr w1) = numBufs (mgr w)) as HNeq.
  { by destruct (sweep_None _ _ _ Hsw1) as (-> & _). }
  assert (0 < numBufs (mgr w1) < INT32_MAX1) as HN1 by lia.
  destruct (sweep_None_all w1 w3 HN1 Hsw2 j ltac:(lia))
    as (d & d' & Hd & Hd' & Hsc & Hv & Hr & Hr').
  destruct (sweep_None_all w w1 ltac:(lia) Hsw1 j ltac:(lia))
    as (d0 & d0' & _ & Hd0' & _ & _ & _ & Hr0').
  apply second_chance_fields in Hsc as (_ & _ & _ & Hpin & _).
  assert (d0' = d) as -> by congruence.
  assert (d' = dj) as -> by congruence.
  specialize (Hr Hr0'). lia.
Qed.

(** With fuel for two rounds the loop already gives what it gives with any
    more, and it does not run out. *)
Lemma allocBuf_loop_two n w :
  allocBuf_loop (S (S n)) w = allocBuf_loop 2 w ∧
  fst (allocBuf_loop 2 w) ≠ OutOfFuel.
Proof.
  rewrite !(allocBuf_loop_S (S _)). case_decide as HN; [done|].
  destruct (sweep _ w) as [r1 w1] eqn:Hsw1.
  destruct (sweep_no_throw _ _ _ _ Hsw1) as [Hnt1 Hnf1].
  destruct r1 as [[fr|]|e| |]; [done| |by destruct (Hnt1 e)|done|done].
  destruct (scan_unpinned _ 0 w1) as [r2 w2] eqn:Hsc1.
  destruct (scan_unpinned_inv _ _ _ _ _ Hsc1) as [-> [-> |[[] ->]]]; try done.
  assert (numBufs (mgr w1) = numBufs (mgr w)) as HNeq.
  { by destruct (sweep_None _ _ _ Hsw1) as (-> & _). }
  rewrite !allocBuf_loop_S. case_decide; [lia|].
  destruct (sweep _ w1) as [r3 w3] eqn:Hsw2.
  destruct (sweep_no_throw _ _ _ _ Hsw2) as [Hnt2 Hnf2].
  destruct r3 as [[fr|]|e| |]; [done| |by destruct (Hnt2 e)|done|done].
  destruct (scan_unpinned _ 0 w3) as [r4 w4] eqn:Hsc2.
  destruct (scan_unpinned_inv _ _ _ _ _ Hsc2) as [-> [-> |[[] ->]]]; try done.
  by destruct (no_third_round _ _ _ _ Hsw1 Hsw2 HN Hsc2).
Qed.

Lemma allocBuf_loop_fuel n w : (2 ≤ n)%nat → allocBuf_loop n w = allocBuf w.
Proof.
  intros Hn. destruct n as [|[|n]]; [lia..|]. apply allocBuf_loop_two.
Qed.

Lemma allocBuf_terminates w : fst (allocBuf w) ≠ OutOfFuel.
Proof. apply (allocBuf_loop_two 0). Qed.

Lemma allocBuf_unfold w :
  allocBuf w =
  if decide (INT32_MAX1 ≤ numBufs (mgr w)) then (Undefined, w)
  else
    match sweep (Z.to_nat (numBufs (mgr w))) w with
    | (Ret (Some fr), w1) => (Ret fr, w1)
    | (Ret None, w1) =>
        match scan_unpinned (Z.to_nat (numBufs (mgr w))) 0 w1 with
        | (Ret true, w2) => allocBuf_loop 1 w2
        | (Ret false, w2) => (Throw BufferExceededException, w2)
        | (Throw e, w2) => (Throw e, w2)
        | (Undefined, w2) => (Undefined, w2)
        | (OutOfFuel, w2) => (OutOfFuel, w2)
        end
    | (Throw e, w1) => (Throw e, w1)
    | (Undefined, w1) => (Undefined, w1)
    | (OutOfFuel, w1) => (OutOfFuel, w1)
    end.
Proof. apply allocBuf_loop_S. Qed.

(** ** Victim selection *)

(** C1. When the advanced hand points to a valid frame whose reference bit
    is down and whose pin count is 0, the body of the sweep writes the
    frame's content to its owning file if the frame is dirty, takes the
    frame's key out of the index (an absent key is no error), clears the
    descriptor and selects the frame; so do the sweep and allocBuf when
    this is the first frame they look at. *)
Theorem allocBuf_evicts w d f pg :
  let h := hand_step (numBufs (mgr w)) (clockHand (mgr w)) in
  let w' := mkWorld (release_frame h d f (mgr (advanced w)))
                    (if dirty d then FWritePage f pg :: io w else io w) in
  numBufs (mgr w) ≠ 0 →
  nth_Z (bufDescTable (mgr w)) h = Some d →
  nth_Z (bufPool (mgr w)) h = Some pg →
  valid d = true → refbit d = false → pinCnt d = 0 → file d = Some f →
  visit w = (Ret (Some h), w') ∧
  (∀ n, sweep (S n) w = (Ret (Some h), w')) ∧
  (0 < numBufs (mgr w) < INT32_MAX1 → allocBuf w = (Ret h, w')) ∧
  hashTable (mgr w') !! (f, pageNo d) = None ∧
  nth_Z (bufDescTable (mgr w')) h = Some (BufDesc_Clear d) ∧
  valid (BufDesc_Clear d) = false ∧
  clockHand (mgr w') = h.
Proof.
  intros h w' HN Hd Hpg Hv Hr Hp Hf.
  assert (visit w = (Ret (Some h), w')) as Hvisit.
  { apply visit_step_run. subst w'. destruct (dirty d) eqn:Hdi.
    - eapply visit_evict_dirty; try done. lia.
    - eapply visit_evict_clean; try done. lia. }
  assert (∀ n, sweep (S n) w = (Ret (Some h), w')) as Hsweep.
  { intros n. cbn [sweep]. by rewrite (bind_Ret _ _ _ _ _ Hvisit). }
  split; [done|]. split; [done|]. split; [|split; [|split]].
  - intros HN'. rewrite allocBuf_unfold. rewrite decide_False by lia.
    destruct (Z.to_nat (numBufs (mgr w))) as [|n] eqn:Hn; [lia|].
    by rewrite Hsweep.
  - subst w'. cbn. apply lookup_delete_eq.
  - subst w'. cbn. by eapply nth_Z_insert_eq.
  - done.
Qed.

Lemma second_chance_cleared d d' :
  second_chance d d' → refbit d' = false → d' = with_refbit false d.
Proof.
  intros [-> | ->] Hr; [|done]. by rewrite <-Hr, with_refbit_id.
Qed.

(** C2, as the code has it.  In a pool of [numBufs] frames that are all
    valid and pinned, one sweep of the whole pool selects nothing and
    allocBuf throws BufferExceededException; the sweep has cleared every
    reference bit and changed nothing else: the hand is back where it was,
    the index, the pool, the pin counts and the files are untouched.  When
    some frame has pin count 0, allocBuf returns a frame. *)
Theorem allocBuf_capacity w :
  shape (mgr w) →
  ((∀ (j : nat) d, bufDescTable (mgr w) !! j = Some d → valid d = true ∧ 0 < pinCnt d) →
   0 ≤ clockHand (mgr w) < numBufs (mgr w) →
   let w' := mkWorld (with_table (with_refbit false <$> bufDescTable (mgr w)) (mgr w))
                     (io w) in
   sweep (Z.to_nat (numBufs (mgr w))) w = (Ret None, w') ∧
   allocBuf w = (Throw BufferExceededException, w')) ∧
  (owner_inv (mgr w) →
   (∃ (j : nat) d, bufDescTable (mgr w) !! j = Some d ∧ pinCnt d = 0) →
   ∃ fr w', allocBuf w = (Ret fr, w')).
Proof.
  intros Hsh. pose proof Hsh as (HN & Hlen & Hplen). split.
  - intros Hall Hc w'.
    destruct (sweep_all_pinned (Z.to_nat (numBufs (mgr w))) w Hsh Hall) as [w1 Hsw].
    destruct (sweep_None _ _ _ Hsw) as (HN1 & Hp1 & Hh1 & Hio1 & Hc1 & Ht1 & _).
    pose proof (sweep_None_all _ _ HN Hsw) as Hvis.
    assert (w1 = w') as Hw1.
    { rewrite hand_full_turn in Hc1 by done.
      assert (bufDescTable (mgr w1) = with_refbit false <$> bufDescTable (mgr w)) as Ht.
      { apply list_eq. intros j. rewrite list_lookup_fmap.
        destruct (decide (Z.of_nat j < numBufs (mgr w))) as [Hj|Hj].
        - destruct (Hvis (Z.of_nat j) ltac:(lia))
            as (d & d' & Hd & Hd' & Hsc & _ & _ & Hr).
          rewrite nth_Z_of_nat in Hd, Hd'. rewrite Hd, Hd'. cbn. f_equal.
          by apply second_chance_cleared.
        - apply Forall2_length in Ht1.
          rewrite !(lookup_ge_None_2 _ j) by lia. done. }
      subst w'. destruct w1 as [[N1 t1 p1 h1 c1] io1], w as [[N0 t0 p0 h0 c0] io0].
      cbn in *. by subst. }
    rewrite Hw1 in Hsw. split; [done|].
    rewrite allocBuf_unfold. rewrite decide_False by lia. rewrite Hsw.
    rewrite scan_unpinned_none; [done|].
    intros k Hk. destruct (Hvis k ltac:(lia)) as (d & d' & Hd & Hd' & Hsc & _).
    exists d'. rewrite <-Hw1. split; [done|].
    apply second_chance_fields in Hsc as (_ & _ & _ & -> & _).
    apply nth_Z_Some in Hd as [_ Hd]. destruct (Hall _ _ Hd). lia.
  - intros Ho (j & d & Hd & Hp). rewrite allocBuf_unfold. rewrite decide_False by lia.
    destruct (sweep _ w) as [r1 w1] eqn:Hsw.
    pose proof (sweep_defined _ _ _ _ Hsw Hsh Ho) as Hdef.
    destruct (sweep_no_throw _ _ _ _ Hsw) as [Hnt Hnf].
    destruct r1 as [[fr|]|e| |]; [by eexists _, _| |by destruct (Hnt e)|done|done].
    destruct (sweep_None _ _ _ Hsw) as (HN1 & Hp1 & Hh1 & Hio1 & Hc1 & Ht1 & _).
    pose proof (sweep_None_all _ _ HN Hsw) as Hvis.
    assert (shape (mgr w1)) as Hsh1 by by eapply shape_second_chance.
    assert (owner_inv (mgr w1)) as Ho1 by by eapply owner_inv_second_chance.
    assert (Z.of_nat j < numBufs (mgr w)) as Hj.
    { apply lookup_lt_Some in Hd. lia. }
    destruct (Hvis (Z.of_nat j) ltac:(lia)) as (dj & dj' & Hdj & Hdj' & Hsc & _).
    rewrite nth_Z_of_nat in Hdj. assert (dj = d) as -> by congruence.
    apply second_chance_fields in Hsc as (_ & _ & _ & Hpin & _).
    rewrite (scan_unpinned_finds _ _ _ (Z.of_nat j) dj'); [|
      |lia|done|lia].
    2:{ intros k Hk. apply nth_Z_is_Some. destruct Hsh1 as (_ & Hl1 & _). lia. }
    rewrite allocBuf_loop_S. rewrite decide_False by lia.
    destruct (sweep_finds (Z.to_nat (numBufs (mgr w1))) w1 Hsh1) as (fr & w' & Hsw2).
    + intros k x Hx Hvx.
      assert (Z.of_nat k < numBufs (mgr w)) as Hk.
      { apply lookup_lt_Some in Hx. destruct Hsh1 as (_ & Hl1 & _). lia. }
      destruct (Hvis (Z.of_nat k) ltac:(lia)) as (dk & dk' & _ & Hdk' & _ & _ & _ & Hrk).
      rewrite nth_Z_of_nat in Hdk'. assert (dk' = x) as -> by congruence.
      split; [done|]. by eapply Ho1.
    + destruct (hand_cover (numBufs (mgr w1)) (clockHand (mgr w1)) (Z.of_nat j))
        as (j0 & Hj0 & Hpos); [lia..|].
      exists j0, dj'. split; [done|]. rewrite Hpos. split; [done|lia].
    + rewrite Hsw2. by eexists _, _.
Qed.

(** ** Pinned frames *)

Lemma kept_refl m i d :
  nth_Z (bufDescTable m) i = Some d → kept m m i.
Proof. intros Hd. by exists d, d. Qed.

Lemma kept_trans m1 m2 m3 i : kept m1 m2 i → kept m2 m3 i → kept m1 m3 i.
Proof.
  intros (d1 & d2 & Hd1 & Hd2 & Hf & Hp & Hv & Hpg)
         (d2' & d3 & Hd2' & Hd3 & Hf' & Hp' & Hv' & Hpg').
  assert (d2' = d2) as -> by congruence.
  exists d1, d3. repeat split; congruence.
Qed.

Lemma kept_sweeps_to m m' i d :
  sweeps_to m m' →
  nth_Z (bufDescTable m) i = Some d → 0 < pinCnt d →
  kept m m' i.
Proof.
  intros (_ & Hp & _ & Ht) Hd Hpin.
  destruct (nth_Z_Forall2 _ _ _ _ _ Ht Hd) as (d' & Hd' & Hsw).
  exists d, d'. rewrite Hp.
  destruct Hsw as [-> |[-> |(_ & Hle & _)]]; [done..|lia].
Qed.

Lemma kept_update m i j d (g : BufDesc → BufDesc) :
  nth_Z (bufDescTable m) i = Some d →
  (∀ x, file (g x) = file x ∧ pageNo (g x) = pageNo x ∧ valid (g x) = valid x) →
  (∀ x, nth_Z (bufDescTable m) j = Some x →
     kept m (with_table (<[Z.to_nat j := g x]> (bufDescTable m)) m) i).
Proof.
  intros Hd Hg x Hx. destruct (decide (j = i)) as [->|Hne].
  - assert (x = d) as -> by congruence.
    exists d, (g d). cbn. rewrite (nth_Z_insert_eq _ _ _ _ Hd).
    destruct (Hg d) as (? & ? & ?). done.
  - exists d, d. cbn. rewrite nth_Z_insert_ne; [done| |done].
    by apply nth_Z_Some in Hx as [? _].
Qed.

Lemma kept_install m i d fr f p pg d2 :
  nth_Z (bufDescTable m) i = Some d → fr ≠ i → 0 ≤ fr →
  kept m (install_page fr f p pg d2 m) i.
Proof.
  intros Hd Hne Hfr. exists d, d. cbn.
  rewrite !nth_Z_insert_ne by done. done.
Qed.

Lemma kept_pool m i d fr pg :
  nth_Z (bufDescTable m) i = Some d → fr ≠ i → 0 ≤ fr →
  kept m (with_pool (<[Z.to_nat fr := pg]> (bufPool m)) m) i.
Proof.
  intros Hd Hne Hfr. exists d, d. cbn.
  rewrite !nth_Z_insert_ne by done. done.
Qed.

(** The frame allocBuf returns was invalid or unpinned. *)
Lemma allocBuf_victim_unpinned w fr w' :
  Inv (mgr w) → allocBuf w = (Ret fr, w') →
  ∃ d, nth_Z (bufDescTable (mgr w)) fr = Some d ∧ pinCnt d ≤ 0.
Proof.
  intros HI Hrun.
  destruct (allocBuf_loop_Inv _ _ _ _ Hrun HI) as (_ & (_ & _ & _ & Ht) & Hvic & _).
  destruct (Hvic _ eq_refl) as (d' & Hd' & Hv').
  pose proof Hd' as [Hfr Hlk]%nth_Z_Some.
  destruct (Forall2_lookup_r _ _ _ _ _ Ht Hlk) as (d & Hd & Hsw).
  exists d. split; [by apply nth_Z_Some|].
  destruct Hsw as [-> |[-> |(_ & Hle & _)]]; [| |done].
  - destruct (proj1 HI _ _ Hd Hv'). lia.
  - destruct (proj1 HI _ _ Hd Hv'). lia.
Qed.

(** Loading a page into the frame allocBuf returned keeps a pinned frame. *)
Lemma kept_load w fr w2 i d f p pg d2 :
  Inv (mgr w) → allocBuf w = (Ret fr, w2) →
  nth_Z (bufDescTable (mgr w)) i = Some d → 0 < pinCnt d →
  kept (mgr w) (mgr w2) i ∧
  kept (mgr w) (with_pool (<[Z.to_nat fr := pg]> (bufPool (mgr w2))) (mgr w2)) i ∧
  kept (mgr w) (install_page fr f p pg d2 (mgr w2)) i.
Proof.
  intros HI Hrun Hd Hpin.
  pose proof (allocBuf_loop_sweeps_to _ _ _ _ Hrun) as Hto.
  pose proof (kept_sweeps_to _ _ _ _ Hto Hd Hpin) as Hk.
  destruct (allocBuf_victim_unpinned _ _ _ HI Hrun) as (dv & Hdv & Hle).
  assert (fr ≠ i) as Hne.
  { intros ->. assert (dv = d) as -> by congruence. lia. }
  pose proof Hdv as [Hfr _]%nth_Z_Some.
  destruct Hk as (d0 & d' & Hd0 & Hd' & Hrest).
  split; [by exists d0, d'|]. split.
  - eapply kept_trans; [by exists d0, d'|]. by eapply kept_pool.
  - eapply kept_trans; [by exists d0, d'|]. by eapply kept_install.
Qed.

Lemma flushFile_from_sweeps_to f n k w r w' :
  flushFile_from (Some f) n k w = (r, w') → sweeps_to (mgr w) (mgr w').
Proof.
  revert k w. induction n as [|n IH]; intros k w; cbn [flushFile_from].
  { intros [= <- <-]. apply sweeps_to_refl. }
  unfold bind. destruct (flush_frame (Some f) k w) as [r1 w1] eqn:Hf.
  apply flush_frame_inv in Hf. intros Hrun.
  assert (sweeps_to (mgr w) (mgr w1)) as Hto.
  { destruct Hf as [Hd|d Hd Hf|d Hd Hf Hp|d Hd Hf Hp Hv|d Hd Hf Hp Hv Hdi
                   |d pg Hd Hf Hp Hv Hdi Hpg|d Hd Hf Hp Hv Hdi Hpg];
      try apply sweeps_to_refl.
    all: repeat split; try done; cbn; try apply delete_subseteq.
    all: apply nth_Z_Some in Hd as [_ Hd];
      eapply Forall2_update; [apply swept_refl|exact Hd|]; right; by right. }
  destruct r1; try by injection Hrun as <- <-.
  eapply sweeps_to_trans; [done|]. by eapply IH.
Qed.

Lemma flushFile_sweeps_to (fileArg : option File) w r w' :
  flushFile fileArg w = (r, w') → sweeps_to (mgr w) (mgr w').
Proof.
  unfold flushFile, bind, gets. destruct fileArg as [f|].
  - apply flushFile_from_sweeps_to.
  - intros Hrun. by destruct (flushFile_from_null_sweeps_to _ _ _ _ _ Hrun).
Qed.

Lemma run_keeps_pinned o w i d :
  Inv (mgr w) →
  nth_Z (bufDescTable (mgr w)) i = Some d → 0 < pinCnt d →
  completes (fst (run o w)) →
  (∀ f p, o = OpDisposePage f p → (file d, pageNo d) ≠ (Some f, p)) →
  kept (mgr w) (mgr (snd (run o w))) i.
Proof.
  intros HI Hd Hpin Hc Hother.
  destruct o as [f p|f p b|f|f p|f]; cbn [run] in *.
  - unfold bind in *. rewrite readPage_unfold in *.
    destruct (hashTable (mgr w) !! (f, p)) as [fr|] eqn:Hh.
    + destruct (nth_Z (bufDescTable (mgr w)) fr) as [x|] eqn:Hx; rsimpl; [|done].
      eapply (kept_update _ _ _ _
        (λ x, with_refbit true (with_pinCnt (pinCnt x + 1) x)));
        [exact Hd|by intros ?|exact Hx].
    + destruct (readPage_reply (io w) f p) as [pg|]; rsimpl; [|by eapply kept_refl].
      destruct (allocBuf _) as [[fr| | |] w2] eqn:Ha; rsimpl; try done.
      2:{ eapply kept_sweeps_to; [|done..].
          exact (allocBuf_loop_sweeps_to _ _ _ _ Ha). }
      destruct (kept_load (mkWorld (mgr w) _) _ _ _ _ f p pg d HI Ha Hd Hpin) as (Hk1 & Hk2 & _).
      destruct (nth_Z (bufPool (mgr w2)) fr); rsimpl; [|done].
      destruct (hashTable (mgr w2) !! (f, p)); rsimpl; [done|].
      destruct (nth_Z (bufDescTable (mgr w2)) fr) as [d2|]; rsimpl; [|done].
      by destruct (kept_load (mkWorld (mgr w) _) _ _ _ _ f p pg d2 HI Ha Hd Hpin) as (_ & _ & ?).
  - rewrite unPinPage_unfold in *.
    destruct (hashTable (mgr w) !! (f, p)) as [fr|] eqn:Hh; rsimpl;
      [|by eapply kept_refl].
    destruct (nth_Z (bufDescTable (mgr w)) fr) as [x|] eqn:Hx; rsimpl; [|done].
    case_decide; rsimpl; [by eapply kept_refl|].
    eapply (kept_update _ _ _ _
      (λ x, mkBufDesc (file x) (pageNo x) (frameNo x) (pinCnt x - 1)
              (b || dirty x) (valid x) (refbit x)));
      [exact Hd|by intros ?|exact Hx].
  - unfold bind in *. rewrite allocPage_unfold in *. rsimpl.
    destruct (allocBuf _) as [[fr| | |] w2] eqn:Ha; rsimpl; try done.
    2:{ eapply kept_sweeps_to; [|done..].
        exact (allocBuf_loop_sweeps_to _ _ _ _ Ha). }
    destruct (kept_load (mkWorld (mgr w) _) _ _ _ _ f 0 Page_default d HI Ha Hd Hpin) as (Hk1 & _ & _).
    destruct (readPage_reply (io w2) f _) as [pg|]; rsimpl; [|done].
    destruct (nth_Z (bufPool (mgr w2)) fr); rsimpl; [|done].
    destruct (hashTable (mgr w2) !! (f, _)); rsimpl.
    { by destruct (kept_load (mkWorld (mgr w) _) _ _ _ _ f 0 pg d HI Ha Hd Hpin) as (_ & ? & _). }
    destruct (nth_Z (bufDescTable (mgr w2)) fr) as [d2|]; rsimpl; [|done].
    by destruct (kept_load (mkWorld (mgr w) _) _ _ _ _ f
                   (page_number (allocatePage_reply (io w) f)) pg d2 HI Ha Hd Hpin)
      as (_ & _ & ?).
  - rewrite disposePage_unfold in *.
    destruct (hashTable (mgr w) !! (f, p)) as [fr|] eqn:Hh; rsimpl;
      [|by eapply kept_refl].
    destruct (proj2 (proj2 HI) _ _ _ Hh) as (x & Hx & Hxv & Hxf & Hxp).
    rewrite Hx in *. rsimpl.
    assert (fr ≠ i) as Hne.
    { intros ->. assert (x = d) as -> by congruence.
      eapply Hother; [done|]. by rewrite Hxf, Hxp. }
    exists d, d. cbn. rewrite nth_Z_insert_ne; [done| |done].
    by apply nth_Z_Some in Hx as [? _].
  - destruct (flushFile f w) as [r w'] eqn:Hrun. rsimpl.
    eapply kept_sweeps_to; [|done..]. by eapply flushFile_sweeps_to.
Qed.

(** C8, as the code has it.  In a state a client can reach, victim
    selection never returns a pinned frame, and a frame that is pinned holds
    the same page of the same file, with the same content, after any
    fetch, unpin, allocate or flush, and after the disposal of any other
    page.  (The disposal of the page itself clears the frame whatever its
    pin count.) *)
Theorem pinned_frames_stay w :
  reachable w →
  (∀ fr w', allocBuf w = (Ret fr, w') →
     ∃ d, nth_Z (bufDescTable (mgr w)) fr = Some d ∧ pinCnt d ≤ 0) ∧
  (∀ o i d,
     nth_Z (bufDescTable (mgr w)) i = Some d → 0 < pinCnt d →
     completes (fst (run o w)) →
     (∀ f p, o = OpDisposePage f p → (file d, pageNo d) ≠ (Some f, p)) →
     kept (mgr w) (mgr (snd (run o w))) i).
Proof.
  intros HI%reachable_Inv. split.
  - intros fr w'. by apply allocBuf_victim_unpinned.
  - intros o i d. by apply run_keeps_pinned.
Qed.

(** ** flushFile stopped by a pinned frame *)



(** ** No operation goes wrong

    On a manager a client can reach, with fewer than 2^31 frames, every
    public operation returns or throws: no array is accessed out of bounds,
    no null file is dereferenced and victim selection does not loop. *)

Lemma sized_ext m m' :
  numBufs m' = numBufs m →
  length (bufDescTable m') = length (bufDescTable m) →
  length (bufPool m') = length (bufPool m) →
  sized m → sized m'.
Proof. intros HN Ht Hp (? & ? & ?). unfold sized. rewrite HN, Ht, Hp. done. Qed.

Lemma sized_sweeps_to m m' : sweeps_to m m' → sized m → sized m'.
Proof.
  intros (HN & Hp & _ & Ht). apply Forall2_length in Ht.
  apply sized_ext; congruence.
Qed.

Lemma sized_shape m : sized m → 0 < numBufs m < INT32_MAX1 → shape m.
Proof. intros (? & ? & ?) ?. done. Qed.

Lemma sized_page m i d :
  sized m → nth_Z (bufDescTable m) i = Some d → is_Some (nth_Z (bufPool m) i).
Proof.
  intros (_ & Ht & Hp) [Hi Hd]%nth_Z_Some. apply lookup_lt_Some in Hd.
  apply nth_Z_is_Some. lia.
Qed.

Lemma BufMgr_new_sized bufs : 0 ≤ bufs → sized (BufMgr_new bufs).
Proof.
  intros Hb. split; [done|]. cbn. split.
  - by rewrite length_fmap, length_seqZ.
  - by rewrite length_replicate.
Qed.






Lemma run_sized o w : sized (mgr w) → sized (mgr (snd (run o w))).
Proof.
  intros Hsz.
  assert (∀ log r1 w2, allocBuf (mkWorld (mgr w) log) = (r1, w2) → sized (mgr w2))
    as Halloc.
  { intros log r1 w2 Ha. eapply sized_sweeps_to; [|done].
    exact (allocBuf_loop_sweeps_to _ _ _ _ Ha). }
  destruct o as [f p|f p b|f|f p|f]; cbn [run].
  - unfold bind. rewrite readPage_unfold.
    destruct (hashTable (mgr w) !! (f, p)) as [fr|].
    + destruct (nth_Z (bufDescTable (mgr w)) fr); [|done]. cbn.
      eapply sized_ext; [..|done]; cbn; by rewrite ?length_insert.
    + destruct (readPage_reply (io w) f p) as [pg|]; [|done].
      destruct (allocBuf _) as [r1 w2] eqn:Ha. specialize (Halloc _ _ _ Ha).
      destruct r1 as [fr|e| |]; try done.
      destruct (nth_Z (bufPool (mgr w2)) fr); [|done]. cbv zeta.
      destruct (hashTable (mgr w2) !! (f, p)).
      { cbn. eapply sized_ext; [..|done]; cbn; by rewrite ?length_insert. }
      destruct (nth_Z (bufDescTable (mgr w2)) fr); cbn;
        eapply sized_ext; [..|done| | | |done]; cbn; by rewrite ?length_insert.
  - rewrite unPinPage_unfold.
    destruct (hashTable (mgr w) !! (f, p)) as [fr|]; [|done].
    destruct (nth_Z (bufDescTable (mgr w)) fr); [|done]. case_decide; [done|].
    cbn. eapply sized_ext; [..|done]; cbn; by rewrite ?length_insert.
  - unfold bind. rewrite allocPage_unfold. cbv zeta.
    destruct (allocBuf _) as [r1 w2] eqn:Ha. specialize (Halloc _ _ _ Ha).
    destruct r1 as [fr|e| |]; try done.
    destruct (readPage_reply (io w2) f _) as [pg|]; [|done].
    destruct (nth_Z (bufPool (mgr w2)) fr); [|done].
    destruct (hashTable (mgr w2) !! (f, _)).
    { cbn. eapply sized_ext; [..|done]; cbn; by rewrite ?length_insert. }
    destruct (nth_Z (bufDescTable (mgr w2)) fr); cbn;
      eapply sized_ext; [..|done| | | |done]; cbn; by rewrite ?length_insert.
  - rewrite disposePage_unfold.
    destruct (hashTable (mgr w) !! (f, p)) as [fr|]; [|done].
    destruct (nth_Z (bufDescTable (mgr w)) fr); [|done].
    cbn. eapply sized_ext; [..|done]; cbn; by rewrite ?length_insert.
  - destruct (flushFile f w) as [r w'] eqn:Hrun. cbn.
    eapply sized_sweeps_to; [|done]. by eapply flushFile_sweeps_to.
Qed.

Lemma reachable_sized w : reachable w → sized (mgr w).
Proof.
  induction 1 as [bufs log [Hb _]|o w _ IH Hc].
  - by apply BufMgr_new_sized.
  - by apply run_sized.
Qed.

(** C9. For a file object, in every state a client can reach, and more
    generally in every state in which each invalid frame is unpinned, clean
    and without owning file, flushFile never throws BadBufferException.
    With a null pointer it does, in states a client can reach: the null
    pointer equals the owning file of the frames that have none, which are
    the invalid ones, so that flushFile throws BadBufferException at the
    first invalid frame, having changed nothing.  It returns, having
    changed nothing, when every frame is valid. *)
Theorem flushFile_bad_buffer_only_null w :
  (reachable w ∨ desc_inv (mgr w) →
   ∀ f fr b1 b2 b3,
     fst (flushFile (Some f) w) ≠ Throw (BadBufferException fr b1 b2 b3)) ∧
  (reachable w →
   (∀ k d,
      nth_Z (bufDescTable (mgr w)) k = Some d → valid d = false →
      (∀ j, 0 ≤ j < k →
         ∃ x, nth_Z (bufDescTable (mgr w)) j = Some x ∧ valid x = true) →
      flushFile None w =
        (Throw (BadBufferException k (dirty d) (valid d) (refbit d)), w)) ∧
   ((∀ j, 0 ≤ j < numBufs (mgr w) →
       ∃ x, nth_Z (bufDescTable (mgr w)) j = Some x ∧ valid x = true) →
    flushFile None w = (Ret tt, w))).
Proof.
  split.
  - intros Hw f fr b1 b2 b3. assert (desc_inv (mgr w)) as Hd.
    { destruct Hw as [Hr%reachable_Inv|Hd]; [apply Hr|done]. }
    destruct (flushFile (Some f) w) as [r w'] eqn:Hrun.
    unfold flushFile, bind, gets in Hrun.
    by eapply flushFile_from_no_bad_buffer.
  - intros Hw. pose proof (reachable_Inv _ Hw) as (Hdi & Ho & _).
    pose proof (reachable_sized _ Hw) as (HN & Hlen & _).
    unfold flushFile, bind, gets. split.
    + intros k d Hd Hv Hbefore. apply flushFile_from_null_bad; try done.
      pose proof Hd as [Hk Hd']%nth_Z_Some. apply lookup_lt_Some in Hd'. lia.
    + intros Hall. apply flushFile_from_null_valid; [done|].
      intros j Hj. apply Hall. lia.
Qed.


(** ** An index miss that succeeds

    The page read from the file before victim selection ends up in the
    frame allocBuf returned, which is entered in the index and set: valid,
    one pin, reference bit up, not dirty. *)
Lemma readPage_loads f p w pg fr w2 d2 pg0 :
  hashTable (mgr w) !! (f, p) = None →
  readPage_reply (io w) f p = Some pg →
  allocBuf (mkWorld (mgr w) (FReadPage f p :: io w)) = (Ret fr, w2) →
  nth_Z (bufDescTable (mgr w2)) fr = Some d2 →
  nth_Z (bufPool (mgr w2)) fr = Some pg0 →
  readPage f p w = (Ret fr, mkWorld (install_page fr f p pg d2 (mgr w2)) (io w2)) ∧
  nth_Z (bufDescTable (install_page fr f p pg d2 (mgr w2))) fr =
    Some (mkBufDesc (Some f) p (frameNo d2) 1 false true true) ∧
  nth_Z (bufPool (install_page fr f p pg d2 (mgr w2))) fr = Some pg ∧
  hashTable (install_page fr f p pg d2 (mgr w2)) !! (f, p) = Some fr.
Proof.
  intros Hh Hr Ha Hd2 Hpg0.
  destruct (allocBuf_loop_sweeps_to _ _ _ _ Ha) as (_ & _ & Hsub & _).
  split; [|split; [|split]].
  - rewrite readPage_unfold, Hh, Hr, Ha, Hpg0. cbv zeta.
    rewrite (lookup_weaken_None _ _ _ Hh Hsub). by rewrite Hd2.
  - cbn. by eapply nth_Z_insert_eq.
  - cbn. by eapply nth_Z_insert_eq.
  - cbn. apply lookup_insert_eq.
Qed.

(** ** The index mirrors the valid frames; pins and the hand stay in range *)

Lemma Good_ext m m' :
  bufDescTable m' = bufDescTable m → hashTable m' = hashTable m →
  numBufs m' = numBufs m → clockHand m' = clockHand m →
  Good m → Good m'.
Proof.
  intros Ht Hh HN Hc (Hm & Hp & Hc').
  unfold Good, mirror, pins_nonneg, hand_in_range. rewrite Ht, Hh, HN, Hc. done.
Qed.

Lemma Good_clock m c :
  Good m → (0 < numBufs m → 0 ≤ c < numBufs m) → Good (with_clock c m).
Proof. intros (Hm & Hp & _) Hc. done. Qed.

Lemma Good_update m i d d' :
  Good m →
  nth_Z (bufDescTable m) i = Some d →
  valid d' = valid d → file d' = file d → pageNo d' = pageNo d →
  0 ≤ pinCnt d' →
  Good (with_table (<[Z.to_nat i := d']> (bufDescTable m)) m).
Proof.
  intros (Hm & Hp & Hc) [Hi0 Hlk]%nth_Z_Some Hv Hf Hpn Hpin.
  split; [|split]; [| |done].
  - intros j x g [(<- & <- & _)|[_ Hx]]%list_lookup_insert_Some; [|by eapply Hm].
    rewrite Hv, Hf, Hpn. by apply Hm.
  - intros j x [(<- & <- & _)|[_ Hx]]%list_lookup_insert_Some; [done|by eapply Hp].
Qed.

Lemma Good_release m k d f :
  Good m →
  nth_Z (bufDescTable m) k = Some d → file d = Some f → valid d = true →
  Good (release_frame k d f m).
Proof.
  intros (Hm & Hp & Hc) [Hk0 Hlk]%nth_Z_Some Hf Hv.
  split; [|split]; [| |done].
  - intros j x g [(<- & <- & _)|[Hne Hx]]%list_lookup_insert_Some; [done|].
    intros Hxv Hxf. cbn [release_frame hashTable with_table with_hash].
    rewrite lookup_delete_ne; [by apply Hm|].
    intros [= <- Hpn]. pose proof (Hm _ _ _ Hlk Hv Hf) as H1.
    pose proof (Hm _ _ _ Hx Hxv Hxf) as H2. rewrite <- Hpn in H2.
    rewrite H1 in H2. injection H2 as H2. lia.
  - intros j x [(<- & <- & _)|[_ Hx]]%list_lookup_insert_Some; [done|by eapply Hp].
Qed.

Lemma Good_install_page m fr d f p pg :
  Good m →
  nth_Z (bufDescTable m) fr = Some d →
  hashTable m !! (f, p) = None →
  Good (install_page fr f p pg d m).
Proof.
  intros (Hm & Hp & Hc) [Hk0 Hlk]%nth_Z_Some Hnone.
  split; [|split]; [| |done].
  - intros j x g [(<- & <- & _)|[Hne Hx]]%list_lookup_insert_Some.
    + intros _ [= <-]. cbn [install_page hashTable with_table with_hash BufDesc_Set pageNo].
      rewrite lookup_insert_eq. f_equal. lia.
    + intros Hxv Hxf. cbn [install_page hashTable with_table with_hash].
      rewrite lookup_insert_ne; [by apply Hm|].
      intros [= -> ->]. rewrite (Hm _ _ _ Hx Hxv Hxf) in Hnone. done.
  - intros j x [(<- & <- & _)|[_ Hx]]%list_lookup_insert_Some; [done|by eapply Hp].
Qed.

Lemma Good_advanced w :
  numBufs (mgr w) ≠ 0 → Good (mgr w) → Good (mgr (advanced w)).
Proof.
  intros HN HG. apply Good_clock; [done|]. intros HN'. by apply hand_step_range.
Qed.

Lemma visit_step_Good w r w' :
  visit_step w r w' → Good (mgr w) → Good (mgr w').
Proof.
  destruct 1 as [HN|HN Hd|d HN Hd Hv|d HN Hd Hv Hr|d HN Hd Hv Hr Hp
                |d f HN Hd Hv Hr Hp Hdi Hf|d f pg HN Hd Hv Hr Hp Hdi Hf Hpg
                |d f HN Hd Hv Hr Hp Hdi Hf Hpg|d HN Hd Hv Hr Hp Hdi Hf
                |d HN Hd Hv Hr Hp Hdi Hf];
    intros HG; try done; try by apply Good_advanced.
  - apply (Good_update (mgr (advanced w)) _ d); [by apply Good_advanced|done..|].
    cbn. apply nth_Z_Some in Hd as [_ Hd]. by eapply (proj1 (proj2 HG)).
  - by apply (Good_release (mgr (advanced w))); [apply Good_advanced|..].
  - by apply (Good_release (mgr (advanced w))); [apply Good_advanced|..].
Qed.

Lemma sweep_Good n w r w' :
  sweep n w = (r, w') → Good (mgr w) → Good (mgr w').
Proof.
  revert n w r w'.
  apply (sweep_ind_step (λ w r w', Good (mgr w) → Good (mgr w'))).
  - done.
  - intros w fr w1 Hs. by eapply visit_step_Good.
  - intros w w1 Hs. by eapply visit_step_Good.
  - intros w w1 r w2 Hs IH HG. apply IH. by eapply visit_step_Good.
Qed.

Lemma allocBuf_loop_Good fuel w r w' :
  allocBuf_loop fuel w = (r, w') → Good (mgr w) → Good (mgr w').
Proof.
  revert w r w'. induction fuel as [|fuel IH]; intros w r w'; cbn [allocBuf_loop].
  { by intros [= <- <-]. }
  unfold bind at 1, gets at 1. case_decide.
  { by intros [= <- <-]. }
  unfold bind at 1.
  destruct (sweep _ w) as [r1 w1] eqn:Hsw. intros Hrun HG.
  pose proof (sweep_Good _ _ _ _ Hsw HG) as HG1.
  destruct r1 as [[fr|]|e| |]; try by injection Hrun as <- <-.
  unfold bind in Hrun.
  destruct (scan_unpinned _ 0 w1) as [r2 w2] eqn:Hsc.
  destruct (scan_unpinned_inv _ _ _ _ _ Hsc) as [-> [-> |[b ->]]].
  { by injection Hrun as <- <-. }
  destruct b.
  - by eapply IH.
  - by injection Hrun as <- <-.
Qed.

Lemma readPage_Good f p w r w' :
  readPage f p w = (r, w') → completes r → Inv (mgr w) → Good (mgr w) → Good (mgr w').
Proof.
  rewrite readPage_unfold. intros Hrun Hc HI HG.
  destruct (hashTable (mgr w) !! (f, p)) as [fr|] eqn:Hh.
  - destruct (proj2 (proj2 HI) _ _ _ Hh) as (d & Hd & Hv & _).
    rewrite Hd in Hrun. injection Hrun as <- <-.
    eapply Good_update; [done..|]. cbn.
    apply nth_Z_Some in Hd as [_ Hd]. pose proof (proj1 (proj2 HG) _ _ Hd). lia.
  - destruct (readPage_reply (io w) f p) as [pg|].
    2:{ by injection Hrun as <- <-. }
    destruct (allocBuf _) as [r1 w2] eqn:Ha.
    pose proof (allocBuf_loop_Good _ _ _ _ Ha HG) as HG2.
    destruct r1 as [fr|e| |]; try by injection Hrun as <- <-.
    destruct (nth_Z (bufPool (mgr w2)) fr); [|by injection Hrun as <- <-].
    cbv zeta in Hrun.
    destruct (hashTable (mgr w2) !! (f, p)) eqn:Hh2.
    { injection Hrun as <- <-. by eapply Good_ext. }
    destruct (nth_Z (bufDescTable (mgr w2)) fr) as [d2|] eqn:Hd2;
      injection Hrun as <- <-; [|done].
    by apply Good_install_page.
Qed.

Lemma allocPage_Good f w r w' :
  allocPage f w = (r, w') → completes r → Good (mgr w) → Good (mgr w').
Proof.
  rewrite allocPage_unfold. cbv zeta. intros Hrun Hc HG.
  destruct (allocBuf _) as [r1 w2] eqn:Ha.
  pose proof (allocBuf_loop_Good _ _ _ _ Ha HG) as HG2.
  destruct r1 as [fr|e| |]; try by injection Hrun as <- <-.
  destruct (readPage_reply (io w2) f _) as [pg|]; [|by injection Hrun as <- <-].
  destruct (nth_Z (bufPool (mgr w2)) fr); [|by injection Hrun as <- <-].
  destruct (hashTable (mgr w2) !! (f, _)) eqn:Hh2.
  { injection Hrun as <- <-. by eapply Good_ext. }
  destruct (nth_Z (bufDescTable (mgr w2)) fr) as [d2|] eqn:Hd2;
    injection Hrun as <- <-; [|done].
  by apply Good_install_page.
Qed.

Lemma unPinPage_Good f p b w r w' :
  unPinPage f p b w = (r, w') → completes r → Inv (mgr w) → Good (mgr w) → Good (mgr w').
Proof.
  rewrite unPinPage_unfold. intros Hrun Hc HI HG.
  destruct (hashTable (mgr w) !! (f, p)) as [fr|] eqn:Hh.
  2:{ by injection Hrun as <- <-. }
  destruct (proj2 (proj2 HI) _ _ _ Hh) as (d & Hd & Hv & _).
  rewrite Hd in Hrun. case_decide; injection Hrun as <- <-; [done|].
  eapply Good_update; [done..|]. cbn.
  apply nth_Z_Some in Hd as [_ Hd]. pose proof (proj1 (proj2 HG) _ _ Hd). lia.
Qed.

Lemma disposePage_Good f p w r w' :
  disposePage f p w = (r, w') → completes r → Inv (mgr w) → Good (mgr w) → Good (mgr w').
Proof.
  rewrite disposePage_unfold. intros Hrun Hc HI HG.
  destruct (hashTable (mgr w) !! (f, p)) as [fr|] eqn:Hh.
  2:{ by injection Hrun as <- <-. }
  destruct (proj2 (proj2 HI) _ _ _ Hh) as (d & Hd & Hv & Hf & Hp).
  rewrite Hd in Hrun. injection Hrun as <- <-.
  eapply (Good_ext (release_frame fr d f (mgr w))); [done| |done..|by apply Good_release].
  cbn. by rewrite Hp.
Qed.

Lemma flush_step_Good f k w r w' :
  flush_step f k w r w' → Good (mgr w) → Good (mgr w').
Proof.
  destruct 1; intros HG; try done; by apply Good_release.
Qed.

Lemma flushFile_from_Good f n k w r w' :
  flushFile_from (Some f) n k w = (r, w') → Good (mgr w) → Good (mgr w').
Proof.
  revert k w. induction n as [|n IH]; intros k w; cbn [flushFile_from].
  { by intros [= <- <-]. }
  unfold bind. destruct (flush_frame (Some f) k w) as [r1 w1] eqn:Hf.
  apply flush_frame_inv in Hf. intros Hrun HG.
  pose proof (flush_step_Good _ _ _ _ _ Hf HG) as HG1.
  destruct r1; try by injection Hrun as <- <-.
  by eapply IH.
Qed.

Lemma run_Good o w :
  completes (fst (run o w)) → Inv (mgr w) → Good (mgr w) → Good (mgr (snd (run o w))).
Proof.
  destruct o as [f p|f p b|f|f p|f]; cbn [run]; unfold bind.
  - destruct (readPage f p w) as [r w'] eqn:Hrun.
    intros Hc HI HG. assert (Good (mgr w')).
    { eapply readPage_Good; [done| |done..]. by destruct r. }
    by destruct r.
  - destruct (unPinPage f p b w) as [r w'] eqn:Hrun.
    intros Hc HI HG. by eapply unPinPage_Good.
  - destruct (allocPage f w) as [r w'] eqn:Hrun.
    intros Hc HI HG. assert (Good (mgr w')).
    { eapply allocPage_Good; [done| |done..]. by destruct r. }
    by destruct r.
  - destruct (disposePage f p w) as [r w'] eqn:Hrun.
    intros Hc HI HG. by eapply disposePage_Good.
  - destruct (flushFile f w) as [r w'] eqn:Hrun.
    intros Hc HI HG. unfold flushFile, bind, gets in Hrun. destruct f as [f|].
    + by eapply flushFile_from_Good.
    + by destruct (flushFile_from_null_inert _ _ _ _ _ Hrun (proj1 HI) (proj1 (proj2 HI)))
        as (-> & _).
Qed.

Lemma BufMgr_new_Good bufs : 0 ≤ bufs < UINT32_MOD → Good (BufMgr_new bufs).
Proof.
  intros Hb. split; [|split].
  - intros j d g Hd. cbn [BufMgr_new bufDescTable] in Hd.
    apply list_lookup_fmap_Some in Hd as (z & -> & _). discriminate.
  - intros j d Hd. cbn [BufMgr_new bufDescTable] in Hd.
    apply list_lookup_fmap_Some in Hd as (z & -> & _). done.
  - intros HN. cbn [BufMgr_new numBufs clockHand] in *.
    rewrite Z.mod_small by lia. lia.
Qed.

Lemma reachable_Good w : reachable w → Good (mgr w).
Proof.
  induction 1 as [bufs log Hb|o w Hr IH Hc].
  - by apply BufMgr_new_Good.
  - apply run_Good; [done| |done]. by apply reachable_Inv.
Qed.

(** ** When allocBuf gives up *)

Lemma scan_unpinned_false n i w w' :
  scan_unpinned n i w = (Ret false, w') →
  ∀ j, i ≤ j < i + Z.of_nat n →
    ∃ d, nth_Z (bufDescTable (mgr w)) j = Some d ∧ pinCnt d ≠ 0.
Proof.
  revert i. induction n as [|n IH]; intros i; cbn [scan_unpinned].
  - intros _ j Hj. lia.
  - unfold bind, desc_at. destruct (nth_Z _ i) as [d|] eqn:Hd; [|done].
    case_decide; [done|]. intros Hrun j Hj.
    destruct (decide (j = i)) as [->|Hne]; [by exists d|].
    apply (IH _ Hrun). lia.
Qed.

(** Once a sweep of the whole pool has selected nothing and the scan has
    found an unpinned frame, the next sweep selects a frame. *)
Lemma no_second_miss w w1 w3 :
  sweep (Z.to_nat (numBufs (mgr w))) w = (Ret None, w1) →
  scan_unpinned (Z.to_nat (numBufs (mgr w))) 0 w1 = (Ret true, w1) →
  ¬ INT32_MAX1 ≤ numBufs (mgr w) →
  sweep (Z.to_nat (numBufs (mgr w1))) w1 ≠ (Ret None, w3).
Proof.
  intros Hsw1 Hsc HN Hsw2.
  apply scan_unpinned_true in Hsc as (j & dj & Hj & Hdj & Hpj).
  assert (numBufs (mgr w1) = numBufs (mgr w)) as HNeq.
  { by destruct (sweep_None _ _ _ Hsw1) as (-> & _). }
  assert (0 < numBufs (mgr w1) < INT32_MAX1) as HN1 by lia.
  destruct (sweep_None_all w1 w3 HN1 Hsw2 j ltac:(lia))
    as (d & d' & Hd & Hd' & Hsc & Hv & Hr & Hr').
  destruct (sweep_None_all w w1 ltac:(lia) Hsw1 j ltac:(lia))
    as (d0 & d0' & _ & Hd0' & _ & _ & _ & Hr0').
  assert (d0' = d) as -> by congruence.
  assert (d = dj) as -> by congruence.
  specialize (Hr Hr0'). lia.
Qed.

Lemma allocBuf_throw w e w' :
  allocBuf w = (Throw e, w') →
  e = BufferExceededException ∧
  numBufs (mgr w') = numBufs (mgr w) ∧
  bufPool (mgr w') = bufPool (mgr w) ∧
  hashTable (mgr w') = hashTable (mgr w) ∧
  io w' = io w ∧
  (0 ≤ clockHand (mgr w) < numBufs (mgr w) → clockHand (mgr w') = clockHand (mgr w)) ∧
  Forall2 second_chance (bufDescTable (mgr w)) (bufDescTable (mgr w')) ∧
  ∀ i, 0 ≤ i < numBufs (mgr w) →
    ∃ d, nth_Z (bufDescTable (mgr w)) i = Some d ∧
         valid d = true ∧ pinCnt d ≠ 0 ∧
         nth_Z (bufDescTable (mgr w')) i = Some (with_refbit false d).
Proof.
  rewrite allocBuf_unfold. case_decide as HN; [done|].
  destruct (sweep _ w) as [r1 w1] eqn:Hsw1.
  destruct (sweep_no_throw _ _ _ _ Hsw1) as [Hnt1 Hnf1].
  destruct r1 as [[fr|]|e1| |]; [done| |by destruct (Hnt1 e1)|done|done].
  destruct (scan_unpinned _ 0 w1) as [r2 w2] eqn:Hsc1.
  destruct (scan_unpinned_inv _ _ _ _ _ Hsc1) as [-> [-> |[[] ->]]]; [done| |].
  { rewrite allocBuf_loop_S. case_decide; [done|].
    destruct (sweep _ w1) as [r3 w3] eqn:Hsw2.
    destruct (sweep_no_throw _ _ _ _ Hsw2) as [Hnt2 Hnf2].
    destruct r3 as [[fr|]|e3| |]; [done| |by destruct (Hnt2 e3)|done|done].
    by destruct (no_second_miss _ _ _ Hsw1 Hsc1 HN Hsw2). }
  intros [= <- <-]. split; [done|].
  destruct (sweep_None _ _ _ Hsw1) as (HN1 & Hp1 & Hh1 & Hio1 & Hc1 & Ht1 & _).
  split; [done|]. split; [done|]. split; [done|]. split; [done|].
  split. { intros Hc. rewrite Hc1. apply hand_full_turn; lia. }
  split; [done|]. intros i Hi.
  destruct (sweep_None_all w w1 ltac:(lia) Hsw1 i Hi)
    as (d & d' & Hd & Hd' & Hsc & Hv & _ & Hr').
  destruct (scan_unpinned_false _ _ _ _ Hsc1 i ltac:(lia)) as (d1 & Hd1 & Hpin).
  assert (d1 = d') as -> by congruence.
  exists d. split; [done|]. split; [done|].
  pose proof (second_chance_fields _ _ Hsc) as (_ & _ & _ & Hpeq & _).
  split; [lia|]. rewrite Hd'. f_equal. by apply second_chance_cleared.
Qed.

(** X3. allocBuf throws nothing but BufferExceededException, and throws it
    only when every frame of the pool holds a valid page with a pin count
    other than 0.  The failed call has written nothing to any file and has
    changed neither the index nor the pool; it leaves every frame with its
    reference bit down and, when the hand pointed into the pool, the hand
    where it was. *)
Theorem allocBuf_exceeded w e w' :
  allocBuf w = (Throw e, w') →
  e = BufferExceededException ∧
  numBufs (mgr w') = numBufs (mgr w) ∧
  bufPool (mgr w') = bufPool (mgr w) ∧
  hashTable (mgr w') = hashTable (mgr w) ∧
  io w' = io w ∧
  (0 ≤ clockHand (mgr w) < numBufs (mgr w) → clockHand (mgr w') = clockHand (mgr w)) ∧
  ∀ i, 0 ≤ i < numBufs (mgr w) →
    ∃ d, nth_Z (bufDescTable (mgr w)) i = Some d ∧
         valid d = true ∧ pinCnt d ≠ 0 ∧
         nth_Z (bufDescTable (mgr w')) i = Some (with_refbit false d).
Proof.
  intros Hrun.
  destruct (allocBuf_throw _ _ _ Hrun) as (He & HN & Hp & Hh & Hio & Hc & _ & Hall).
  done.
Qed.

(** X2. The outer loop of allocBuf never starts a third round: with fuel
    for two rounds the model gives the result it gives with any larger
    amount, and that result is never the one that stands for running out. *)
Theorem allocBuf_two_rounds n w :
  allocBuf_loop (2 + n) w = allocBuf w ∧ fst (allocBuf w) ≠ OutOfFuel.
Proof. split; [apply allocBuf_loop_fuel; lia|apply allocBuf_terminates]. Qed.

(** ** Invariants of the reachable states *)

(** X4. In every state a client can reach the index and the valid frames
    mirror each other: the index maps a page to a frame exactly when that
    frame is valid and holds the page, and no page is held by two valid
    frames. *)
Theorem index_mirrors_frames w :
  reachable w →
  (∀ f p fr,
     hashTable (mgr w) !! (f, p) = Some fr ↔
     ∃ d, nth_Z (bufDescTable (mgr w)) fr = Some d ∧
          valid d = true ∧ file d = Some f ∧ pageNo d = p) ∧
  (∀ i j d e,
     nth_Z (bufDescTable (mgr w)) i = Some d →
     nth_Z (bufDescTable (mgr w)) j = Some e →
     valid d = true → valid e = true →
     file d = file e → pageNo d = pageNo e → i = j).
Proof.
  intros Hw. pose proof (reachable_Inv _ Hw) as (_ & Ho & Hi).
  pose proof (reachable_Good _ Hw) as (Hm & _).
  assert (∀ i d f, nth_Z (bufDescTable (mgr w)) i = Some d → valid d = true →
            file d = Some f → hashTable (mgr w) !! (f, pageNo d) = Some i) as Hm'.
  { intros i d f [Hi0 Hd]%nth_Z_Some Hv Hf.
    rewrite (Hm _ _ _ Hd Hv Hf). f_equal. lia. }
  split.
  - intros f p fr. split; [apply Hi|].
    intros (d & Hd & Hv & Hf & <-). by apply Hm'.
  - intros i j d e Hd He Hvd Hve Hf Hp.
    pose proof Hd as [_ Hd']%nth_Z_Some.
    destruct (Ho _ _ Hd' Hvd) as [f Hfd].
    pose proof (Hm' _ _ _ Hd Hvd Hfd) as H1.
    rewrite Hf in Hfd. pose proof (Hm' _ _ _ He Hve Hfd) as H2.
    rewrite Hp in H1. congruence.
Qed.

(** X5. In every state a client can reach no pin count is negative, the
    hand points into the pool (when the pool has a frame at all) and the
    descriptor table and the pool have [numBufs] slots each. *)
Theorem reachable_well_formed w :
  reachable w →
  (∀ i d, nth_Z (bufDescTable (mgr w)) i = Some d → 0 ≤ pinCnt d) ∧
  (0 < numBufs (mgr w) → 0 ≤ clockHand (mgr w) < numBufs (mgr w)) ∧
  (∀ i, 0 ≤ i < numBufs (mgr w) ↔ is_Some (nth_Z (bufDescTable (mgr w)) i)) ∧
  (∀ i, 0 ≤ i < numBufs (mgr w) ↔ is_Some (nth_Z (bufPool (mgr w)) i)).
Proof.
  intros Hw. pose proof (reachable_Good _ Hw) as (_ & Hp & Hc).
  pose proof (reachable_sized _ Hw) as (HN & Ht & Hpl).
  split. { intros i d [_ Hd]%nth_Z_Some. by eapply Hp. }
  split; [done|].
  split; intros i; (split;
    [intros Hi; apply nth_Z_is_Some; lia
    |intros [x [Hi0 Hx]%nth_Z_Some]; apply lookup_lt_Some in Hx; lia]).
Qed.

(** ** Fetching and releasing a page *)

(** X6. In a reachable state a fetch that returns can always be undone:
    the unPinPage that follows it returns, touches no file, leaves the page
    in its frame with the reference bit up and the pin count the page had
    before the fetch (0 when it was not resident).  When the page was
    resident, the two calls together change nothing but the reference bit
    and, for a release that marks the page dirty, the dirty bit. *)
Theorem readPage_unPinPage f p b w fr w1 :
  reachable w →
  readPage f p w = (Ret fr, w1) →
  (∃ w2 d2,
     unPinPage f p b w1 = (Ret tt, w2) ∧
     io w2 = io w1 ∧
     hashTable (mgr w2) = hashTable (mgr w1) ∧
     bufPool (mgr w2) = bufPool (mgr w1) ∧
     hashTable (mgr w2) !! (f, p) = Some fr ∧
     nth_Z (bufDescTable (mgr w2)) fr = Some d2 ∧
     pinCnt d2 = pins (mgr w) f p ∧
     refbit d2 = true ∧ valid d2 = true ∧ file d2 = Some f ∧ pageNo d2 = p ∧
     ∀ j, j ≠ fr →
       nth_Z (bufDescTable (mgr w2)) j = nth_Z (bufDescTable (mgr w1)) j) ∧
  (∀ d,
     hashTable (mgr w) !! (f, p) = Some fr →
     nth_Z (bufDescTable (mgr w)) fr = Some d →
     unPinPage f p b w1 =
       (Ret tt,
        mkWorld
          (with_table
             (<[Z.to_nat fr :=
                  mkBufDesc (file d) (pageNo d) (frameNo d) (pinCnt d)
                    (b || dirty d) (valid d) true]>
                (bufDescTable (mgr w))) (mgr w))
          (io w))).
Proof.
  intros Hw Hrun. pose proof (reachable_Inv _ Hw) as HI.
  pose proof (reachable_Good _ Hw) as (_ & Hpin & _).
  rewrite readPage_unfold in Hrun. unfold pins.
  destruct (hashTable (mgr w) !! (f, p)) as [fr0|] eqn:Hh.
  - destruct (proj2 (proj2 HI) _ _ _ Hh) as (d & Hd & Hv & Hf & Hp).
    rewrite Hd in Hrun. injection Hrun as <- <-.
    pose proof Hd as [Hfr0 Hd']%nth_Z_Some.
    pose proof (Hpin _ _ Hd') as Hpos.
    rewrite unPinPage_unfold. mnext.
    rewrite Hh, (nth_Z_insert_eq _ _ _ _ Hd). cbn [pinCnt with_refbit with_pinCnt].
    rewrite decide_False by lia. split.
    + eexists _, _. split; [done|]. mnext. split; [done|]. split; [done|].
      split; [done|]. split; [done|].
      split; [by eapply nth_Z_insert_eq, nth_Z_insert_eq|].
      rewrite Hd. cbn. split; [lia|]. split; [done|]. split; [done|].
      split; [done|]. split; [done|].
      intros j Hj. by rewrite nth_Z_insert_ne.
    + intros d0 _ Hd0. assert (d0 = d) as -> by congruence.
      rewrite list_insert_insert_eq. cbn.
      replace (pinCnt d + 1 - 1) with (pinCnt d) by lia. done.
  - split; [|done].
    destruct (readPage_reply (io w) f p) as [pg|]; [|done].
    destruct (allocBuf _) as [[fr1|e| |] wa]; try done.
    destruct (nth_Z (bufPool (mgr wa)) fr1); [|done]. cbv zeta in Hrun.
    destruct (hashTable (mgr wa) !! (f, p)); [done|].
    destruct (nth_Z (bufDescTable (mgr wa)) fr1) as [da|] eqn:Hda; [|done].
    injection Hrun as <- <-. rewrite unPinPage_unfold.
    unfold install_page. mnext.
    rewrite lookup_insert_eq, (nth_Z_insert_eq _ _ _ _ Hda).
    cbn [pinCnt BufDesc_Set]. rewrite decide_False by lia.
    eexists _, _. split; [done|]. mnext. split; [done|]. split; [done|].
    split; [done|]. split; [by rewrite lookup_insert_eq|].
    split; [by eapply nth_Z_insert_eq, nth_Z_insert_eq|].
    cbn. split; [done|]. split; [done|]. split; [done|]. split; [done|].
    split; [done|].
    intros j Hj. apply nth_Z_Some in Hda as [? _]. by rewrite nth_Z_insert_ne.
Qed.

(** ** disposePage *)

(** X7. In a reachable state disposePage always returns and tells the file
    to delete the page.  It clears exactly the frame that holds the page,
    whatever its pin count and its dirty bit, without writing it back, and
    takes the page out of the index; afterwards no valid frame holds the
    page.  The pool and the hand are untouched. *)
Theorem disposePage_discards f p w :
  reachable w →
  ∃ w',
    disposePage f p w = (Ret tt, w') ∧
    io w' = FDeletePage f p :: io w ∧
    hashTable (mgr w') = delete (f, p) (hashTable (mgr w)) ∧
    bufPool (mgr w') = bufPool (mgr w) ∧
    clockHand (mgr w') = clockHand (mgr w) ∧
    (∀ i d, nth_Z (bufDescTable (mgr w)) i = Some d →
       nth_Z (bufDescTable (mgr w')) i =
         Some (if decide (valid d = true ∧ file d = Some f ∧ pageNo d = p)
               then BufDesc_Clear d else d)) ∧
    (∀ i d', nth_Z (bufDescTable (mgr w')) i = Some d' →
       valid d' = true → (file d', pageNo d') ≠ (Some f, p)).
Proof.
  intros Hw. pose proof (reachable_Inv _ Hw) as HI.
  pose proof (reachable_Good _ Hw) as (Hm & _).
  assert (∀ i d, nth_Z (bufDescTable (mgr w)) i = Some d → valid d = true →
            file d = Some f → pageNo d = p →
            hashTable (mgr w) !! (f, p) = Some i) as Hm'.
  { intros i d [Hi0 Hd]%nth_Z_Some Hv Hf <-.
    rewrite (Hm _ _ _ Hd Hv Hf). f_equal. lia. }
  rewrite disposePage_unfold.
  destruct (hashTable (mgr w) !! (f, p)) as [fr|] eqn:Hh.
  - destruct (proj2 (proj2 HI) _ _ _ Hh) as (d & Hd & Hv & Hf & Hp).
    rewrite Hd. eexists. split; [done|]. mnext.
    split; [done|]. split; [done|]. split; [done|]. split; [done|].
    pose proof Hd as [Hfr0 _]%nth_Z_Some.
    assert (∀ i x, nth_Z (bufDescTable (mgr w)) i = Some x →
              nth_Z (<[Z.to_nat fr := BufDesc_Clear d]> (bufDescTable (mgr w))) i =
              Some (if decide (valid x = true ∧ file x = Some f ∧ pageNo x = p)
                    then BufDesc_Clear x else x)) as Hframes.
    { intros i x Hx. destruct (decide (i = fr)) as [->|Hne].
      + assert (x = d) as -> by congruence.
        rewrite (nth_Z_insert_eq _ _ _ _ Hd). by rewrite decide_True.
      + rewrite nth_Z_insert_ne by done. rewrite Hx. case_decide as Hc; [|done].
        destruct Hc as (Hxv & Hxf & Hxp).
        pose proof (Hm' _ _ Hx Hxv Hxf Hxp). congruence. }
    split; [done|].
    intros i d' Hd' Hv' [= Hf' Hp'].
    destruct (decide (i = fr)) as [->|Hne].
    + rewrite (nth_Z_insert_eq _ _ _ _ Hd) in Hd'. injection Hd' as <-. done.
    + rewrite nth_Z_insert_ne in Hd' by done.
      pose proof (Hm' _ _ Hd' Hv' Hf' Hp'). congruence.
  - eexists. split; [done|]. mnext. split; [done|].
    split; [by rewrite delete_id|]. split; [done|]. split; [done|].
    split.
    + intros i d Hd. rewrite Hd. case_decide as Hc; [|done].
      destruct Hc as (Hxv & Hxf & Hxp).
      pose proof (Hm' _ _ Hd Hxv Hxf Hxp). congruence.
    + intros i d' Hd' Hv' [= Hf' Hp'].
      pose proof (Hm' _ _ Hd' Hv' Hf' Hp'). congruence.
Qed.

(** ** A flush that goes through *)



(** ** Flushing twice *)

Lemma flushFile_from_done f (n : nat) i w w' :
  flushFile_from (Some f) n i w = (Ret tt, w') → 0 ≤ i →
  numBufs (mgr w') = numBufs (mgr w) ∧
  (∀ j, i ≤ j < i + Z.of_nat n →
     ∃ d', nth_Z (bufDescTable (mgr w')) j = Some d' ∧ file d' ≠ Some f) ∧
  (∀ j, j < i → nth_Z (bufDescTable (mgr w')) j = nth_Z (bufDescTable (mgr w)) j).
Proof.
  revert i w. induction n as [|n IH]; intros i w; cbn [flushFile_from].
  { intros [= <-] Hi. split; [done|]. split; [intros j Hj; lia|done]. }
  unfold bind. destruct (flush_frame (Some f) i w) as [r1 w1] eqn:Hf.
  apply flush_frame_inv in Hf. intros Hrun Hi.
  destruct r1 as [[]| | |]; try done.
  destruct (IH _ _ Hrun ltac:(lia)) as (HN & Hin & Hbelow).
  assert (numBufs (mgr w1) = numBufs (mgr w) ∧
          (∃ d1, nth_Z (bufDescTable (mgr w1)) i = Some d1 ∧ file d1 ≠ Some f) ∧
          ∀ j, j ≠ i → nth_Z (bufDescTable (mgr w1)) j = nth_Z (bufDescTable (mgr w)) j)
    as (HN1 & (d1 & Hd1 & Hf1) & Hoth).
  { inversion Hf as [|d Hd Hfd|d Hd Hfd Hp|d Hd Hfd Hp Hv
                    |d Hd Hfd Hp Hv Hdy|d pg Hd Hfd Hp Hv Hdy Hpg|]; subst.
    - split; [done|]. split; [by exists d|done].
    - split; [done|]. split.
      + exists (BufDesc_Clear d). split; [|done]. cbn. by eapply nth_Z_insert_eq.
      + intros j Hj. cbn. by rewrite nth_Z_insert_ne.
    - split; [done|]. split.
      + exists (BufDesc_Clear d). split; [|done]. cbn. by eapply nth_Z_insert_eq.
      + intros j Hj. cbn. by rewrite nth_Z_insert_ne. }
  split; [lia|]. split.
  - intros j Hj. destruct (decide (j = i)) as [->|Hne].
    + exists d1. by rewrite Hbelow by lia.
    + apply Hin. lia.
  - intros j Hj. rewrite Hbelow by lia. apply Hoth. lia.
Qed.

Lemma flushFile_from_other f (n : nat) i w :
  (∀ j, i ≤ j < i + Z.of_nat n →
     ∃ d, nth_Z (bufDescTable (mgr w)) j = Some d ∧ file d ≠ Some f) →
  flushFile_from (Some f) n i w = (Ret tt, w).
Proof.
  revert i. induction n as [|n IH]; intros i Hall; cbn [flushFile_from]; [done|].
  destruct (Hall i ltac:(lia)) as (d & Hd & Hf).
  rewrite (bind_Ret _ _ _ tt w).
  2:{ apply flush_step_run. by eapply flush_other. }
  apply IH. intros j Hj. apply Hall. lia.
Qed.

(** X9. A flush of a file object that has returned has nothing left to do:
    flushing the same file again right away returns and changes nothing,
    file calls included. *)
Theorem flushFile_twice f w w1 :
  flushFile (Some f) w = (Ret tt, w1) → flushFile (Some f) w1 = (Ret tt, w1).
Proof.
  unfold flushFile, bind, gets. intros Hrun.
  destruct (flushFile_from_done _ _ _ _ _ Hrun ltac:(lia)) as (HN & Hin & _).
  rewrite HN. by apply flushFile_from_other.
Qed.

(** ** The destructor *)

Lemma dirty_writes_cons d t pg ps :
  dirty_writes (d :: t) (pg :: ps) =
  match writeback d pg with
  | Some c => c :: dirty_writes t ps
  | None => dirty_writes t ps
  end.
Proof. reflexivity. Qed.

Lemma destroy_frame_clean w i d :
  nth_Z (bufDescTable (mgr w)) i = Some d → dirty d = false →
  destroy_frame i w = (Ret tt, w).
Proof.
  intros Hd Hdirty. unfold destroy_frame.
  rewrite (bind_Ret _ _ _ _ _ (desc_at_run _ _ _ Hd)). by rewrite Hdirty.
Qed.

Lemma destroy_frame_dirty w i d f pg :
  nth_Z (bufDescTable (mgr w)) i = Some d → dirty d = true →
  file d = Some f → nth_Z (bufPool (mgr w)) i = Some pg →
  destroy_frame i w =
    (Ret tt,
     mkWorld (with_table (<[Z.to_nat i := with_dirty false d]> (bufDescTable (mgr w)))
                (mgr w))
             (FWritePage f pg :: io w)).
Proof.
  intros Hd Hdirty Hf Hpg. unfold destroy_frame.
  rewrite (bind_Ret _ _ _ _ _ (desc_at_run _ _ _ Hd)). rewrite Hdirty, Hf.
  rewrite (bind_Ret _ _ _ _ _ (page_at_run _ _ _ Hpg)).
  unfold bind at 1, file_writePage, emit.
  by rewrite (update_desc_run _ _ d).
Qed.

Lemma with_dirty_id d : dirty d = false → with_dirty false d = d.
Proof. destruct d. cbn. by intros ->. Qed.

Lemma destroy_from_spec (n k : nat) w :
  (∀ j : nat, (k ≤ j < k + n)%nat →
     ∃ d pg, bufDescTable (mgr w) !! j = Some d ∧ bufPool (mgr w) !! j = Some pg ∧
             (dirty d = true → is_Some (file d))) →
  ∃ w',
    destroy_from n (Z.of_nat k) w = (Ret tt, w') ∧
    numBufs (mgr w') = numBufs (mgr w) ∧
    bufPool (mgr w') = bufPool (mgr w) ∧
    hashTable (mgr w') = hashTable (mgr w) ∧
    clockHand (mgr w') = clockHand (mgr w) ∧
    length (bufDescTable (mgr w')) = length (bufDescTable (mgr w)) ∧
    io w' = rev (dirty_writes (take n (drop k (bufDescTable (mgr w))))
                   (drop k (bufPool (mgr w)))) ++ io w ∧
    ∀ (j : nat) d, bufDescTable (mgr w) !! j = Some d →
      bufDescTable (mgr w') !! j =
        Some (if decide (k ≤ j < k + n)%nat then with_dirty false d else d).
Proof.
  revert k w. induction n as [|n IH]; intros k w Hall; cbn [destroy_from].
  { exists w. split; [done|]. split; [done|]. split; [done|]. split; [done|].
    split; [done|]. split; [done|]. split; [done|].
    intros j d Hd. rewrite decide_False by lia. done. }
  destruct (Hall k ltac:(lia)) as (d & pg & Hd & Hpg & Hown).
  rewrite (drop_S _ _ _ Hd), (drop_S _ _ _ Hpg). cbn [take].
  rewrite dirty_writes_cons. unfold writeback.
  replace (Z.of_nat k + 1) with (Z.of_nat (S k)) by lia.
  destruct (dirty d) eqn:Hdirty.
  - destruct (Hown eq_refl) as [f Hf]. rewrite Hf. cbn [fmap option_fmap option_map].
    rewrite (bind_Ret _ _ _ _ _ (destroy_frame_dirty w (Z.of_nat k) d f pg
      ltac:(by rewrite nth_Z_of_nat) Hdirty Hf ltac:(by rewrite nth_Z_of_nat))).
    rewrite Nat2Z.id.
    set (w1 := mkWorld _ _).
    destruct (IH (S k) w1) as (w' & Hrun & HN & Hp & Hh & Hc & Hlen & Hio & Hframes).
    { intros j Hj. destruct (Hall j ltac:(lia)) as (dj & pgj & Hdj & Hpgj & Hownj).
      exists dj, pgj. subst w1. cbn. rewrite list_lookup_insert_ne by lia. done. }
    exists w'. split; [done|]. split; [done|]. split; [done|]. split; [done|].
    split; [done|]. split. { rewrite Hlen. subst w1. cbn. apply length_insert. }
    split.
    { rewrite Hio. subst w1. cbn [mgr io bufDescTable bufPool with_table].
      rewrite drop_insert_lt by lia. cbn [rev]. by rewrite <-app_assoc. }
    intros j dj Hdj. destruct (decide (j = k)) as [->|Hne].
    + assert (dj = d) as -> by congruence.
      rewrite (Hframes k (with_dirty false d)).
      * rewrite decide_False by lia. by rewrite decide_True by lia.
      * subst w1. cbn. apply list_lookup_insert_eq. by eapply lookup_lt_Some.
    + rewrite (Hframes j dj).
      * f_equal. repeat case_decide; try lia; done.
      * subst w1. cbn. by rewrite list_lookup_insert_ne.
  - rewrite (bind_Ret _ _ _ _ _ (destroy_frame_clean w (Z.of_nat k) d
      ltac:(by rewrite nth_Z_of_nat) Hdirty)).
    destruct (IH (S k) w) as (w' & Hrun & HN & Hp & Hh & Hc & Hlen & Hio & Hframes).
    { intros j Hj. apply Hall. lia. }
    exists w'. split; [done|]. split; [done|]. split; [done|]. split; [done|].
    split; [done|]. split; [done|]. split; [done|].
    intros j dj Hdj. rewrite (Hframes j dj Hdj).
    destruct (decide (j = k)) as [->|Hne].
    + assert (dj = d) as -> by congruence.
      rewrite decide_False by lia. rewrite decide_True by lia.
      by rewrite with_dirty_id.
    + f_equal. repeat case_decide; try lia; done.
Qed.

(** X10. In a reachable state the loop of the destructor runs to its end:
    it writes the content of every dirty frame to the file that owns it, in
    ascending frame order and whatever the pin counts, makes no other file
    call, and leaves every frame clean.  The index, the pool and the hand
    are as they were when the structures are released. *)
Theorem destructor_writes_back w :
  reachable w →
  ∃ w',
    BufMgr_destroy w = (Ret tt, w') ∧
    io w' = rev (dirty_writes (bufDescTable (mgr w)) (bufPool (mgr w))) ++ io w ∧
    bufDescTable (mgr w') = with_dirty false <$> bufDescTable (mgr w) ∧
    bufPool (mgr w') = bufPool (mgr w) ∧
    hashTable (mgr w') = hashTable (mgr w) ∧
    clockHand (mgr w') = clockHand (mgr w).
Proof.
  intros Hw. pose proof (reachable_Inv _ Hw) as (Hdi & Ho & _).
  pose proof (reachable_sized _ Hw) as (HN & Ht & Hpl).
  unfold BufMgr_destroy, bind, gets.
  destruct (destroy_from_spec (Z.to_nat (numBufs (mgr w))) 0 w)
    as (w' & Hrun & _ & Hp & Hh & Hc & Hlen & Hio & Hframes).
  { intros j Hj.
    destruct (lookup_lt_is_Some_2 (bufDescTable (mgr w)) j ltac:(lia)) as [d Hd].
    destruct (lookup_lt_is_Some_2 (bufPool (mgr w)) j ltac:(lia)) as [pg Hpg].
    exists d, pg. split; [done|]. split; [done|]. intros Hdirty.
    destruct (valid d) eqn:Hv; [by eapply Ho|].
    destruct (Hdi _ _ Hd Hv) as (_ & Hclean & _). congruence. }
  exists w'. split; [done|].
  rewrite drop_0, take_ge in Hio by lia.
  split; [done|]. split; [|done].
  apply list_eq. intros j. rewrite list_lookup_fmap.
  destruct (bufDescTable (mgr w) !! j) as [d|] eqn:Hd.
  - rewrite (Hframes _ _ Hd). rewrite decide_True; [done|].
    apply lookup_lt_Some in Hd. lia.
  - apply lookup_ge_None in Hd. apply lookup_ge_None. lia.
Qed.

(** ** Filling a fresh pool *)

Lemma allocBuf_invalid_next w d :
  shape (mgr w) →
  nth_Z (bufDescTable (mgr w)) (hand_step (numBufs (mgr w)) (clockHand (mgr w))) = Some d →
  valid d = false →
  allocBuf w = (Ret (hand_step (numBufs (mgr w)) (clockHand (mgr w))), advanced w).
Proof.
  intros (HN & _) Hd Hv.
  assert (visit w = (Ret (Some (hand_step (numBufs (mgr w)) (clockHand (mgr w)))),
                     advanced w)) as Hvisit.
  { apply visit_step_run. eapply visit_invalid; try done. lia. }
  rewrite allocBuf_unfold. rewrite decide_False by lia.
  destruct (Z.to_nat (numBufs (mgr w))) as [|n] eqn:Hn; [lia|].
  cbn [sweep]. by rewrite (bind_Ret _ _ _ _ _ Hvisit).
Qed.

Lemma hand_after_filled N k :
  0 < N < INT32_MAX1 → 0 ≤ k < N → hand_step N ((k - 1) mod N) = k.
Proof.
  intros HN Hk. rewrite hand_step_small; [|done|by apply Z.mod_pos_bound; lia].
  destruct (decide (k = 0)) as [->|Hk0].
  - replace (0 - 1) with (N - 1 + (-1) * N) by lia.
    rewrite Z_mod_plus_full, (Z.mod_small (N - 1)) by lia.
    replace (N - 1 + 1) with (0 + 1 * N) by lia.
    rewrite Z_mod_plus_full. by apply Z.mod_small.
  - rewrite (Z.mod_small (k - 1)) by lia.
    replace (k - 1 + 1) with k by lia. by apply Z.mod_small.
Qed.

(** X11. A fresh pool hands out its frames in ascending order.  The
    constructor leaves no frame handed out; and while frames [0, k) have
    been handed out and frame [k] exists, fetching a page that is not
    resident puts it into frame [k], moves the hand there, evicts nothing
    and calls the file only to read the page. *)
Theorem fresh_frames_in_order :
  (∀ bufs, 0 < bufs < INT32_MAX1 →
     shape (BufMgr_new bufs) ∧ filled 0 (BufMgr_new bufs)) ∧
  (∀ f p k w pg,
     shape (mgr w) → filled k (mgr w) → k < numBufs (mgr w) →
     hashTable (mgr w) !! (f, p) = None →
     readPage_reply (io w) f p = Some pg →
     ∃ d,
       nth_Z (bufDescTable (mgr w)) k = Some d ∧
       readPage f p w =
         (Ret k,
          mkWorld (install_page k f p pg d (with_clock k (mgr w)))
                  (FReadPage f p :: io w)) ∧
       filled (k + 1) (install_page k f p pg d (with_clock k (mgr w))) ∧
       shape (install_page k f p pg d (with_clock k (mgr w)))).
Proof.
  split.
  - intros bufs Hb. split.
    + split; [exact Hb|]. cbn [BufMgr_new bufDescTable bufPool numBufs].
      by rewrite length_fmap, length_seqZ, length_replicate.
    + split; [cbn; lia|]. split.
      * cbn [BufMgr_new numBufs clockHand]. unfold INT32_MAX1, UINT32_MOD in *.
        replace (0 - 1) with (bufs - 1 + (-1) * bufs) by lia.
        rewrite Z_mod_plus_full, !Z.mod_small by lia. done.
      * intros j d _ [_ Hd]%nth_Z_Some. cbn [BufMgr_new bufDescTable] in Hd.
        by apply list_lookup_fmap_Some in Hd as (z & -> & _).
  - intros f p k w pg Hsh (Hk & Hhand & Hinv) HkN Hh Hr.
    pose proof Hsh as (HN & Hlen & Hplen).
    assert (0 ≤ k < Z.of_nat (length (bufDescTable (mgr w)))) as Hkt by lia.
    assert (0 ≤ k < Z.of_nat (length (bufPool (mgr w)))) as Hkp by lia.
    destruct (nth_Z_is_Some _ _ Hkt) as [d Hd].
    destruct (nth_Z_is_Some _ _ Hkp) as [pg0 Hpg0].
    pose proof (Hinv k d ltac:(lia) Hd) as Hv.
    set (w0 := mkWorld (mgr w) (FReadPage f p :: io w)).
    assert (hand_step (numBufs (mgr w0)) (clockHand (mgr w0)) = k) as Hstep.
    { subst w0. cbn [mgr]. rewrite Hhand. apply hand_after_filled; lia. }
    pose proof (allocBuf_invalid_next w0 d Hsh ltac:(by rewrite Hstep) Hv) as Ha.
    rewrite Hstep in Ha.
    assert (mgr (advanced w0) = with_clock k (mgr w)) as Hadv.
    { unfold advanced. by rewrite Hstep. }
    destruct (readPage_loads f p w pg k (advanced w0) d pg0 Hh Hr Ha)
      as (Hrun & _); [by rewrite Hadv..|].
    exists d. split; [done|]. rewrite Hadv in Hrun. split; [done|]. split.
    + split; [cbn; lia|]. split.
      * cbn. replace (k + 1 - 1) with k by lia. rewrite Z.mod_small; [done|lia].
      * intros j x Hj Hx. cbn in Hx. rewrite nth_Z_insert_ne in Hx by lia.
        by eapply (Hinv j); [lia|].
    + split; [done|]. cbn. by rewrite !length_insert.
Qed.

(** ** What victim selection costs *)

Lemma BufDesc_Clear_second_chance d d' :
  second_chance d d' → BufDesc_Clear d' = BufDesc_Clear d.
Proof. by intros [-> | ->]. Qed.

Lemma evicted_after w w1 w2 fr :
  hashTable (mgr w1) = hashTable (mgr w) → io w1 = io w →
  bufPool (mgr w1) = bufPool (mgr w) →
  Forall2 second_chance (bufDescTable (mgr w)) (bufDescTable (mgr w1)) →
  evicted w1 w2 fr → evicted w w2 fr.
Proof.
  intros Hh Hio Hp Ht (d1 & f & Hd1 & Hv & Hpin & Hf & Hd2 & Hh2 & Hwr).
  apply nth_Z_Some in Hd1 as [Hfr Hd1].
  destruct (Forall2_lookup_r _ _ _ _ _ Ht Hd1) as (d & Hd & Hsc).
  pose proof (second_chance_fields _ _ Hsc) as (Ef & Ep & _ & Epin & Edi & Ev & _).
  exists d, f. split; [by apply nth_Z_Some|].
  split; [congruence|]. split; [lia|]. split; [congruence|].
  split. { by rewrite <-(BufDesc_Clear_second_chance _ _ Hsc). }
  split. { by rewrite Hh2, Hh, Ep. }
  rewrite <-Edi. destruct (dirty d1).
  - destruct Hwr as (pg & Hpg & Hio2). exists pg. by rewrite <-Hp, <-Hio.
  - by rewrite <-Hio.
Qed.

Lemma visit_step_effect w r w' :
  visit_step w r w' →
  (hashTable (mgr w') = hashTable (mgr w) ∧ io w' = io w) ∨
  (∃ fr, r = Ret (Some fr) ∧ evicted w w' fr).
Proof.
  destruct 1 as [HN|HN Hd|d HN Hd Hv|d HN Hd Hv Hr|d HN Hd Hv Hr Hp
                |d f HN Hd Hv Hr Hp Hdi Hf|d f pg HN Hd Hv Hr Hp Hdi Hf Hpg
                |d f HN Hd Hv Hr Hp Hdi Hf Hpg|d HN Hd Hv Hr Hp Hdi Hf
                |d HN Hd Hv Hr Hp Hdi Hf];
    try (by left).
  - right. eexists. split; [done|]. exists d, f.
    split; [done|]. split; [done|]. split; [done|]. split; [done|].
    split. { cbn. by eapply nth_Z_insert_eq. }
    split; [done|]. by rewrite Hdi.
  - right. eexists. split; [done|]. exists d, f.
    split; [done|]. split; [done|]. split; [done|]. split; [done|].
    split. { cbn. by eapply nth_Z_insert_eq. }
    split; [done|]. rewrite Hdi. by exists pg.
Qed.

Lemma sweep_effect n w r w' :
  sweep n w = (r, w') →
  (hashTable (mgr w') = hashTable (mgr w) ∧ io w' = io w) ∨
  (∃ fr, r = Ret (Some fr) ∧ evicted w w' fr).
Proof.
  revert n w r w'.
  apply (sweep_ind_step (λ w r w',
    (hashTable (mgr w') = hashTable (mgr w) ∧ io w' = io w) ∨
    (∃ fr, r = Ret (Some fr) ∧ evicted w w' fr))).
  - intros w. by left.
  - intros w fr w1 Hs. by eapply visit_step_effect.
  - intros w w1 Hs. by eapply visit_step_effect.
  - intros w w1 r w2 Hs IH.
    destruct (visit_step_None_facts _ _ Hs) as (_ & Hp & Ht).
    destruct (visit_step_effect _ _ _ Hs) as [[Hh Hio]|(fr & [=] & _)].
    destruct IH as [[Hh2 Hio2]|(fr & -> & Hev)].
    + left. split; congruence.
    + right. exists fr. split; [done|]. by eapply evicted_after.
Qed.

Lemma allocBuf_loop_effect fuel w r w' :
  allocBuf_loop fuel w = (r, w') →
  (hashTable (mgr w') = hashTable (mgr w) ∧ io w' = io w) ∨
  (∃ fr, r = Ret fr ∧ evicted w w' fr).
Proof.
  revert w r w'. induction fuel as [|fuel IH]; intros w r w'; cbn [allocBuf_loop].
  { intros [= <- <-]. by left. }
  unfold bind at 1, gets at 1. case_decide.
  { intros [= <- <-]. by left. }
  unfold bind at 1.
  destruct (sweep _ w) as [r1 w1] eqn:Hsw. intros Hrun.
  pose proof (sweep_effect _ _ _ _ Hsw) as Heff.
  destruct r1 as [[fr|]|e| |].
  - injection Hrun as <- <-.
    destruct Heff as [?|(fr' & [= <-] & Hev)]; [by left|]. right. by exists fr.
  - destruct Heff as [[Hh Hio]|(fr' & [=] & _)].
    destruct (sweep_None _ _ _ Hsw) as (_ & Hp1 & _ & _ & _ & Ht1 & _).
    unfold bind in Hrun.
    destruct (scan_unpinned _ 0 w1) as [r2 w2] eqn:Hsc.
    destruct (scan_unpinned_inv _ _ _ _ _ Hsc) as [-> [-> |[b ->]]].
    { injection Hrun as <- <-. by left. }
    destruct b.
    + destruct (IH _ _ _ Hrun) as [[Hh2 Hio2]|(fr & -> & Hev)].
      * left. split; congruence.
      * right. exists fr. split; [done|]. by eapply evicted_after.
    + injection Hrun as <- <-. by left.
  - injection Hrun as <- <-. destruct Heff as [?|(fr' & [=] & _)]. by left.
  - injection Hrun as <- <-. destruct Heff as [?|(fr' & [=] & _)]. by left.
  - injection Hrun as <- <-. destruct Heff as [?|(fr' & [=] & _)]. by left.
Qed.

(** X12. One call of allocBuf evicts at most one page and makes at most one
    file call.  Either it leaves the index and the files alone, or it
    returns a frame that held a valid page with no pin: that page alone is
    out of the index, the frame is cleared, and the frame's content was
    written to the page's file if and only if the frame was dirty.  The
    content of the pool never changes. *)
Theorem allocBuf_one_eviction w r w' :
  allocBuf w = (r, w') →
  bufPool (mgr w') = bufPool (mgr w) ∧
  ((hashTable (mgr w') = hashTable (mgr w) ∧ io w' = io w) ∨
   (∃ fr, r = Ret fr ∧ evicted w w' fr)).
Proof.
  intros Hrun. split.
  - by destruct (allocBuf_loop_sweeps_to _ _ _ _ Hrun) as (_ & -> & _).
  - by eapply allocBuf_loop_effect.
Qed.

Lemma allocBuf_io w r w' :
  allocBuf w = (r, w') →
  io w' = io w ∨ ∃ g pg, io w' = FWritePage g pg :: io w.
Proof.
  intros Hrun.
  destruct (allocBuf_loop_effect _ _ _ _ Hrun)
    as [[_ Hio]|(fr & _ & d & g & _ & _ & _ & _ & _ & _ & Hwr)]; [by left|].
  destruct (dirty d); [|by left].
  destruct Hwr as (pg & _ & Hio). right. by exists g, pg.
Qed.

(** ** allocPage *)

(** X13. When allocPage returns, the page number is the one the file's
    allocatePage gave; the page sits in the returned frame with the content
    the file's readPage gave for it, pinned once, clean, valid and
    referenced, and the index maps it to that frame.  The file was called to
    allocate, then at most once to write a victim back, then to read the new
    page.  Fetching the page right away finds it resident in the same frame
    and makes no file call. *)
Theorem allocPage_installs f w p fr w' :
  allocPage f w = (Ret (p, fr), w') →
  p = page_number (allocatePage_reply (io w) f) ∧
  hashTable (mgr w') !! (f, p) = Some fr ∧
  (∃ d', nth_Z (bufDescTable (mgr w')) fr = Some d' ∧
         file d' = Some f ∧ pageNo d' = p ∧ pinCnt d' = 1 ∧
         dirty d' = false ∧ valid d' = true ∧ refbit d' = true) ∧
  (∃ pg log,
     io w' = FReadPage f p :: log ∧
     readPage_reply log f p = Some pg ∧
     nth_Z (bufPool (mgr w')) fr = Some pg ∧
     (log = FAllocatePage f :: io w ∨
      ∃ g pg', log = FWritePage g pg' :: FAllocatePage f :: io w)) ∧
  (∃ w2 d2,
     readPage f p w' = (Ret fr, w2) ∧ io w2 = io w' ∧
     nth_Z (bufDescTable (mgr w2)) fr = Some d2 ∧ pinCnt d2 = 2).
Proof.
  rewrite allocPage_unfold. cbv zeta.
  destruct (allocBuf _) as [[fr1|e| |] w2] eqn:Ha; try done.
  pose proof (allocBuf_io _ _ _ Ha) as Hio. cbn [io] in Hio.
  destruct (readPage_reply (io w2) f _) as [pg|] eqn:Hr; [|done].
  destruct (nth_Z (bufPool (mgr w2)) fr1) as [pg0|] eqn:Hpg0; [|done].
  destruct (hashTable (mgr w2) !! (f, _)) eqn:Hh2; [done|].
  destruct (nth_Z (bufDescTable (mgr w2)) fr1) as [d2|] eqn:Hd2; [|done].
  intros [= <- <- <-]. split; [done|]. unfold install_page. mnext.
  split; [apply lookup_insert_eq|].
  split. { eexists. split; [by eapply nth_Z_insert_eq|]. done. }
  split.
  { exists pg, (io w2). split; [done|]. split; [done|].
    split; [by eapply nth_Z_insert_eq|].
    destruct Hio as [->|(g & pg' & ->)]; [by left|right; by exists g, pg']. }
  rewrite readPage_unfold. mnext.
  rewrite lookup_insert_eq, (nth_Z_insert_eq _ _ _ _ Hd2).
  eexists _, _. split; [done|]. split; [done|]. mnext.
  split; [by eapply nth_Z_insert_eq, nth_Z_insert_eq|]. done.
Qed.

(** ** When no frame can be had *)

(** X14. When readPage or allocPage fails with BufferExceededException,
    the call to the file has already been made: the log has grown by the
    read of the page fetched, or by the allocation of a page that nothing
    then releases.  Nothing else happened to the files; the index and the
    pool are as before, no page was evicted, and every frame holds a valid
    page with a pin count other than 0. *)
Theorem exceeded_after_file_call :
  (∀ f p w w',
     readPage f p w = (Throw BufferExceededException, w') →
     io w' = FReadPage f p :: io w ∧
     hashTable (mgr w') = hashTable (mgr w) ∧
     bufPool (mgr w') = bufPool (mgr w) ∧
     ∀ i, 0 ≤ i < numBufs (mgr w) →
       ∃ d, nth_Z (bufDescTable (mgr w)) i = Some d ∧
            valid d = true ∧ pinCnt d ≠ 0 ∧
            nth_Z (bufDescTable (mgr w')) i = Some (with_refbit false d)) ∧
  (∀ f w w',
     allocPage f w = (Throw BufferExceededException, w') →
     io w' = FAllocatePage f :: io w ∧
     hashTable (mgr w') = hashTable (mgr w) ∧
     bufPool (mgr w') = bufPool (mgr w) ∧
     ∀ i, 0 ≤ i < numBufs (mgr w) →
       ∃ d, nth_Z (bufDescTable (mgr w)) i = Some d ∧
            valid d = true ∧ pinCnt d ≠ 0 ∧
            nth_Z (bufDescTable (mgr w')) i = Some (with_refbit false d)).
Proof.
  split.
  - intros f p w w'. rewrite readPage_unfold.
    destruct (hashTable (mgr w) !! (f, p)) as [fr|] eqn:Hh.
    { by destruct (nth_Z (bufDescTable (mgr w)) fr). }
    destruct (readPage_reply (io w) f p) as [pg|]; [|done].
    destruct (allocBuf _) as [[fr1|e| |] w2] eqn:Ha; try done.
    + destruct (nth_Z (bufPool (mgr w2)) fr1); [|done]. cbv zeta.
      destruct (hashTable (mgr w2) !! (f, p)); [done|].
      by destruct (nth_Z (bufDescTable (mgr w2)) fr1).
    + intros [= -> <-].
      by destruct (allocBuf_throw _ _ _ Ha) as (_ & _ & Hp & Hh2 & Hio & _ & _ & Hall).
  - intros f w w'. rewrite allocPage_unfold. cbv zeta.
    destruct (allocBuf _) as [[fr1|e| |] w2] eqn:Ha; try done.
    + destruct (readPage_reply (io w2) f _); [|done].
      destruct (nth_Z (bufPool (mgr w2)) fr1); [|done].
      destruct (hashTable (mgr w2) !! (f, _)); [done|].
      by destruct (nth_Z (bufDescTable (mgr w2)) fr1).
    + intros [= -> <-].
      by destruct (allocBuf_throw _ _ _ Ha) as (_ & _ & Hp & Hh2 & Hio & _ & _ & Hall).
Qed.

(** ** A fetch that finds room *)

Lemma allocBuf_finds w :
  shape (mgr w) → owner_inv (mgr w) →
  (∃ (j : nat) d, bufDescTable (mgr w) !! j = Some d ∧ pinCnt d = 0) →
  ∃ fr w', allocBuf w = (Ret fr, w').
Proof.
  intros Hsh Ho (j & d & Hd & Hp). pose proof Hsh as (HN & Hlen & Hplen).
  rewrite allocBuf_unfold. rewrite decide_False by lia.
  destruct (sweep _ w) as [r1 w1] eqn:Hsw.
  pose proof (sweep_defined _ _ _ _ Hsw Hsh Ho) as Hdef.
  destruct (sweep_no_throw _ _ _ _ Hsw) as [Hnt Hnf].
  destruct r1 as [[fr|]|e| |]; [by eexists _, _| |by destruct (Hnt e)|done|done].
  destruct (sweep_None _ _ _ Hsw) as (HN1 & Hp1 & Hh1 & Hio1 & Hc1 & Ht1 & _).
  pose proof (sweep_None_all _ _ HN Hsw) as Hvis.
  assert (shape (mgr w1)) as Hsh1 by by eapply shape_second_chance.
  assert (owner_inv (mgr w1)) as Ho1 by by eapply owner_inv_second_chance.
  assert (Z.of_nat j < numBufs (mgr w)) as Hj.
  { apply lookup_lt_Some in Hd. lia. }
  destruct (Hvis (Z.of_nat j) ltac:(lia)) as (dj & dj' & Hdj & Hdj' & Hsc & _).
  rewrite nth_Z_of_nat in Hdj. assert (dj = d) as -> by congruence.
  apply second_chance_fields in Hsc as (_ & _ & _ & Hpin & _).
  rewrite (scan_unpinned_finds _ _ _ (Z.of_nat j) dj'); [|
    |lia|done|lia].
  2:{ intros k Hk. apply nth_Z_is_Some. destruct Hsh1 as (_ & Hl1 & _). lia. }
  rewrite allocBuf_loop_S. rewrite decide_False by lia.
  destruct (sweep_finds (Z.to_nat (numBufs (mgr w1))) w1 Hsh1) as (fr & w' & Hsw2).
  + intros k x Hx Hvx.
    assert (Z.of_nat k < numBufs (mgr w)) as Hk.
    { apply lookup_lt_Some in Hx. destruct Hsh1 as (_ & Hl1 & _). lia. }
    destruct (Hvis (Z.of_nat k) ltac:(lia)) as (dk & dk' & _ & Hdk' & _ & _ & _ & Hrk).
    rewrite nth_Z_of_nat in Hdk'. assert (dk' = x) as -> by congruence.
    split; [done|]. by eapply Ho1.
  + destruct (hand_cover (numBufs (mgr w1)) (clockHand (mgr w1)) (Z.of_nat j))
      as (j0 & Hj0 & Hpos); [lia..|].
    exists j0, dj'. split; [done|]. rewrite Hpos. split; [done|lia].
  + rewrite Hsw2. by eexists _, _.
Qed.

(** X15. In a reachable state with fewer than 2^31 frames, fetching a page
    that is not resident but exists in the file succeeds as soon as one
    frame has pin count 0.  The frame returned had pin count 0; it now holds
    the page with the content the file gave, pinned once, clean and
    referenced, and the index maps the page to it.  Every other resident
    page stays in the index in its frame with its content; the page that
    was in the returned frame, if any, is no longer resident. *)
Theorem readPage_fetches f p w pg :
  reachable w → numBufs (mgr w) < INT32_MAX1 →
  hashTable (mgr w) !! (f, p) = None →
  readPage_reply (io w) f p = Some pg →
  (∃ i d, nth_Z (bufDescTable (mgr w)) i = Some d ∧ pinCnt d = 0) →
  ∃ fr d0 w',
    readPage f p w = (Ret fr, w') ∧
    nth_Z (bufDescTable (mgr w)) fr = Some d0 ∧ pinCnt d0 = 0 ∧
    (∃ d', nth_Z (bufDescTable (mgr w')) fr = Some d' ∧
           file d' = Some f ∧ pageNo d' = p ∧ pinCnt d' = 1 ∧
           dirty d' = false ∧ valid d' = true ∧ refbit d' = true) ∧
    nth_Z (bufPool (mgr w')) fr = Some pg ∧
    hashTable (mgr w') !! (f, p) = Some fr ∧
    (∀ g q j, hashTable (mgr w) !! (g, q) = Some j → j ≠ fr →
       hashTable (mgr w') !! (g, q) = Some j ∧
       nth_Z (bufPool (mgr w')) j = nth_Z (bufPool (mgr w)) j) ∧
    (∀ g q, hashTable (mgr w) !! (g, q) = Some fr →
       hashTable (mgr w') !! (g, q) = None).
Proof.
  intros Hw HN Hh Hr (i & di & Hdi & Hpi).
  pose proof (reachable_Inv _ Hw) as HI. pose proof HI as (_ & Ho & Hix).
  pose proof (reachable_Good _ Hw) as (Hm & Hnn & _).
  pose proof (reachable_sized _ Hw) as Hsz.
  set (w0 := mkWorld (mgr w) (FReadPage f p :: io w)).
  assert (shape (mgr w0)) as Hsh.
  { apply sized_shape; [done|]. split; [|done].
    pose proof Hdi as [Hi0 Hl]%nth_Z_Some. apply lookup_lt_Some in Hl.
    destruct Hsz as (_ & Hlen & _). cbn [mgr w0]. lia. }
  destruct (allocBuf_finds w0 Hsh Ho) as (fr & w2 & Ha).
  { apply nth_Z_Some in Hdi as [Hi0 Hdi]. by exists (Z.to_nat i), di. }
  destruct (allocBuf_loop_Inv _ _ _ _ Ha HI) as (HI2 & Hto & Hvic & _).
  destruct (Hvic _ eq_refl) as (d2 & Hd2 & Hv2).
  destruct (allocBuf_victim_unpinned w0 fr w2 HI Ha) as (d0 & Hd0 & Hp0).
  pose proof Hd0 as [Hfr0 Hd0']%nth_Z_Some.
  pose proof (Hnn _ _ Hd0') as Hpos.
  destruct Hto as (_ & Hpool & Hsub & _).
  assert (is_Some (nth_Z (bufPool (mgr w2)) fr)) as [pg0 Hpg0].
  { rewrite Hpool. by eapply (sized_page (mgr w)). }
  destruct (readPage_loads f p w pg fr w2 d2 pg0 Hh Hr Ha Hd2 Hpg0)
    as (Hrun & Hfr & Hpg & Hnew).
  exists fr, d0, (mkWorld (install_page fr f p pg d2 (mgr w2)) (io w2)).
  split; [done|]. split; [done|]. split; [lia|]. cbn [mgr].
  split. { eexists. split; [done|]. done. }
  split; [done|]. split; [done|].
  assert (∀ g q, hashTable (mgr w2) !! (g, q) ≠ Some fr) as Hnofr.
  { intros g q Hq. destruct (proj2 (proj2 HI2) _ _ _ Hq) as (x & Hx & Hxv & _).
    congruence. }
  split.
  - intros g q j Hq Hj. split.
    + unfold install_page. cbn [hashTable with_table with_hash with_pool].
      rewrite lookup_insert_ne by congruence.
      destruct (allocBuf_loop_effect _ _ _ _ Ha)
        as [[Hh2 _]|(fr' & [= <-] & d & g0 & Hd & Hv & _ & Hf & _ & Hh2 & _)].
      * by rewrite Hh2.
      * rewrite Hh2. rewrite lookup_delete_ne; [done|].
        intros [= <- <-]. apply nth_Z_Some in Hd as [_ Hd].
        pose proof (Hm _ _ _ Hd Hv Hf) as Hk. cbn [mgr w0] in Hq.
        rewrite Hq in Hk. injection Hk as ->. lia.
    + unfold install_page. cbn [bufPool with_table with_hash with_pool].
      rewrite nth_Z_insert_ne by done. by rewrite Hpool.
  - intros g q Hq. unfold install_page. cbn [hashTable with_table with_hash with_pool].
    rewrite lookup_insert_ne by congruence.
    destruct (hashTable (mgr w2) !! (g, q)) as [j|] eqn:Hq2; [|done].
    pose proof (lookup_weaken _ _ _ _ Hq2 Hsub) as Hq0. cbn [mgr w0] in Hq0.
    assert (j = fr) as -> by congruence. by destruct (Hnofr g q).
Qed.

(** ** printSelf *)

Lemma valid_count_cons d t :
  valid_count (d :: t) = if valid d then S (valid_count t) else valid_count t.
Proof.
  unfold valid_count. rewrite filter_cons.
  destruct (valid d); case_decide; done.
Qed.

Lemma valid_count_none t :
  (∀ (i : nat) d, t !! i = Some d → valid d = false) → valid_count t = 0%nat.
Proof.
  induction t as [|x t IH]; intros Hall; [done|].
  rewrite valid_count_cons, (Hall 0%nat x eq_refl).
  apply IH. intros i d Hd. by apply (Hall (S i)).
Qed.

Lemma valid_count_insert t (i : nat) d d' :
  t !! i = Some d → valid d = true → valid d' = false →
  valid_count t = S (valid_count (<[i := d']> t)).
Proof.
  revert i. induction t as [|x t IH]; intros [|i] Hd Hv Hv'; cbn in Hd; try done.
  - injection Hd as ->. change (<[0%nat:=d']> (d :: t)) with (d' :: t).
    by rewrite !valid_count_cons, Hv, Hv'.
  - change (<[S i:=d']> (x :: t)) with (x :: <[i:=d']> t).
    rewrite !valid_count_cons.
    rewrite (IH i Hd Hv Hv'). by destruct (valid x).
Qed.

Lemma valid_count_le t : (valid_count t ≤ length t)%nat.
Proof.
  induction t as [|x t IH]; [done|].
  rewrite valid_count_cons. cbn [length]. destruct (valid x); lia.
Qed.

(** An index and a table that mirror each other have as many entries as
    valid frames. *)
Lemma size_mirror (h : gmap (nat * Z) Z) (t : list BufDesc) :
  (∀ f p fr, h !! (f, p) = Some fr →
     ∃ d, nth_Z t fr = Some d ∧ valid d = true ∧ file d = Some f ∧ pageNo d = p) →
  (∀ (i : nat) d, t !! i = Some d → valid d = true →
     ∃ f, file d = Some f ∧ h !! (f, pageNo d) = Some (Z.of_nat i)) →
  size h = valid_count t.
Proof.
  revert t. induction h as [|[f p] fr h Hnone IH] using map_ind; intros t H1 H2.
  - rewrite map_size_empty. symmetry. apply valid_count_none.
    intros i d Hd. destruct (valid d) eqn:Hv; [|done].
    destruct (H2 _ _ Hd Hv) as (g & _ & Hg). by rewrite lookup_empty in Hg.
  - rewrite map_size_insert_None by done.
    destruct (H1 f p fr) as (d & Hd & Hv & Hf & Hp); [apply lookup_insert_eq|].
    pose proof Hd as [Hfr Hd']%nth_Z_Some.
    rewrite (valid_count_insert t (Z.to_nat fr) d (with_valid false d)) by done.
    f_equal. apply IH.
    + intros g q j Hq.
      assert ((g, q) ≠ (f, p)) as Hne by (intros [= -> ->]; congruence).
      destruct (H1 g q j) as (x & Hx & Hxv & Hxf & Hxp).
      { by rewrite lookup_insert_ne. }
      exists x. split; [|done]. rewrite nth_Z_insert_ne; [done..|].
      intros <-. assert (x = d) as -> by congruence. congruence.
    + intros i x [(<- & <- & _)|[Hne Hx]]%list_lookup_insert_Some Hxv; [done|].
      destruct (H2 _ _ Hx Hxv) as (g & Hg & Hq). exists g. split; [done|].
      rewrite lookup_insert_Some in Hq. destruct Hq as [[_ Hq]|[_ Hq]]; [lia|done].
Qed.

Lemma count_valid_spec (n k : nat) (acc : Z) w :
  (∀ j : nat, (k ≤ j < k + n)%nat → is_Some (bufDescTable (mgr w) !! j)) →
  acc + Z.of_nat (valid_count (take n (drop k (bufDescTable (mgr w))))) < INT32_MAX1 →
  count_valid n (Z.of_nat k) acc w =
    (Ret (acc + Z.of_nat (valid_count (take n (drop k (bufDescTable (mgr w)))))), w).
Proof.
  revert k acc. induction n as [|n IH]; intros k acc Hall Hlt; cbn [count_valid].
  { rewrite take_0. change (valid_count []) with 0%nat. unfold ret. do 2 f_equal. lia. }
  destruct (Hall k ltac:(lia)) as [d Hd].
  rewrite (drop_S _ _ _ Hd) in Hlt |- *. cbn [take] in Hlt |- *.
  rewrite valid_count_cons in Hlt |- *.
  rewrite (bind_Ret _ _ _ _ _ (desc_at_run w (Z.of_nat k) d ltac:(by rewrite nth_Z_of_nat))).
  replace (Z.of_nat k + 1) with (Z.of_nat (S k)) by lia.
  destruct (valid d).
  - rewrite decide_True by lia. rewrite IH; [|intros j Hj; apply Hall; lia|lia].
    do 2 f_equal. lia.
  - apply IH; [intros j Hj; apply Hall; lia|done].
Qed.

(** X16. In a reachable state with fewer than 2^31 frames printSelf changes
    nothing, and the total it reports, the number of valid frames, is the
    number of pages in the index; it never exceeds the number of frames. *)
Theorem printSelf_counts w :
  reachable w → numBufs (mgr w) < INT32_MAX1 →
  printSelf w = (Ret (Z.of_nat (size (hashTable (mgr w)))), w) ∧
  size (hashTable (mgr w)) = valid_count (bufDescTable (mgr w)) ∧
  Z.of_nat (size (hashTable (mgr w))) ≤ numBufs (mgr w).
Proof.
  intros Hw HN. pose proof (reachable_Inv _ Hw) as (_ & Ho & Hix).
  pose proof (reachable_Good _ Hw) as (Hm & _).
  pose proof (reachable_sized _ Hw) as (HN0 & Hlen & _).
  assert (size (hashTable (mgr w)) = valid_count (bufDescTable (mgr w))) as Hsize.
  { apply size_mirror; [done|]. intros i d Hd Hv.
    destruct (Ho _ _ Hd Hv) as [f Hf]. exists f. split; [done|]. by apply Hm. }
  pose proof (valid_count_le (bufDescTable (mgr w))) as Hle.
  split; [|split; [done|lia]].
  unfold printSelf, bind, gets.
  pose proof (count_valid_spec (Z.to_nat (numBufs (mgr w))) 0 0 w) as Hrun.
  rewrite drop_0, take_ge in Hrun by lia.
  rewrite Hsize. apply Hrun; [|lia].
  intros j Hj. apply lookup_lt_is_Some_2. lia.
Qed.

(** ** Dirty pages are not lost *)

Lemma visit_step_tables w r w' :
  visit_step w r w' →
  ∀ j d, nth_Z (bufDescTable (mgr w)) j = Some d →
    ∃ d', nth_Z (bufDescTable (mgr w')) j = Some d' ∧
          (second_chance d d' ∨ (r = Ret (Some j) ∧ evicted w w' j)).
Proof.
  destruct 1 as [HN|HN Hd|d HN Hd Hv|d HN Hd Hv Hr|d HN Hd Hv Hr Hp
                |d f HN Hd Hv Hr Hp Hdi Hf|d f pg HN Hd Hv Hr Hp Hdi Hf Hpg
                |d f HN Hd Hv Hr Hp Hdi Hf Hpg|d HN Hd Hv Hr Hp Hdi Hf
                |d HN Hd Hv Hr Hp Hdi Hf];
    intros j x Hx; try (exists x; split; [done|by left; left]).
  - pose proof Hd as [Hh0 _]%nth_Z_Some.
    destruct (decide (j = clockHand (mgr (advanced w)))) as [->|Hne].
    + assert (x = d) as -> by congruence. exists (with_refbit false d).
      split; [cbn; by eapply nth_Z_insert_eq|]. left. by right.
    + exists x. split; [|by left; left]. cbn. by rewrite nth_Z_insert_ne.
  - pose proof Hd as [Hh0 _]%nth_Z_Some.
    destruct (decide (j = clockHand (mgr (advanced w)))) as [->|Hne].
    + assert (x = d) as -> by congruence. exists (BufDesc_Clear d).
      split; [cbn; by eapply nth_Z_insert_eq|]. right. split; [done|].
      exists d, f. split; [done|]. split; [done|]. split; [done|]. split; [done|].
      split. { cbn. by eapply nth_Z_insert_eq. }
      split; [done|]. by rewrite Hdi.
    + exists x. split; [|by left; left]. cbn. by rewrite nth_Z_insert_ne.
  - pose proof Hd as [Hh0 _]%nth_Z_Some.
    destruct (decide (j = clockHand (mgr (advanced w)))) as [->|Hne].
    + assert (x = d) as -> by congruence. exists (BufDesc_Clear d).
      split; [cbn; by eapply nth_Z_insert_eq|]. right. split; [done|].
      exists d, f. split; [done|]. split; [done|]. split; [done|]. split; [done|].
      split. { cbn. by eapply nth_Z_insert_eq. }
      split; [done|]. rewrite Hdi. by exists pg.
    + exists x. split; [|by left; left]. cbn. by rewrite nth_Z_insert_ne.
Qed.

Lemma sweep_tables n w r w' :
  sweep n w = (r, w') →
  ∀ j d, nth_Z (bufDescTable (mgr w)) j = Some d →
    ∃ d', nth_Z (bufDescTable (mgr w')) j = Some d' ∧
          (second_chance d d' ∨ (r = Ret (Some j) ∧ evicted w w' j)).
Proof.
  revert n w r w'.
  apply (sweep_ind_step (λ w r w',
    ∀ j d, nth_Z (bufDescTable (mgr w)) j = Some d →
      ∃ d', nth_Z (bufDescTable (mgr w')) j = Some d' ∧
            (second_chance d d' ∨ (r = Ret (Some j) ∧ evicted w w' j)))).
  - intros w j d Hd. exists d. split; [done|]. by left; left.
  - intros w fr w1 Hs. by eapply visit_step_tables.
  - intros w w1 Hs. by eapply visit_step_tables.
  - intros w w1 r w2 Hs IH j d Hd.
    destruct (visit_step_None_facts _ _ Hs) as (_ & Hp & Ht).
    destruct (visit_step_effect _ _ _ Hs) as [[Hh Hio]|(fr & [=] & _)].
    destruct (nth_Z_Forall2 _ _ _ _ _ Ht Hd) as (d1 & Hd1 & Hsc1).
    destruct (IH _ _ Hd1) as (d' & Hd' & [Hsc|[-> Hev]]).
    + exists d'. split; [done|]. left. by eapply second_chance_trans.
    + exists d'. split; [done|]. right. split; [done|]. by eapply evicted_after.
Qed.

Lemma allocBuf_loop_tables fuel w r w' :
  allocBuf_loop fuel w = (r, w') →
  ∀ j d, nth_Z (bufDescTable (mgr w)) j = Some d →
    ∃ d', nth_Z (bufDescTable (mgr w')) j = Some d' ∧
          (second_chance d d' ∨ (r = Ret j ∧ evicted w w' j)).
Proof.
  revert w r w'. induction fuel as [|fuel IH]; intros w r w'; cbn [allocBuf_loop].
  { intros [= <- <-] j d Hd. exists d. split; [done|]. by left; left. }
  unfold bind at 1, gets at 1. case_decide.
  { intros [= <- <-] j d Hd. exists d. split; [done|]. by left; left. }
  unfold bind at 1.
  destruct (sweep _ w) as [r1 w1] eqn:Hsw. intros Hrun j d Hd.
  destruct (sweep_tables _ _ _ _ Hsw _ _ Hd) as (d1 & Hd1 & Hrel).
  destruct r1 as [[fr|]|e| |].
  - injection Hrun as <- <-. exists d1. split; [done|].
    destruct Hrel as [?|[[= <-] Hev]]; [by left|by right].
  - destruct Hrel as [Hsc1|[[=] _]].
    destruct (sweep_effect _ _ _ _ Hsw) as [[Hh Hio]|(fr' & [=] & _)].
    destruct (sweep_None _ _ _ Hsw) as (_ & Hp1 & _ & _ & _ & Ht1 & _).
    unfold bind in Hrun.
    destruct (scan_unpinned _ 0 w1) as [r2 w2] eqn:Hsc.
    destruct (scan_unpinned_inv _ _ _ _ _ Hsc) as [-> [-> |[b ->]]].
    { injection Hrun as <- <-. exists d1. split; [done|]. by left. }
    destruct b.
    + destruct (IH _ _ _ Hrun _ _ Hd1) as (d' & Hd' & [Hsc2|[-> Hev]]).
      * exists d'. split; [done|]. left. by eapply second_chance_trans.
      * exists d'. split; [done|]. right. split; [done|]. by eapply evicted_after.
    + injection Hrun as <- <-. exists d1. split; [done|]. by left.
  - injection Hrun as <- <-. exists d1. split; [done|].
    destruct Hrel as [?|[[=] _]]. by left.
  - injection Hrun as <- <-. exists d1. split; [done|].
    destruct Hrel as [?|[[=] _]]. by left.
  - injection Hrun as <- <-. exists d1. split; [done|].
    destruct Hrel as [?|[[=] _]]. by left.
Qed.

(** A dirty frame either comes out of allocBuf as it went in, reference bit
    apart, or it is the frame returned and its content was written. *)
Lemma allocBuf_durable w r w' i d f pg :
  allocBuf w = (r, w') →
  nth_Z (bufDescTable (mgr w)) i = Some d →
  dirty d = true → file d = Some f →
  nth_Z (bufPool (mgr w)) i = Some pg →
  (∃ d', nth_Z (bufDescTable (mgr w')) i = Some d' ∧ second_chance d d' ∧
         nth_Z (bufPool (mgr w')) i = Some pg ∧
         (io w' = io w ∨ ∃ g pg', io w' = FWritePage g pg' :: io w)) ∨
  (r = Ret i ∧ io w' = FWritePage f pg :: io w).
Proof.
  intros Hrun Hd Hdirty Hf Hpg.
  destruct (allocBuf_loop_tables _ _ _ _ Hrun _ _ Hd) as (d' & Hd' & [Hsc|[-> Hev]]).
  - left. exists d'. split; [done|]. split; [done|]. split.
    + by destruct (allocBuf_loop_sweeps_to _ _ _ _ Hrun) as (_ & -> & _).
    + by eapply allocBuf_io.
  - right. split; [done|].
    destruct Hev as (x & g & Hx & _ & _ & Hg & _ & _ & Hwr).
    assert (x = d) as -> by congruence. rewrite Hdirty in Hwr.
    destruct Hwr as (pg' & Hpg' & ->). congruence.
Qed.

Lemma flushFile_from_io f (n : nat) k w r w' :
  flushFile_from (Some f) n k w = (r, w') → ∃ l, io w' = l ++ io w.
Proof.
  revert k w. induction n as [|n IH]; intros k w; cbn [flushFile_from].
  { intros [= <- <-]. by exists []. }
  unfold bind. destruct (flush_frame (Some f) k w) as [r1 w1] eqn:Hf.
  apply flush_frame_inv in Hf. intros Hrun.
  assert (∃ l1, io w1 = l1 ++ io w) as [l1 Hl1].
  { destruct Hf; try by exists []. by exists [FWritePage f pg]. }
  destruct r1 as [[]|e| |]; try (injection Hrun as <- <-; by exists l1).
  destruct (IH _ _ Hrun) as [l Hl]. exists (l ++ l1). by rewrite Hl, Hl1, app_assoc.
Qed.

Lemma flushFile_from_durable g (n : nat) k w r w' i d f pg :
  flushFile_from (Some g) n k w = (r, w') → 0 ≤ k →
  nth_Z (bufDescTable (mgr w)) i = Some d →
  dirty d = true → file d = Some f →
  nth_Z (bufPool (mgr w)) i = Some pg →
  ∃ l, io w' = l ++ io w ∧
       (FWritePage f pg ∈ l ∨
        (nth_Z (bufDescTable (mgr w')) i = Some d ∧
         nth_Z (bufPool (mgr w')) i = Some pg)).
Proof.
  revert k w. induction n as [|n IH]; intros k w; cbn [flushFile_from].
  { intros [= <- <-] _ Hd _ _ Hpg. exists []. split; [done|]. by right. }
  unfold bind. destruct (flush_frame (Some g) k w) as [r1 w1] eqn:Hstep.
  apply flush_frame_inv in Hstep. intros Hrun Hk Hd Hdirty Hf Hpg.
  inversion Hstep as [Hx|x Hx Hfx|x Hx Hfx Hp|x Hx Hfx Hp Hv
                     |x Hx Hfx Hp Hv Hdy|x pgk Hx Hfx Hp Hv Hdy Hpgk
                     |x Hx Hfx Hp Hv Hdy Hpgk]; subst.
  - injection Hrun as <- <-. exists []. split; [done|]. by right.
  - eapply IH; [exact Hrun|lia|done..].
  - injection Hrun as <- <-. exists []. split; [done|]. by right.
  - injection Hrun as <- <-. exists []. split; [done|]. by right.
  - assert (k ≠ i) as Hne by (intros ->; congruence).
    destruct (IH _ _ Hrun ltac:(lia)) as (l & Hl & Hres); [|done..|by exists l].
    cbn. by rewrite nth_Z_insert_ne.
  - destruct (decide (k = i)) as [->|Hne].
    + assert (x = d) as -> by congruence.
      assert (g = f) as -> by congruence. assert (pgk = pg) as -> by congruence.
      destruct (flushFile_from_io _ _ _ _ _ _ Hrun) as [l Hl]. cbn [io] in Hl.
      exists (l ++ [FWritePage f pg]). rewrite <-app_assoc. split; [done|].
      left. apply elem_of_app. right. by left.
    + destruct (IH _ _ Hrun ltac:(lia)) as (l & Hl & Hres); [|done..|].
      { cbn. by rewrite nth_Z_insert_ne. }
      cbn [io] in Hl. exists (l ++ [FWritePage g pgk]). rewrite <-app_assoc.
      split; [done|]. destruct Hres as [Hin|?]; [|by right].
      left. apply elem_of_app. by left.
  - injection Hrun as <- <-. exists []. split; [done|]. by right.
Qed.

(** X17. No public operation other than disposing of the page itself loses
    a dirty page.  In a reachable state, take a frame that holds a valid
    dirty page.  After any operation that returns or throws, either the
    frame still holds that page, valid and dirty, with the same content, or
    the operation has written that content to the page's file. *)
Theorem dirty_pages_written o w i d f pg :
  reachable w →
  nth_Z (bufDescTable (mgr w)) i = Some d →
  valid d = true → dirty d = true → file d = Some f →
  nth_Z (bufPool (mgr w)) i = Some pg →
  completes (fst (run o w)) →
  o ≠ OpDisposePage f (pageNo d) →
  ∃ l, io (snd (run o w)) = l ++ io w ∧
       (FWritePage f pg ∈ l ∨
        ∃ d', nth_Z (bufDescTable (mgr (snd (run o w)))) i = Some d' ∧
              file d' = Some f ∧ pageNo d' = pageNo d ∧
              valid d' = true ∧ dirty d' = true ∧
              nth_Z (bufPool (mgr (snd (run o w)))) i = Some pg).
Proof.
  intros Hw Hd Hv Hdirty Hf Hpg Hc Hother.
  pose proof (reachable_Inv _ Hw) as HI.
  pose proof Hd as [Hi0 _]%nth_Z_Some.
  assert (∀ w0 w2 fr l0,
    mgr w0 = mgr w → io w0 = l0 ++ io w →
    allocBuf w0 = (Ret fr, w2) →
    ∃ l, io w2 = l ++ io w ∧
      (FWritePage f pg ∈ l ∨
       (fr ≠ i ∧
        ∃ d', nth_Z (bufDescTable (mgr w2)) i = Some d' ∧
              file d' = Some f ∧ pageNo d' = pageNo d ∧
              valid d' = true ∧ dirty d' = true ∧
              nth_Z (bufPool (mgr w2)) i = Some pg))) as Hload.
  { intros w0 w2 fr l0 Hm0 Hio0 Ha.
    assert (Inv (mgr w0)) as HI0 by by rewrite Hm0.
    destruct (allocBuf_loop_Inv _ _ _ _ Ha HI0) as (_ & _ & Hvic & _).
    destruct (Hvic _ eq_refl) as (d2 & Hd2 & Hv2).
    destruct (allocBuf_durable w0 _ _ i d f pg Ha) as
      [(d' & Hd' & Hsc & Hpg' & Hio)|[[= ->] Hio]]; [rewrite ?Hm0; done..| |].
    - pose proof (second_chance_fields _ _ Hsc) as (Ef & Ep & _ & _ & Edi & Ev & _).
      assert (∃ l, io w2 = l ++ io w) as [l Hl].
      { destruct Hio as [->|(g' & pg' & ->)]; rewrite Hio0.
        - by exists l0.
        - by exists (FWritePage g' pg' :: l0). }
      exists l. split; [done|]. right. split; [intros ->; congruence|].
      exists d'. split; [done|]. split; [congruence|]. split; [done|].
      split; [congruence|]. split; [congruence|done].
    - exists (FWritePage f pg :: l0). rewrite Hio, Hio0. split; [done|].
      left. by left. }
  destruct o as [g q|g q b|g|g q|g]; cbn [run] in *.
  - unfold bind, ret in *. rewrite readPage_unfold in *.
    destruct (hashTable (mgr w) !! (g, q)) as [fr|] eqn:Hh.
    + destruct (nth_Z (bufDescTable (mgr w)) fr) as [x|] eqn:Hx; rsimpl; [|done].
      exists []. split; [done|]. right. destruct (decide (fr = i)) as [->|Hne].
      * assert (x = d) as -> by congruence. eexists.
        split; [by eapply nth_Z_insert_eq|]. done.
      * exists d. split; [|done]. mnext. rewrite nth_Z_insert_ne; [done| |done].
        by apply nth_Z_Some in Hx as [? _].
    + destruct (readPage_reply (io w) g q) as [pg1|]; rsimpl.
      2:{ exists [FReadPage g q]. split; [done|]. right. by exists d. }
      destruct (allocBuf _) as [[fr|e| |] w2] eqn:Ha; rsimpl; try done.
      2:{ destruct (allocBuf_durable _ _ _ i d f pg Ha) as
            [(d' & Hd' & Hsc & Hpg' & Hio)|[[=] _]]; [done..|].
          pose proof (second_chance_fields _ _ Hsc) as (Ef & Ep & _ & _ & Edi & Ev & _).
          assert (∃ l, io w2 = l ++ io w) as [l Hl].
          { destruct Hio as [->|(g' & pg' & ->)].
            - by exists [FReadPage g q].
            - by exists [FWritePage g' pg'; FReadPage g q]. }
          exists l. split; [done|]. right.
          exists d'. split; [done|]. split; [congruence|]. split; [done|].
          split; [congruence|]. split; [congruence|done]. }
      destruct (Hload (mkWorld (mgr w) (FReadPage g q :: io w)) w2 fr
                  [FReadPage g q] eq_refl eq_refl Ha) as (l & Hl & Hres).
      destruct (allocBuf_loop_sweeps_to _ _ _ _ Ha) as (_ & _ & Hsub & _).
      destruct (nth_Z (bufPool (mgr w2)) fr) as [pg0|] eqn:Hpg0; rsimpl; [|done].
      rewrite (lookup_weaken_None _ _ _ Hh Hsub) in *.
      destruct (nth_Z (bufDescTable (mgr w2)) fr) as [d2|] eqn:Hd2; rsimpl; [|done].
      exists l. split; [done|]. destruct Hres as [?|(Hne & d' & Hd' & Hrest)]; [by left|].
      right. exists d'. pose proof Hd2 as [Hfr0 _]%nth_Z_Some.
      unfold install_page. cbn [bufDescTable bufPool with_table with_hash with_pool].
      rewrite !nth_Z_insert_ne by done. done.
  - rewrite unPinPage_unfold in *.
    destruct (hashTable (mgr w) !! (g, q)) as [fr|] eqn:Hh; rsimpl.
    2:{ exists []. split; [done|]. right. by exists d. }
    destruct (nth_Z (bufDescTable (mgr w)) fr) as [x|] eqn:Hx; rsimpl; [|done].
    exists []. case_decide; rsimpl; (split; [done|]); right; [by exists d|].
    destruct (decide (fr = i)) as [->|Hne].
    + assert (x = d) as -> by congruence. eexists.
      split; [by eapply nth_Z_insert_eq|]. cbn. rewrite Hdirty.
      by rewrite orb_true_r.
    + exists d. split; [|done]. mnext. rewrite nth_Z_insert_ne; [done| |done].
      by apply nth_Z_Some in Hx as [? _].
  - unfold bind, ret in *. rewrite allocPage_unfold in *. rsimpl.
    destruct (allocBuf _) as [[fr|e| |] w2] eqn:Ha; rsimpl; try done.
    2:{ destruct (allocBuf_durable _ _ _ i d f pg Ha) as
          [(d' & Hd' & Hsc & Hpg' & Hio)|[[=] _]]; [done..|].
        pose proof (second_chance_fields _ _ Hsc) as (Ef & Ep & _ & _ & Edi & Ev & _).
        assert (∃ l, io w2 = l ++ io w) as [l Hl].
        { destruct Hio as [->|(g' & pg' & ->)].
          - by exists [FAllocatePage g].
          - by exists [FWritePage g' pg'; FAllocatePage g]. }
        exists l. split; [done|]. right.
        exists d'. split; [done|]. split; [congruence|]. split; [done|].
        split; [congruence|]. split; [congruence|done]. }
    destruct (Hload (mkWorld (mgr w) (FAllocatePage g :: io w)) w2 fr
                [FAllocatePage g] eq_refl eq_refl Ha) as (l & Hl & Hres).
    set (q := page_number (allocatePage_reply (io w) g)) in *.
    assert (∃ l', FReadPage g q :: io w2 = l' ++ io w ∧
              (FWritePage f pg ∈ l → FWritePage f pg ∈ l')) as (l' & Hl' & Hin).
    { exists (FReadPage g q :: l). rewrite Hl. split; [done|]. intros ?. by right. }
    destruct (readPage_reply (io w2) g q) as [pg1|]; rsimpl.
    2:{ exists l'. split; [done|].
        destruct Hres as [?|(Hne & d' & Hd' & Hrest)]; [left; by apply Hin|].
        right. by exists d'. }
    destruct (nth_Z (bufPool (mgr w2)) fr) as [pg0|] eqn:Hpg0; rsimpl; [|done].
    destruct (hashTable (mgr w2) !! (g, q)) eqn:Hh2; rsimpl.
    { exists l'. split; [done|].
      destruct Hres as [?|(Hne & d' & Hd' & Hrest)]; [left; by apply Hin|].
      right. exists d'. pose proof Hpg0 as [Hfr0 _]%nth_Z_Some.
      cbn [bufDescTable bufPool with_pool]. rewrite nth_Z_insert_ne by done. done. }
    destruct (nth_Z (bufDescTable (mgr w2)) fr) as [d2|] eqn:Hd2; rsimpl; [|done].
    exists l'. split; [done|].
    destruct Hres as [?|(Hne & d' & Hd' & Hrest)]; [left; by apply Hin|].
    right. exists d'. pose proof Hd2 as [Hfr0 _]%nth_Z_Some.
    unfold install_page. cbn [bufDescTable bufPool with_table with_hash with_pool].
    rewrite !nth_Z_insert_ne by done. done.
  - rewrite disposePage_unfold in *.
    destruct (hashTable (mgr w) !! (g, q)) as [fr|] eqn:Hh; rsimpl.
    2:{ exists [FDeletePage g q]. split; [done|]. right. by exists d. }
    destruct (proj2 (proj2 HI) _ _ _ Hh) as (x & Hx & Hxv & Hxf & Hxp).
    rewrite Hx in *. rsimpl.
    assert (fr ≠ i) as Hne.
    { intros ->. assert (x = d) as -> by congruence.
      apply Hother. f_equal; congruence. }
    exists [FDeletePage g q]. split; [done|]. right. exists d.
    cbn. rewrite nth_Z_insert_ne; [done| |done].
    by apply nth_Z_Some in Hx as [? _].
  - destruct (flushFile g w) as [r w'] eqn:Hrun. rsimpl.
    unfold flushFile, bind, gets in Hrun. destruct g as [g|].
    + destruct (flushFile_from_durable _ _ _ _ _ _ i d f pg Hrun) as (l & Hl & Hres);
        [lia|done..|].
      exists l. split; [done|]. destruct Hres as [?|[Hd' Hpg']]; [by left|].
      right. by exists d.
    + destruct (flushFile_from_null_inert _ _ _ _ _ Hrun (proj1 HI) (proj1 (proj2 HI)))
        as (-> & _).
      exists []. split; [done|]. right. by exists d.
Qed.

(** ** The frame allocBuf returns *)

Lemma visit_step_hand w fr w' :
  visit_step w (Ret (Some fr)) w' → clockHand (mgr w') = fr.
Proof. by inversion 1. Qed.

Lemma sweep_hand n w r w' :
  sweep n w = (r, w') → ∀ fr, r = Ret (Some fr) → clockHand (mgr w') = fr.
Proof.
  revert n w r w'.
  apply (sweep_ind_step (λ w r w',
    ∀ fr, r = Ret (Some fr) → clockHand (mgr w') = fr)); try done.
  intros w fr w1 Hs ? [= <-]. by eapply visit_step_hand.
Qed.

Lemma allocBuf_loop_hand fuel w fr w' :
  allocBuf_loop fuel w = (Ret fr, w') → clockHand (mgr w') = fr.
Proof.
  revert w. induction fuel as [|fuel IH]; intros w; cbn [allocBuf_loop]; [done|].
  unfold bind at 1, gets at 1. case_decide; [done|].
  unfold bind at 1.
  destruct (sweep _ w) as [r1 w1] eqn:Hsw. intros Hrun.
  destruct r1 as [[fr1|]|e| |]; try done.
  - injection Hrun as <- <-. by eapply sweep_hand.
  - unfold bind in Hrun.
    destruct (scan_unpinned _ 0 w1) as [r2 w2] eqn:Hsc.
    destruct (scan_unpinned_inv _ _ _ _ _ Hsc) as [-> [-> |[[] ->]]]; try done.
    by eapply IH.
Qed.

(** X18. When allocBuf returns a frame from a state that satisfies the
    invariants, the clock hand points to that frame, the frame lies in the
    pool, its descriptor is invalid, unpinned, clean and without owning
    file, and no entry of the index points to it. *)
Theorem allocBuf_returns_free_frame w fr w' :
  Inv (mgr w) → sized (mgr w) →
  allocBuf w = (Ret fr, w') →
  clockHand (mgr w') = fr ∧
  0 ≤ fr < numBufs (mgr w) ∧
  (∃ d', nth_Z (bufDescTable (mgr w')) fr = Some d' ∧
         valid d' = false ∧ pinCnt d' = 0 ∧ dirty d' = false ∧ file d' = None) ∧
  (∀ g q, hashTable (mgr w') !! (g, q) ≠ Some fr) ∧
  Inv (mgr w').
Proof.
  intros HI Hsz Ha.
  destruct (allocBuf_loop_Inv _ _ _ _ Ha HI) as (HI2 & Hto & Hvic & _).
  destruct (Hvic _ eq_refl) as (d2 & Hd2 & Hv2).
  pose proof (sized_sweeps_to _ _ Hto Hsz) as (HN2 & Hlen2 & _).
  destruct Hto as (HNeq & _).
  pose proof Hd2 as [Hfr0 Hd2']%nth_Z_Some.
  split; [by eapply allocBuf_loop_hand|]. split.
  { apply lookup_lt_Some in Hd2'. lia. }
  split.
  { exists d2. split; [done|]. split; [done|].
    by destruct (proj1 HI2 _ _ Hd2' Hv2) as (? & ? & ?). }
  split; [|done].
  intros g q Hq. destruct (proj2 (proj2 HI2) _ _ _ Hq) as (x & Hx & Hxv & _).
  congruence.
Qed.

(** ** Only dirty, unpinned pages are written *)

Lemma allocBuf_writes w r w' :
  allocBuf w = (r, w') →
  io w' = io w ∨
  ∃ i d g pg,
    io w' = FWritePage g pg :: io w ∧
    nth_Z (bufDescTable (mgr w)) i = Some d ∧
    valid d = true ∧ dirty d = true ∧ pinCnt d ≤ 0 ∧ file d = Some g ∧
    nth_Z (bufPool (mgr w)) i = Some pg.
Proof.
  intros Hrun.
  destruct (allocBuf_loop_effect _ _ _ _ Hrun)
    as [[_ Hio]|(fr & _ & d & g & Hd & Hv & Hp & Hg & _ & _ & Hwr)]; [by left|].
  destruct (dirty d) eqn:Hdirty; [|by left].
  destruct Hwr as (pg & Hpg & Hio). right. by exists fr, d, g, pg.
Qed.

Lemma flushFile_from_writes g (n : nat) k w r w' :
  flushFile_from (Some g) n k w = (r, w') → 0 ≤ k →
  ∃ l, io w' = l ++ io w ∧
    ∀ c, c ∈ l →
      ∃ i d pg,
        k ≤ i ∧ c = FWritePage g pg ∧
        nth_Z (bufDescTable (mgr w)) i = Some d ∧
        valid d = true ∧ dirty d = true ∧ pinCnt d ≤ 0 ∧ file d = Some g ∧
        nth_Z (bufPool (mgr w)) i = Some pg.
Proof.
  revert k w. induction n as [|n IH]; intros k w; cbn [flushFile_from].
  { intros [= <- <-] _. exists []. split; [done|]. intros c Hc.
    by apply elem_of_nil in Hc. }
  unfold bind. destruct (flush_frame (Some g) k w) as [r1 w1] eqn:Hstep.
  apply flush_frame_inv in Hstep. intros Hrun Hk.
  assert (∀ l1,
    io w1 = l1 ++ io w →
    bufPool (mgr w1) = bufPool (mgr w) →
    (∀ j, k + 1 ≤ j →
       nth_Z (bufDescTable (mgr w1)) j = nth_Z (bufDescTable (mgr w)) j) →
    (∀ c, c ∈ l1 →
      ∃ i d pg,
        k ≤ i ∧ c = FWritePage g pg ∧
        nth_Z (bufDescTable (mgr w)) i = Some d ∧
        valid d = true ∧ dirty d = true ∧ pinCnt d ≤ 0 ∧ file d = Some g ∧
        nth_Z (bufPool (mgr w)) i = Some pg) →
    ∃ l, io w' = l ++ io w ∧
      ∀ c, c ∈ l →
        ∃ i d pg,
          k ≤ i ∧ c = FWritePage g pg ∧
          nth_Z (bufDescTable (mgr w)) i = Some d ∧
          valid d = true ∧ dirty d = true ∧ pinCnt d ≤ 0 ∧ file d = Some g ∧
          nth_Z (bufPool (mgr w)) i = Some pg) as Hgo.
  { intros l1 Hl1 Hp1 Ht1 Hw1.
    destruct r1 as [[]|e| |]; try (injection Hrun as <- <-; by exists l1).
    destruct (IH _ _ Hrun ltac:(lia)) as (l & Hl & Hw).
    exists (l ++ l1). rewrite Hl, Hl1, app_assoc. split; [done|].
    intros c [Hc|Hc]%elem_of_app; [|by apply Hw1].
    destruct (Hw c Hc) as (i & d & pg & Hi & -> & Hd & Hv & Hdy & Hp & Hg & Hpg).
    exists i, d, pg. split; [lia|]. split; [done|].
    rewrite <-Ht1, <-Hp1 by lia. done. }
  inversion Hstep as [Hx|x Hx Hfx|x Hx Hfx Hp|x Hx Hfx Hp Hv
                     |x Hx Hfx Hp Hv Hdy|x pgk Hx Hfx Hp Hv Hdy Hpgk
                     |x Hx Hfx Hp Hv Hdy Hpgk]; subst;
    try (apply (Hgo []); [done..|]; intros c Hc; by apply elem_of_nil in Hc).
  - apply (Hgo []); [done|done| |].
    + intros j Hj. cbn. rewrite nth_Z_insert_ne; [done|lia|lia].
    + intros c Hc. by apply elem_of_nil in Hc.
  - apply (Hgo [FWritePage g pgk]); [done|done| |].
    + intros j Hj. cbn. rewrite nth_Z_insert_ne; [done|lia|lia].
    + intros c ->%list_elem_of_singleton. by exists k, x, pgk.
Qed.

(** X19. The manager writes nothing but dirty pages that nobody holds.  In
    a reachable state, every writePage call that a public operation makes
    carries the content of a frame that, before the operation, was valid and
    dirty with pin count 0, and goes to the file that owned that frame.  An
    operation only adds calls to the log of file calls. *)
Theorem writes_only_dirty o w :
  reachable w →
  ∃ l, io (snd (run o w)) = l ++ io w ∧
    ∀ f pg, FWritePage f pg ∈ l →
      ∃ i d,
        nth_Z (bufDescTable (mgr w)) i = Some d ∧
        valid d = true ∧ dirty d = true ∧ pinCnt d = 0 ∧ file d = Some f ∧
        nth_Z (bufPool (mgr w)) i = Some pg.
Proof.
  intros Hw. pose proof (reachable_Good _ Hw) as (_ & Hnn & _).
  assert (∀ w0 r w2 c,
    mgr w0 = mgr w → allocBuf w0 = (r, w2) →
    ∃ l, io w2 = l ++ io w0 ∧
      ∀ f pg, FWritePage f pg ∈ l ++ [c] → FWritePage f pg ≠ c →
        ∃ i d,
          nth_Z (bufDescTable (mgr w)) i = Some d ∧
          valid d = true ∧ dirty d = true ∧ pinCnt d = 0 ∧ file d = Some f ∧
          nth_Z (bufPool (mgr w)) i = Some pg) as Hvictim.
  { intros w0 r w2 c Hm0 Ha.
    destruct (allocBuf_writes _ _ _ Ha)
      as [Hio|(i & d & g & pg & Hio & Hd & Hv & Hdy & Hp & Hg & Hpg)].
    - exists []. split; [done|]. intros f pg ->%list_elem_of_singleton. done.
    - exists [FWritePage g pg]. split; [done|].
      intros f pg' [[= -> ->]%list_elem_of_singleton|Hc%list_elem_of_singleton]%elem_of_app Hne;
        [|done].
      rewrite Hm0 in Hd, Hpg. exists i, d. split; [done|].
      split; [done|]. split; [done|]. split; [|done].
      apply nth_Z_Some in Hd as [_ Hd]. pose proof (Hnn _ _ Hd). lia. }
  destruct o as [g q|g q b|g|g q|g]; cbn [run].
  - unfold bind, ret. rewrite readPage_unfold.
    destruct (hashTable (mgr w) !! (g, q)) as [fr|] eqn:Hh.
    + exists []. split; [by destruct (nth_Z (bufDescTable (mgr w)) fr)|].
      intros f pg Hc. by apply elem_of_nil in Hc.
    + destruct (readPage_reply (io w) g q) as [pg1|]; rsimpl.
      2:{ exists [FReadPage g q]. split; [done|].
          intros f pg [=]%list_elem_of_singleton. }
      destruct (allocBuf _) as [r1 w2] eqn:Ha.
      destruct (Hvictim (mkWorld (mgr w) _) _ _ (FReadPage g q) eq_refl Ha)
        as (l & Hl & Hwr).
      exists (l ++ [FReadPage g q]). split.
      * rewrite <-app_assoc. cbn [io] in Hl. cbn [app]. rewrite <-Hl.
        destruct r1 as [fr|e| |]; rsimpl; try done.
        destruct (nth_Z (bufPool (mgr w2)) fr); rsimpl; [|done].
        destruct (hashTable (mgr w2) !! (g, q)); rsimpl; [done|].
        by destruct (nth_Z (bufDescTable (mgr w2)) fr).
      * intros f pg Hc. by apply Hwr.
  - rewrite unPinPage_unfold. exists []. split.
    + destruct (hashTable (mgr w) !! (g, q)) as [fr|]; [|done].
      destruct (nth_Z (bufDescTable (mgr w)) fr); [|done]. by case_decide.
    + intros f pg Hc. by apply elem_of_nil in Hc.
  - unfold bind, ret. rewrite allocPage_unfold. cbv zeta.
    destruct (allocBuf _) as [r1 w2] eqn:Ha.
    destruct (Hvictim (mkWorld (mgr w) _) _ _ (FAllocatePage g) eq_refl Ha)
      as (l & Hl & Hwr).
    cbn [io] in Hl.
    set (q := page_number (allocatePage_reply (io w) g)).
    assert (∀ l', (∀ f pg, FWritePage f pg ∈ l' → FWritePage f pg ∈ l) →
              ∀ f pg, FWritePage f pg ∈ l' ++ [FAllocatePage g] →
                ∃ i d,
                  nth_Z (bufDescTable (mgr w)) i = Some d ∧
                  valid d = true ∧ dirty d = true ∧ pinCnt d = 0 ∧ file d = Some f ∧
                  nth_Z (bufPool (mgr w)) i = Some pg) as Hsub.
    { intros l' Hl' f pg [Hc|[=]%list_elem_of_singleton]%elem_of_app.
      apply Hwr; [|done]. apply elem_of_app. left. by apply Hl'. }
    assert (∀ f pg, FWritePage f pg ∈ FReadPage g q :: l → FWritePage f pg ∈ l)
      as Hread.
    { intros f pg [[=]|Hc]%elem_of_cons. done. }
    destruct r1 as [fr|e| |]; rsimpl;
      try (exists (l ++ [FAllocatePage g]); rewrite <-app_assoc;
           split; [done|]; by apply Hsub).
    exists ((FReadPage g q :: l) ++ [FAllocatePage g]). split; [|by apply Hsub].
    rewrite <-app_assoc. cbn [app]. rewrite <-Hl.
    destruct (readPage_reply (io w2) g q); rsimpl; [|done].
    destruct (nth_Z (bufPool (mgr w2)) fr); rsimpl; [|done].
    destruct (hashTable (mgr w2) !! (g, q)); rsimpl; [done|].
    by destruct (nth_Z (bufDescTable (mgr w2)) fr).
  - rewrite disposePage_unfold. pose proof (reachable_Inv _ Hw) as (_ & _ & Hix).
    exists [FDeletePage g q]. split.
    + destruct (hashTable (mgr w) !! (g, q)) as [fr|] eqn:Hh; [|done].
      by destruct (Hix _ _ _ Hh) as (x & -> & _).
    + intros f pg [=]%list_elem_of_singleton.
  - destruct (flushFile g w) as [r w'] eqn:Hrun. rsimpl.
    unfold flushFile, bind, gets in Hrun. destruct g as [g|].
    + destruct (flushFile_from_writes _ _ _ _ _ _ Hrun ltac:(lia)) as (l & Hl & Hwr).
      exists l. split; [done|]. intros f pg Hc.
      destruct (Hwr _ Hc) as (i & d & pg' & _ & [= -> ->] & Hd & Hv & Hdy & Hp & Hg & Hpg).
      exists i, d. split; [done|]. split; [done|]. split; [done|]. split; [|done].
      apply nth_Z_Some in Hd as [_ Hd]. pose proof (Hnn _ _ Hd). lia.
    + destruct (flushFile_from_null_sweeps_to _ _ _ _ _ Hrun) as [_ Hio].
      exists []. split; [done|]. intros f pg Hc. by apply elem_of_nil in Hc.
Qed.

(** ** The second chance *)

Lemma hand_ahead N c (j : nat) :
  0 < N → 0 ≤ c < N → Z.of_nat j + 1 < N → (c + 1 + Z.of_nat j) mod N ≠ c.
Proof.
  intros HN Hc Hj. destruct (decide (c + 1 + Z.of_nat j < N)) as [Hlt|Hge].
  - rewrite Z.mod_small by lia. lia.
  - replace (c + 1 + Z.of_nat j) with (c + 1 + Z.of_nat j - N + 1 * N) by lia.
    rewrite Z_mod_plus_full, Z.mod_small by lia. lia.
Qed.

(** The frame a sweep of at most [numBufs] steps selects is one it sees for
    the first time: as the sweep found it at the start, it was invalid, or
    valid, unreferenced and unpinned. *)
Lemma sweep_first_visit (n : nat) w fr w' :
  sweep n w = (Ret (Some fr), w') →
  0 < numBufs (mgr w) < INT32_MAX1 →
  0 ≤ clockHand (mgr w) < numBufs (mgr w) →
  Z.of_nat n ≤ numBufs (mgr w) →
  ∃ (j : nat) d,
    (j < n)%nat ∧
    fr = (clockHand (mgr w) + 1 + Z.of_nat j) mod numBufs (mgr w) ∧
    nth_Z (bufDescTable (mgr w)) fr = Some d ∧
    (valid d = false ∨ (valid d = true ∧ refbit d = false ∧ pinCnt d ≤ 0)).
Proof.
  revert w. induction n as [|n IH]; intros w; cbn [sweep]; [done|].
  unfold bind. destruct (visit w) as [r1 w1] eqn:Hvisit.
  apply visit_inv in Hvisit. intros Hrun HN Hc Hn.
  assert (hand_step (numBufs (mgr w)) (clockHand (mgr w)) =
          (clockHand (mgr w) + 1 + Z.of_nat 0) mod numBufs (mgr w)) as Hstep.
  { rewrite hand_step_small by done. f_equal. lia. }
  destruct r1 as [[h|]|e| |]; try done.
  - injection Hrun as -> <-. exists 0%nat.
    inversion Hvisit as [| |d HN' Hd Hv| | |d f HN' Hd Hv Hr Hp Hdi Hf
                        |d f pg HN' Hd Hv Hr Hp Hdi Hf Hpg| |d HN' Hd Hv Hr Hp Hdi Hf|];
      subst; exists d; cbn [advanced mgr clockHand with_clock] in *;
      (split; [lia|]); (split; [done|]); (split; [done|]);
      first [by left|right; repeat split; done].
  - destruct (visit_step_None_facts _ _ Hvisit) as (HN1 & _ & _).
    assert (clockHand (mgr w1) = hand_step (numBufs (mgr w)) (clockHand (mgr w)) ∧
            ∀ i, i ≠ hand_step (numBufs (mgr w)) (clockHand (mgr w)) →
              nth_Z (bufDescTable (mgr w1)) i = nth_Z (bufDescTable (mgr w)) i)
      as [Hc1 Hsame].
    { inversion Hvisit as [| | |d HN' Hd Hv Hr|d HN' Hd Hv Hr Hp| | | | |]; subst.
      - split; [done|]. intros i Hi. cbn.
        rewrite nth_Z_insert_ne; [done| |done]. by apply nth_Z_Some in Hd as [? _].
      - by split. }
    pose proof (hand_step_range (numBufs (mgr w)) (clockHand (mgr w)) ltac:(lia)) as Hr.
    destruct (IH w1 Hrun) as (j & d & Hj & Hfr & Hd & Hfree); [lia..|].
    rewrite HN1, Hc1 in Hfr.
    rewrite hand_step_small in Hfr, Hsame by done.
    assert (fr = (clockHand (mgr w) + 1 + Z.of_nat (S j)) mod numBufs (mgr w)) as Hfr'.
    { rewrite Hfr.
      replace ((clockHand (mgr w) + 1) mod numBufs (mgr w) + 1 + Z.of_nat j)
        with ((clockHand (mgr w) + 1) mod numBufs (mgr w) + (1 + Z.of_nat j)) by lia.
      rewrite Zplus_mod_idemp_l. f_equal. lia. }
    exists (S j), d. split; [lia|]. split; [done|]. split; [|done].
    rewrite <-Hsame; [done|]. rewrite Hfr.
    apply hand_ahead; [lia| |lia].
    apply Z.mod_pos_bound. lia.
Qed.

(** X20. A page whose reference bit is set gets its second chance.  When
    the pool has its shape and the hand points into it, allocBuf returns a
    frame that held a valid page with the reference bit set only if no frame
    was free for the taking: every frame of the pool held a valid page that
    was referenced or pinned. *)
Theorem referenced_page_second_chance w fr w' d :
  shape (mgr w) →
  0 ≤ clockHand (mgr w) < numBufs (mgr w) →
  allocBuf w = (Ret fr, w') →
  nth_Z (bufDescTable (mgr w)) fr = Some d →
  valid d = true → refbit d = true →
  ∀ i, 0 ≤ i < numBufs (mgr w) →
    ∃ x, nth_Z (bufDescTable (mgr w)) i = Some x ∧
         valid x = true ∧ (refbit x = true ∨ 0 < pinCnt x).
Proof.
  intros (HN & _) Hc Ha Hd Hv Hr i Hi. rewrite allocBuf_unfold in Ha.
  rewrite decide_False in Ha by lia.
  destruct (sweep _ w) as [r1 w1] eqn:Hsw.
  destruct (sweep_no_throw _ _ _ _ Hsw) as [Hnt Hnf].
  destruct r1 as [[fr1|]|e| |]; [| |by destruct (Hnt e)|done|done].
  - injection Ha as -> <-.
    destruct (sweep_first_visit _ _ _ _ Hsw HN Hc ltac:(lia))
      as (j & x & _ & _ & Hx & Hfree).
    assert (x = d) as -> by congruence.
    destruct Hfree as [?|(_ & ? & _)]; congruence.
  - destruct (sweep_None_all w w1 HN Hsw i Hi) as (x & x' & Hx & _ & _ & Hxv & Hxp & _).
    exists x. split; [done|]. split; [done|].
    destruct (refbit x); [by left|right; by apply Hxp].
Qed.

End Properties.

(** * The theorems at concrete inputs *)

#[local] Existing Instance Toy.files.

Lemma fresh_reachable bufs : 0 ≤ bufs < UINT32_MOD → reachable (Toy.fresh bufs).
Proof. apply (reachable_new (FC := Toy.files)). Qed.

Lemma unPinPage_spec_witness :
  unPinPage 0%nat 7 false (Toy.fresh 2) = (Ret tt, Toy.fresh 2) ∧
  unPinPage 0%nat 1 false Toy.idle =
    (Throw (PageNotPinnedException "a.db" 1 0), Toy.idle) ∧
  fst (unPinPage 0%nat 1 true Toy.pinned) = Ret tt.
Proof.
  split; [|split].
  - apply (unPinPage_spec (FC := Toy.files)). reflexivity.
  - eapply (proj2 (unPinPage_spec (FC := Toy.files) 0%nat 1 false Toy.idle) 0).
    all: vm_compute; reflexivity.
  - rewrite (proj2 (proj2 (unPinPage_spec (FC := Toy.files) 0%nat 1 true Toy.pinned)
                      0 (mkBufDesc (Some 0%nat) 1 0 1 false true true)
                      ltac:(vm_compute; reflexivity) ltac:(vm_compute; reflexivity))).
    + reflexivity.
    + vm_compute. discriminate.
Defined.

(** The toy worlds are states a client can reach. *)

Lemma run_reachable o w w' :
  reachable w → w' = snd (run o w) → completes (fst (run o w)) → reachable w'.
Proof. intros Hw -> Hc. by apply reachable_run. Qed.

Lemma pinned_reachable : reachable Toy.pinned.
Proof.
  apply (run_reachable (OpReadPage 0%nat 1) (Toy.fresh 2)).
  - apply fresh_reachable. unfold UINT32_MOD. lia.
  - vm_compute. reflexivity.
  - vm_compute. exact I.
Qed.

Lemma full_reachable : reachable Toy.full.
Proof.
  apply (run_reachable (OpReadPage 0%nat 2) Toy.pinned).
  - apply pinned_reachable.
  - vm_compute. reflexivity.
  - vm_compute. exact I.
Qed.

Lemma stale_reachable : reachable Toy.stale.
Proof.
  apply (run_reachable (OpReadPage 0%nat 3) Toy.full).
  - apply full_reachable.
  - vm_compute. reflexivity.
  - vm_compute. exact I.
Qed.

Lemma ripe_reachable : reachable Toy.ripe.
Proof.
  apply (run_reachable (OpUnPinPage 0%nat 1 true) Toy.stale).
  - apply stale_reachable.
  - vm_compute. reflexivity.
  - vm_compute. exact I.
Qed.

Lemma half_reachable : reachable Toy.half.
Proof.
  apply (run_reachable (OpUnPinPage 0%nat 1 true) Toy.full).
  - apply full_reachable.
  - vm_compute. reflexivity.
  - vm_compute. exact I.
Qed.

(** [Toy.ripe]: the hand moves to frame 0, which is valid, unpinned, dirty
    and not referenced; it is written back, cleared and selected. *)
Lemma allocBuf_evicts_witness :
  allocBuf Toy.ripe =
    (Ret 0,
     mkWorld
       (release_frame 0 (mkBufDesc (Some 0%nat) 1 0 0 true true false) 0%nat
          (mgr (advanced Toy.ripe)))
       (FWritePage 0%nat (mkPage 1 "blank") :: io Toy.ripe)).
Proof.
  apply (allocBuf_evicts Toy.ripe (mkBufDesc (Some 0%nat) 1 0 0 true true false)
           0%nat (mkPage 1 "blank")); try (vm_compute; reflexivity).
  - vm_compute. discriminate.
  - vm_compute. split; reflexivity.
Defined.

(** [Toy.full]: both frames are valid and pinned; allocBuf throws, and the
    reference bits that were set are now down. *)
Lemma allocBuf_full_drops_refbits :
  (∀ (j : nat) d, bufDescTable (mgr Toy.full) !! j = Some d →
     valid d = true ∧ 0 < pinCnt d) ∧
  fst (allocBuf Toy.full) = Throw BufferExceededException ∧
  snd (allocBuf Toy.full) ≠ Toy.full.
Proof.
  split; [|split].
  - intros [|[|j]] d; vm_compute; intros [= <-]; split; reflexivity.
  - vm_compute. reflexivity.
  - intros Heq.
    apply (f_equal (λ w, refbit <$> bufDescTable (mgr w) !! 0%nat)) in Heq.
    vm_compute in Heq. discriminate.
Qed.

(** Reached through allocPage, the failure comes after the file was asked
    to allocate the new page. *)
Lemma allocPage_full_allocates :
  fst (allocPage 0%nat Toy.full) = Throw BufferExceededException ∧
  io (snd (allocPage 0%nat Toy.full)) = FAllocatePage 0%nat :: io Toy.full.
Proof. split; vm_compute; reflexivity. Qed.

Lemma allocBuf_capacity_witness :
  allocBuf Toy.full =
    (Throw BufferExceededException,
     mkWorld (with_table (with_refbit false <$> bufDescTable (mgr Toy.full))
                (mgr Toy.full)) (io Toy.full)) ∧
  ∃ fr w', allocBuf Toy.half = (Ret fr, w').
Proof.
  split.
  - apply (allocBuf_capacity Toy.full).
    + vm_compute. repeat split; reflexivity.
    + intros [|[|j]] d; vm_compute; intros [= <-]; split; reflexivity.
    + vm_compute. split; [discriminate|reflexivity].
  - apply (allocBuf_capacity Toy.half).
    + vm_compute. repeat split; reflexivity.
    + intros [|[|j]] d; vm_compute; intros [= <-] _; by eexists.
    + exists 0%nat, (mkBufDesc (Some 0%nat) 1 0 0 true true true).
      vm_compute. split; reflexivity.
Defined.

Lemma readPage_resident_witness :
  fst (readPage 0%nat 1 Toy.pinned) = Ret 0 ∧
  ∃ w2 d2,
    readPage 0%nat 1 Toy.pinned = (Ret 0, w2) ∧
    io w2 = io Toy.pinned ∧
    nth_Z (bufDescTable (mgr w2)) 0 = Some d2 ∧
    pinCnt d2 = pins (mgr (Toy.fresh 2)) 0%nat 1 + 2.
Proof.
  split.
  - rewrite (proj1 (readPage_resident 0%nat 1 Toy.pinned) 0
               (mkBufDesc (Some 0%nat) 1 0 1 false true true)
               ltac:(vm_compute; reflexivity) ltac:(vm_compute; reflexivity)).
    reflexivity.
  - apply (proj2 (readPage_resident 0%nat 1 (Toy.fresh 2)) 0 Toy.pinned).
    vm_compute. reflexivity.
Defined.

(** C4.  The code reads the file before it selects a victim.  On a fresh
    pool of two frames, fetching a page the file does not hold throws with
    the hand where the constructor put it, while the order of section 4.3
    has moved the hand to frame 0 by then.  On a pool of one frame holding a
    dirty page, the code issues the read of the page fetched before the
    write-back of the victim, the order of section 4.3 after it. *)
Theorem readPage_reads_first :
  readPage 0%nat 99 (Toy.fresh 2) =
    (Throw InvalidPageException, mkWorld (mgr (Toy.fresh 2)) [FReadPage 0%nat 99]) ∧
  clockHand (mgr (Toy.fresh 2)) = 1 ∧
  clockHand (mgr (snd (readPage_victim_first 0%nat 99 (Toy.fresh 2)))) = 0 ∧
  io (snd (readPage 0%nat 2 Toy.single)) =
    [FWritePage 0%nat (mkPage 1 "blank"); FReadPage 0%nat 2; FReadPage 0%nat 1] ∧
  io (snd (readPage_victim_first 0%nat 2 Toy.single)) =
    [FReadPage 0%nat 2; FWritePage 0%nat (mkPage 1 "blank"); FReadPage 0%nat 1].
Proof. repeat split; vm_compute; reflexivity. Qed.


Lemma invalid_frames_clean_witness :
  desc_inv (mgr (Toy.fresh 2)) ∧
  desc_inv (mgr (snd (run (OpReadPage 0%nat 1) (Toy.fresh 2)))).
Proof.
  apply (proj2 invalid_frames_clean (Toy.fresh 2) (OpReadPage 0%nat 1)).
  - apply fresh_reachable. unfold UINT32_MOD. lia.
  - vm_compute. exact I.
Defined.

(** [Toy.pinned]: page 1 of file 0 sits in frame 0 with one pin; disposing
    of it clears the frame. *)
Lemma dispose_discards_pinned_page :
  reachable Toy.pinned ∧
  nth_Z (bufDescTable (mgr Toy.pinned)) 0 =
    Some (mkBufDesc (Some 0%nat) 1 0 1 false true true) ∧
  fst (run (OpDisposePage 0%nat 1) Toy.pinned) = Ret tt ∧
  ¬ kept (mgr Toy.pinned) (mgr (snd (run (OpDisposePage 0%nat 1) Toy.pinned))) 0.
Proof.
  split; [apply pinned_reachable|]. split; [vm_compute; reflexivity|].
  split; [vm_compute; reflexivity|].
  intros (d & d' & Hd & Hd' & Hf & _).
  vm_compute in Hd, Hd'. injection Hd as <-. injection Hd' as <-.
  discriminate Hf.
Qed.

Lemma pinned_frames_stay_witness :
  (∃ d, nth_Z (bufDescTable (mgr Toy.ripe)) 0 = Some d ∧ pinCnt d ≤ 0) ∧
  kept (mgr Toy.pinned) (mgr (snd (run (OpReadPage 0%nat 2) Toy.pinned))) 0.
Proof.
  split.
  - apply (proj1 (pinned_frames_stay Toy.ripe ripe_reachable) 0
             (snd (allocBuf Toy.ripe))).
    vm_compute. reflexivity.
  - apply (proj2 (pinned_frames_stay Toy.pinned pinned_reachable)
             (OpReadPage 0%nat 2) 0 (mkBufDesc (Some 0%nat) 1 0 1 false true true)).
    + vm_compute. reflexivity.
    + vm_compute. reflexivity.
    + vm_compute. exact I.
    + intros f p. discriminate.
Defined.

(** C9.  On a fresh pool of two frames, where no frame has an owning file,
    flushFile with a null pointer throws BadBufferException at frame 0. *)
Lemma flushFile_null_bad_buffer :
  reachable (Toy.fresh 2) ∧
  flushFile None (Toy.fresh 2) =
    (Throw (BadBufferException 0 false false false), Toy.fresh 2).
Proof.
  split.
  - apply fresh_reachable. unfold UINT32_MOD. lia.
  - vm_compute. reflexivity.
Qed.

(** [Toy.half]: flushing file 0 throws no BadBufferException.  [Toy.pinned]:
    frame 0 is valid and frame 1 is not, and flushing with a null pointer
    throws there. *)
Lemma flushFile_bad_buffer_only_null_witness :
  reachable Toy.half ∧
  fst (flushFile (Some 0%nat) Toy.half) ≠
    Throw (BadBufferException 0 false false false) ∧
  flushFile None Toy.pinned =
    (Throw (BadBufferException 1 false false false), Toy.pinned).
Proof.
  split; [apply half_reachable|]. split.
  - apply (proj1 (flushFile_bad_buffer_only_null Toy.half) (or_introl half_reachable)).
  - refine (proj1 (proj2 (flushFile_bad_buffer_only_null Toy.pinned) pinned_reachable)
              1 (mkBufDesc None 0 1 0 false false false) _ _ _).
    + vm_compute. reflexivity.
    + reflexivity.
    + intros j Hj. assert (j = 0) as -> by lia.
      exists (mkBufDesc (Some 0%nat) 1 0 1 false true true).
      split; [vm_compute; reflexivity|reflexivity].
Defined.

Lemma readPage_missing_page_witness :
  readPage 0%nat 99 (Toy.fresh 2) =
    (Throw InvalidPageException,
     mkWorld (mgr (Toy.fresh 2)) (FReadPage 0%nat 99 :: io (Toy.fresh 2))).
Proof.
  apply (readPage_missing_page 0%nat 99 (Toy.fresh 2)); vm_compute; reflexivity.
Defined.

(** ** The further properties at concrete inputs *)



(** [Toy.full]: both frames are pinned and allocBuf gives up. *)
Lemma allocBuf_exceeded_witness :
  hashTable (mgr (snd (allocBuf Toy.full))) = hashTable (mgr Toy.full) ∧
  io (snd (allocBuf Toy.full)) = io Toy.full ∧
  clockHand (mgr (snd (allocBuf Toy.full))) = clockHand (mgr Toy.full).
Proof.
  destruct (allocBuf_exceeded Toy.full BufferExceededException (snd (allocBuf Toy.full)))
    as (_ & _ & _ & Hh & Hio & Hc & _).
  - vm_compute. reflexivity.
  - split; [exact Hh|]. split; [exact Hio|]. apply Hc. vm_compute. split; [discriminate|reflexivity].
Defined.

(** [Toy.full]: page 2 of file 0 is in frame 1. *)
Lemma index_mirrors_frames_witness :
  hashTable (mgr Toy.full) !! (0%nat, 2) = Some 1 ↔
  ∃ d, nth_Z (bufDescTable (mgr Toy.full)) 1 = Some d ∧
       valid d = true ∧ file d = Some 0%nat ∧ pageNo d = 2.
Proof. apply (proj1 (index_mirrors_frames Toy.full full_reachable)). Defined.

Lemma reachable_well_formed_witness :
  0 ≤ clockHand (mgr Toy.full) < numBufs (mgr Toy.full).
Proof.
  apply (proj1 (proj2 (reachable_well_formed Toy.full full_reachable))).
  vm_compute. reflexivity.
Defined.

(** [Toy.pinned]: page 1 is fetched a second time and released again. *)
Lemma readPage_unPinPage_witness :
  fst (unPinPage 0%nat 1 false (snd (readPage 0%nat 1 Toy.pinned))) = Ret tt.
Proof.
  destruct (proj1 (readPage_unPinPage 0%nat 1 false Toy.pinned 0
                     (snd (readPage 0%nat 1 Toy.pinned)) pinned_reachable
                     ltac:(vm_compute; reflexivity)))
    as (w2 & d2 & Hrun & _).
  rewrite Hrun. reflexivity.
Defined.

(** [Toy.half]: page 2 is disposed of while it is pinned. *)
Lemma disposePage_discards_witness :
  fst (disposePage 0%nat 2 Toy.half) = Ret tt.
Proof.
  destruct (disposePage_discards 0%nat 2 Toy.half half_reachable) as (w' & Hrun & _).
  rewrite Hrun. reflexivity.
Defined.


Lemma flushFile_twice_witness :
  flushFile (Some 0%nat) (snd (flushFile (Some 0%nat) Toy.idle)) =
    (Ret tt, snd (flushFile (Some 0%nat) Toy.idle)).
Proof. apply (flushFile_twice 0%nat Toy.idle). vm_compute. reflexivity. Defined.

(** [Toy.half]: frame 0 is dirty and is written; frame 1 is clean. *)
Lemma destructor_writes_back_witness :
  io (snd (BufMgr_destroy Toy.half)) =
    FWritePage 0%nat (mkPage 1 "blank") :: io Toy.half.
Proof.
  destruct (destructor_writes_back Toy.half half_reachable) as (w' & Hrun & Hio & _).
  rewrite Hrun. exact Hio.
Defined.

(** [Toy.pinned]: frame 0 has been handed out, frame 1 is next. *)
Lemma fresh_frames_in_order_witness :
  fst (readPage 0%nat 2 Toy.pinned) = Ret 1.
Proof.
  destruct (proj2 fresh_frames_in_order 0%nat 2 1 Toy.pinned (mkPage 2 "blank"))
    as (d & _ & Hrun & _).
  - split; [vm_compute; split; reflexivity|]. split; reflexivity.
  - split; [vm_compute; split; discriminate|]. split; [reflexivity|].
    intros j d Hj [_ Hd]%nth_Z_Some.
    destruct (Z.to_nat j) as [|[|n]] eqn:Hn; [lia| |]; vm_compute in Hd.
    + injection Hd as <-. reflexivity.
    + discriminate.
  - vm_compute. reflexivity.
  - reflexivity.
  - reflexivity.
  - rewrite Hrun. reflexivity.
Defined.

(** [Toy.ripe]: the victim is the dirty page in frame 0. *)
Lemma allocBuf_one_eviction_witness :
  bufPool (mgr (snd (allocBuf Toy.ripe))) = bufPool (mgr Toy.ripe).
Proof.
  apply (allocBuf_one_eviction Toy.ripe (fst (allocBuf Toy.ripe))).
  vm_compute. reflexivity.
Defined.

(** [Toy.pinned]: the file gives page 9, which goes to frame 1. *)
Lemma allocPage_installs_witness :
  hashTable (mgr (snd (allocPage 0%nat Toy.pinned))) !! (0%nat, 9) = Some 1.
Proof.
  apply (allocPage_installs 0%nat Toy.pinned 9 1 (snd (allocPage 0%nat Toy.pinned))).
  vm_compute. reflexivity.
Defined.

(** [Toy.full]: both frames are pinned. *)
Lemma exceeded_after_file_call_witness :
  io (snd (readPage 0%nat 3 Toy.full)) = FReadPage 0%nat 3 :: io Toy.full ∧
  io (snd (allocPage 0%nat Toy.full)) = FAllocatePage 0%nat :: io Toy.full.
Proof.
  split.
  - apply (proj1 exceeded_after_file_call 0%nat 3 Toy.full).
    vm_compute. reflexivity.
  - apply (proj2 exceeded_after_file_call 0%nat Toy.full).
    vm_compute. reflexivity.
Defined.

(** [Toy.half]: frame 0 is not pinned, so page 3 can be fetched. *)
Lemma readPage_fetches_witness :
  ∃ fr, fst (readPage 0%nat 3 Toy.half) = Ret fr.
Proof.
  destruct (readPage_fetches 0%nat 3 Toy.half (mkPage 3 "blank") half_reachable)
    as (fr & d0 & w' & Hrun & _).
  - vm_compute. reflexivity.
  - vm_compute. reflexivity.
  - vm_compute. reflexivity.
  - exists 0, (mkBufDesc (Some 0%nat) 1 0 0 true true true).
    split; vm_compute; reflexivity.
  - exists fr. rewrite Hrun. reflexivity.
Defined.

(** [Toy.full]: two pages are resident. *)
Lemma printSelf_counts_witness :
  fst (printSelf Toy.full) = Ret 2.
Proof.
  destruct (printSelf_counts Toy.full full_reachable) as (Hrun & _).
  - vm_compute. reflexivity.
  - rewrite Hrun. vm_compute. reflexivity.
Defined.

(** [Toy.half]: fetching page 3 evicts the dirty page 1 from frame 0, and
    writes it. *)
Lemma dirty_pages_written_witness :
  ∃ l, io (snd (run (OpReadPage 0%nat 3) Toy.half)) = l ++ io Toy.half ∧
       (FWritePage 0%nat (mkPage 1 "blank") ∈ l ∨
        ∃ d', nth_Z (bufDescTable (mgr (snd (run (OpReadPage 0%nat 3) Toy.half)))) 0
                = Some d' ∧
              file d' = Some 0%nat ∧ pageNo d' = 1 ∧
              valid d' = true ∧ dirty d' = true ∧
              nth_Z (bufPool (mgr (snd (run (OpReadPage 0%nat 3) Toy.half)))) 0
                = Some (mkPage 1 "blank")).
Proof.
  apply (dirty_pages_written (OpReadPage 0%nat 3) Toy.half 0
           (mkBufDesc (Some 0%nat) 1 0 0 true true true) 0%nat (mkPage 1 "blank")
           half_reachable).
  - vm_compute. reflexivity.
  - reflexivity.
  - reflexivity.
  - reflexivity.
  - vm_compute. reflexivity.
  - vm_compute. exact I.
  - discriminate.
Defined.

(** [Toy.ripe]: allocBuf returns frame 0 and leaves the hand on it. *)
Lemma allocBuf_returns_free_frame_witness :
  clockHand (mgr (snd (allocBuf Toy.ripe))) = 0.
Proof.
  refine (proj1 (allocBuf_returns_free_frame Toy.ripe 0 (snd (allocBuf Toy.ripe)) _ _ _)).
  - apply reachable_Inv, ripe_reachable.
  - apply reachable_sized, ripe_reachable.
  - vm_compute. reflexivity.
Defined.

(** [Toy.half]: the only write of the fetch of page 3 is that of the dirty,
    unpinned page 1. *)
Lemma writes_only_dirty_witness :
  ∃ l, io (snd (run (OpReadPage 0%nat 3) Toy.half)) = l ++ io Toy.half ∧
    ∀ f pg, FWritePage f pg ∈ l →
      ∃ i d,
        nth_Z (bufDescTable (mgr Toy.half)) i = Some d ∧
        valid d = true ∧ dirty d = true ∧ pinCnt d = 0 ∧ file d = Some f ∧
        nth_Z (bufPool (mgr Toy.half)) i = Some pg.
Proof. exact (writes_only_dirty (OpReadPage 0%nat 3) Toy.half half_reachable). Defined.

(** [Toy.half]: allocBuf returns frame 0, whose page was referenced; frame 1
    was referenced and pinned. *)
Lemma referenced_page_second_chance_witness :
  ∃ x, nth_Z (bufDescTable (mgr Toy.half)) 1 = Some x ∧
       valid x = true ∧ (refbit x = true ∨ 0 < pinCnt x).
Proof.
  refine (referenced_page_second_chance Toy.half 0 (snd (allocBuf Toy.half))
            (mkBufDesc (Some 0%nat) 1 0 0 true true true) _ _ _ _ _ _ 1 _).
  - split; [vm_compute; split; reflexivity|]. split; reflexivity.
  - vm_compute. split; [discriminate|reflexivity].
  - vm_compute. reflexivity.
  - vm_compute. reflexivity.
  - reflexivity.
  - reflexivity.
  - vm_compute. split; [discriminate|reflexivity].
Defined.
